(** * The ArimoDataFrame wrapper layer: profiling mixin and distributed frame

    A shallow embedding of [arimo/data/__init__.py] (class
    [AbstractDataHandler]) and [arimo/data/distributed_parquet.py] (class
    [S3ParquetDistributedDataFrame]), followed by the properties of the
    profiling cache, partition subsetting, sampling, splitting and the
    transform chain.

    Python objects are modelled with their identity where the code relies on
    it: dataset handles live in a heap indexed by object id, methods take and
    return ids, and every method is a state transformer over a [World] that
    also holds the class-level registry [_CACHE], the log of file copies and
    the lines written to standard output.  Exceptions are results. *)

From Stdlib Require Import ZArith QArith Lia List String Ascii Bool.
From stdpp Require Import base option list gmap strings pretty.

Open Scope string_scope.
Open Scope list_scope.
Open Scope Z_scope.

(** ** Exceptions and results *)

Inductive Exn :=
| AssertionError
| ValueError
| IndexError
| AttributeError
| TypeError
| ZeroDivisionError
| StopIteration
| ExternalError (msg : string).

Inductive res (A : Type) :=
| Ok (a : A)
| Raise (e : Exn).

Arguments Ok {A} a.
Arguments Raise {A} e.

Definition is_ok {A} (r : res A) : bool :=
  match r with Ok _ => true | Raise _ => false end.

#[global] Instance Q_inhabited : Inhabited Q := populate 0%Q.

(** ** Part I.a  The profiling mixin, [AbstractDataHandler] *)

Module AbstractDataHandler.

(** Modelled from the spec: the container class behind
    [self._minNonNullProportion] is not under src/.  The code reads it as
    [.default] and as [[col]]; it is a dictionary with a default: [[col]] is
    the column's own entry when it has one and [.default] otherwise. *)
Record DefaultDict := {
  d_default : Q;
  d_items : gmap string Q
}.

Definition getitem (d : DefaultDict) (col : string) : Q :=
  match d_items d !! col with
  | Some v => v
  | None => d_default d
  end.

Definition set_default (d : DefaultDict) (v : Q) : DefaultDict :=
  {| d_default := v; d_items := d_items d |}.

(** The two dictionaries of [self._cache] that [suffNonNull] maintains. *)
Record Cache := {
  c_suffNonNull : gmap string bool;
  c_suffNonNullProportionThreshold : gmap string Q
}.

(** A data handler, as far as the threshold and its memo are concerned.
    [computed] lists, oldest first, the columns for which
    [self.nonNullProportion] has been called by [suffNonNull]. *)
Record Handler := {
  _minNonNullProportion : DefaultDict;
  _cache : Cache;
  computed : list string
}.

(** The getter of the property [minNonNullProportion]. *)
Definition minNonNullProportion (h : Handler) : Q :=
  d_default (_minNonNullProportion h).

(** The setter of the property [minNonNullProportion]. *)
Definition minNonNullProportion_setter (v : Q) (h : Handler) : Handler :=
  if negb (Qeq_bool v (d_default (_minNonNullProportion h)))
  then {| _minNonNullProportion := set_default (_minNonNullProportion h) v;
          _cache := {| c_suffNonNull := ∅;
                       c_suffNonNullProportionThreshold :=
                         c_suffNonNullProportionThreshold (_cache h) |};
          computed := computed h |}
  else h.

Section Methods.

(** [nonNullProportion] and [contentCols] are abstract in this class. *)
Variable nonNullProportion : string -> Q.
Variable contentCols : list string.

(** The [else] branch of [suffNonNull]: exactly one column. *)
Definition suffNonNull_col (col : string) (h : Handler) : bool * Handler :=
  let minNNP := getitem (_minNonNullProportion h) col in
  let thr := c_suffNonNullProportionThreshold (_cache h) in
  let '(outdated, thr') :=
    match thr !! col with
    | Some t =>
        if negb (Qeq_bool t minNNP)
        then (true, <[col := minNNP]> thr)
        else (false, thr)
    | None => (false, <[col := minNNP]> thr)
    end in
  let suff := c_suffNonNull (_cache h) in
  let recompute :=
    let b := Qle_bool (thr' !!! col) (nonNullProportion col) in
    (b, {| _minNonNullProportion := _minNonNullProportion h;
           _cache := {| c_suffNonNull := <[col := b]> suff;
                        c_suffNonNullProportionThreshold := thr' |};
           computed := computed h ++ [col] |}) in
  match suff !! col with
  | Some b =>
      if outdated then recompute
      else (b, {| _minNonNullProportion := _minNonNullProportion h;
                  _cache := {| c_suffNonNull := suff;
                               c_suffNonNullProportionThreshold := thr' |};
                  computed := computed h |})
  | None => recompute
  end.

(** What [suffNonNull] returns: a boolean for one column, a dictionary for
    several. *)
Inductive SuffResult :=
| One (b : bool)
| Many (m : gmap string bool).

(** The dictionary comprehension over [cols], left to right. *)
Fixpoint suffNonNull_each (cols : list string) (acc : gmap string bool)
    (h : Handler) : gmap string bool * Handler :=
  match cols with
  | [] => (acc, h)
  | col :: rest =>
      let '(b, h') := suffNonNull_col col h in
      suffNonNull_each rest (<[col := b]> acc) h'
  end.

Definition suffNonNull (cols : list string) (h : Handler)
    : res SuffResult * Handler :=
  let cols := match cols with [] => contentCols | _ => cols end in
  match cols with
  | [] => (Raise IndexError, h)
  | [col] => let '(b, h') := suffNonNull_col col h in (Ok (One b), h')
  | _ => let '(m, h') := suffNonNull_each cols ∅ h in (Ok (Many m), h')
  end.

(** Every memoised boolean was computed against the threshold recorded for
    its column. *)
Definition consistent (h : Handler) : Prop :=
  forall c b,
    c_suffNonNull (_cache h) !! c = Some b ->
    exists t,
      c_suffNonNullProportionThreshold (_cache h) !! c = Some t
      /\ b = Qle_bool t (nonNullProportion c).

(** Assignments to the threshold interleaved with queries. *)
Inductive Op :=
| Assign (v : Q)
| Query (cols : list string).

Definition step (o : Op) (h : Handler) : Handler :=
  match o with
  | Assign v => minNonNullProportion_setter v h
  | Query cols => snd (suffNonNull cols h)
  end.

Definition run (ops : list Op) (h : Handler) : Handler :=
  fold_left (fun h o => step o h) ops h.

End Methods.

(** A handler whose caches are still empty. *)
Definition fresh (d : DefaultDict) : Handler :=
  {| _minNonNullProportion := d;
     _cache := {| c_suffNonNull := ∅; c_suffNonNullProportionThreshold := ∅ |};
     computed := [] |}.

End AbstractDataHandler.

(** ** Part I.b  Strings and paths, as the Python library functions used *)

Definition str_of_list (l : list ascii) : string := string_of_list_ascii l.
Definition list_of_str (s : string) : list ascii := list_ascii_of_string s.

(** [s.startswith(pre)] *)
Definition startswith (s pre : string) : bool := String.prefix pre s.

(** [sub in s] *)
Fixpoint contains (sub s : string) : bool :=
  String.prefix sub s
  || match s with
     | EmptyString => false
     | String _ r => contains sub r
     end.

(** [s.count(c)] for a one-character [c] *)
Fixpoint count_char (c : ascii) (s : string) : Z :=
  match s with
  | EmptyString => 0
  | String d r => (if Ascii.eqb c d then 1 else 0) + count_char c r
  end.

(** [s[n:]] *)
Fixpoint str_drop (n : nat) (s : string) : string :=
  match n, s with
  | O, _ => s
  | S n', String _ r => str_drop n' r
  | S _, EmptyString => EmptyString
  end.

Definition slash : ascii := "/"%char.
Definition newline : ascii := ascii_of_nat 10.

(** [s.strip('/')] and [s.strip()] *)
Fixpoint lstrip (p : ascii -> bool) (l : list ascii) : list ascii :=
  match l with
  | c :: r => if p c then lstrip p r else l
  | [] => []
  end.

Definition strip_by (p : ascii -> bool) (s : string) : string :=
  str_of_list (rev (lstrip p (rev (lstrip p (list_of_str s))))).

(** A string is the sequence of the code points of a Python [str], all of
    them below 256.  [is_space] is [str.isspace] on these: the white space
    that [str.strip()] removes is the characters 9 to 13, 28 to 32, 133 and
    160. *)
Definition is_space (c : ascii) : bool :=
  let n := nat_of_ascii c in
  ((9 <=? n)%nat && (n <=? 13)%nat)
  || ((28 <=? n)%nat && (n <=? 32)%nat)
  || (n =? 133)%nat || (n =? 160)%nat.

Definition strip (s : string) : string := strip_by is_space s.
Definition strip_slashes (s : string) : string := strip_by (Ascii.eqb slash) s.

(** [s.lower()]: below 256 the upper-case letters are [A] to [Z] and the
    characters 192 to 222 without the multiplication sign 215, each 32 below
    its lower-case letter. *)
Definition lower_char (c : ascii) : ascii :=
  let n := nat_of_ascii c in
  if ((65 <=? n)%nat && (n <=? 90)%nat)
     || ((192 <=? n)%nat && (n <=? 222)%nat && negb (n =? 215)%nat)
  then ascii_of_nat (n + 32) else c.

Fixpoint lower (s : string) : string :=
  match s with
  | EmptyString => EmptyString
  | String c r => String (lower_char c) (lower r)
  end.

(** [s.replace(old, new)] for a non-empty [old]: occurrences are replaced
    left to right without overlap.  [skip] counts the characters of a matched
    occurrence still to be passed over. *)
Fixpoint replace_from (old new : string) (skip : nat) (s : string) : string :=
  match s with
  | EmptyString => EmptyString
  | String c r =>
      match skip with
      | S k => replace_from old new k r
      | O =>
          if String.prefix old s
          then new +:+ replace_from old new (String.length old - 1) r
          else String c (replace_from old new O r)
      end
  end.

Definition replace (old new s : string) : string :=
  match old with
  | EmptyString => s
  | _ => replace_from old new O s
  end.

(** [os.path.join(a, b)] *)
Definition path_join (a b : string) : string :=
  if startswith b "/" then b
  else match a with
       | EmptyString => b
       | _ => if String.prefix "/" (str_of_list (rev (list_of_str a)))
              then a +:+ b
              else a +:+ "/" +:+ b
       end.

(** The text after the last slash, and the text before it, of a reversed
    path. *)
Fixpoint rev_tail (l : list ascii) : list ascii :=
  match l with
  | [] => []
  | c :: r => if Ascii.eqb c slash then [] else c :: rev_tail r
  end.

Fixpoint rev_head (l : list ascii) : option (list ascii) :=
  match l with
  | [] => None
  | c :: r => if Ascii.eqb c slash then Some l else rev_head r
  end.

(** [os.path.basename(p)] *)
Definition basename (p : string) : string :=
  str_of_list (rev (rev_tail (rev (list_of_str p)))).

(** [os.path.dirname(p)]: the head up to the last slash, without its
    trailing slashes unless it consists of slashes only. *)
Definition dirname (p : string) : string :=
  match rev_head (rev (list_of_str p)) with
  | None => EmptyString
  | Some h =>
      match lstrip (Ascii.eqb slash) h with
      | [] => str_of_list (rev h)
      | h' => str_of_list (rev h')
      end
  end.

(** [urlparse(path).netloc] and [urlparse(path).path[1:]] of a
    [scheme://netloc/key] address without query or fragment. *)
Fixpoint after_scheme (s : string) : string :=
  if String.prefix "://" s then str_drop 3 s
  else match s with
       | EmptyString => EmptyString
       | String _ r => after_scheme r
       end.

Fixpoint before_slash (s : string) : string :=
  match s with
  | EmptyString => EmptyString
  | String c r => if Ascii.eqb c slash then EmptyString else String c (before_slash r)
  end.

Fixpoint from_slash (s : string) : string :=
  match s with
  | EmptyString => EmptyString
  | String c r => if Ascii.eqb c slash then s else from_slash r
  end.

Definition url_netloc (p : string) : string := before_slash (after_scheme p).
Definition url_key (p : string) : string := str_drop 1 (from_slash (after_scheme p)).

(** [re.search(key + '(.*?)/', s).group(1)] for a [key] free of regular
    expression operators: the text between the leftmost occurrence of [key]
    that is followed, on the same line, by a slash, and that slash.  [None]
    is the failed search. *)
Fixpoint upto_slash (s : string) : option string :=
  match s with
  | EmptyString => None
  | String c r =>
      if Ascii.eqb c slash then Some EmptyString
      else if Ascii.eqb c newline then None
      else match upto_slash r with
           | Some v => Some (String c v)
           | None => None
           end
  end.

Fixpoint re_search_group (key : string) (s : string) : option string :=
  let here :=
    if String.prefix key s then upto_slash (str_drop (String.length key) s)
    else None in
  match here with
  | Some v => Some v
  | None =>
      match s with
      | EmptyString => None
      | String _ r => re_search_group key r
      end
  end.

(** The characters that are operators in a pattern of [re]; every other
    character of a pattern stands for itself. *)
Definition regex_operator (c : ascii) : bool :=
  bool_decide (c ∈ list_of_str ".^$*+?{}[]\|()").

(** A column name that, put into the pattern ['{}=(.*?)/'.format(col)],
    stands for itself. *)
Definition regex_plain (col : string) : bool :=
  forallb (fun c => negb (regex_operator c)) (list_of_str col).


(** [s.split('/')] *)
Fixpoint split_slash (s : string) : list string :=
  match s with
  | EmptyString => [EmptyString]
  | String c r =>
      if Ascii.eqb c slash then EmptyString :: split_slash r
      else match split_slash r with
           | d :: ds => String c d :: ds
           | [] => [String c EmptyString]
           end
  end.


(** The directories of a sub-path: its segments between slashes, without the
    last one, which is the name of the file. *)
Definition directories (p : string) : list string := removelast (split_slash p).

(** The value of the partition key [col] in a sub-path: what follows [col=]
    in the first directory of the form [col=value]. *)
Definition key_value (col p : string) : option string :=
  match List.find (fun d => String.prefix (col +:+ "=") d) (directories p) with
  | Some d => Some (str_drop (String.length col + 1) d)
  | None => None
  end.


(** A Python [set] of strings is kept as the list of its elements in
    iteration order; [set_add] is [s.add(x)]. *)
Definition set_add (x : string) (s : list string) : list string :=
  if bool_decide (x ∈ s) then s else s ++ [x].

Definition set_of (l : list string) : list string :=
  fold_left (fun s x => set_add x s) l [].

(** [s.issuperset(l)] *)
Definition issuperset (s l : list string) : bool :=
  forallb (fun x => bool_decide (x ∈ s)) l.

(** [l[a:b]] with Python's treatment of negative and oversized indices. *)
Definition slice_index (len i : Z) : nat :=
  Z.to_nat (if (i <? 0)%Z then Z.max 0 (len + i) else Z.min i len).

Definition slice {A} (a b : Z) (l : list A) : list A :=
  let len := Z.of_nat (length l) in
  let i := slice_index len a in
  let j := slice_index len b in
  take (j - i) (drop i l).

(** ** Part I.c  What the frame obtains from its collaborators

    The distributed engine, the columnar file reader, the object store, the
    superclass [DDF] and the helper modules are not part of these two files.
    They enter the model as the members of [External].  The floating-point
    expressions of [sample] and [split] are members too: their values are
    those of binary64 arithmetic on the platform, not of exact arithmetic. *)

(** An argument of [select]: a string or a column object (named here). *)
Inductive Expr :=
| EStr (s : string)
| ECol (c : string).

#[global] Instance Expr_eq_dec : EqDecision Expr.
Proof. solve_decision. Defined.

Class External := {
  (** the engine's data frame, with [count()] and [dtypes] *)
  SparkDF : Type;
  df_count : SparkDF -> Z;
  df_dtypes : SparkDF -> list (string * string);
  (** [df.withColumn(colName, df[colName].astype(_STR_TYPE))] *)
  df_castToString : string -> SparkDF -> SparkDF;
  df_selectExpr : list string -> SparkDF -> res SparkDF;
  df_select : list Expr -> SparkDF -> res SparkDF;
  df_getitem : list string -> SparkDF -> res SparkDF;
  df_drop : list string -> SparkDF -> res SparkDF;
  df_filter : string -> SparkDF -> res SparkDF;
  df_withColumn : string -> string -> SparkDF -> res SparkDF;
  (** [spark.sql(query)], the frame being registered under the temporary
      alias, and [SQLTransformer(statement=...).transform] *)
  spark_sql : string -> string -> SparkDF -> res SparkDF;
  SQLTransformer : string -> SparkDF -> res SparkDF;
  (** [re.search('{}=(.*?)/'.format(col), s)] for a [col] that holds
      operators of regular expressions: the group of the match, [None] when
      nothing matches, or the error of the pattern *)
  re_search_operators : string -> string -> res (option string);
  (** [ParquetDataset(path).pieces] (the paths of the pieces) and
      [spark.read.load(path)], given the file copies made so far *)
  ParquetDataset_pieces : list (string * string) -> string -> res (list string);
  spark_read_load : list (string * string) -> string -> res SparkDF;
  s3a_path_with_auth : string -> string;
  (** [DDF.sample(n=...)] on a piece and [DDF.unionAllCols]; a sampled
      frame comes with the [colWidth] entry of its cache *)
  DDF_sample : SparkDF -> Q -> res (SparkDF * gmap string Z);
  DDF_unionAllCols :
    list (SparkDF * gmap string Z) -> res (SparkDF * gmap string Z);
  (** [DDF.fillna] and [DDF.prep] with their details and fitted transformer *)
  Details : Type;
  DDF_fillna :
    SparkDF -> list string -> res (SparkDF * Details * (SparkDF -> res SparkDF));
  DDF_prep :
    SparkDF -> list string
    -> res (SparkDF * Details * Details * (SparkDF -> res SparkDF));
  prep_typeStrs : SparkDF -> Details -> list (string * string);
  (** a local per-partition table *)
  PandasDF : Type;
  (** [uuid.uuid4()], [random.shuffle] and [random.sample]: the k-th draw *)
  uuid4 : nat -> string;
  random_shuffle : nat -> list string -> list string;
  (** constants of modules that are not under src/ *)
  DATE_COL : string;
  BINARY_TYPE : string;
  TMP_DIR_PATH : string;
  REPR_SAMPLE_MIN_N_PIECES : Z;
  (** [int(math.ceil(((x / nRows) ** .5) * nPieces))] for [0 <= x], [0 < nRows] *)
  float_ceil_sqrt_scaled : Z -> Z -> Z -> Z;
  (** [int(round((numpy.cumsum(weights) / sum(weights))[i] * nPieces))] *)
  float_cumu_index : list Q -> nat -> Z -> Z
}.

Section Frame.

Context `{Ext : External}.

(** An engine-native transform: a [Transformer] object, applied through
    [.transform(dataset=...)], or a callable.  A callable that was given extra
    arguments is the function already applied to them. *)
Inductive SparkDFTransform :=
| Transformer (t : SparkDF -> res SparkDF)
| Callable (f : SparkDF -> res SparkDF).

(** A local-columnar transform: one of the helper objects of the feeder
    module, or a function supplied by the caller. *)
Inductive PandasDFTransform :=
| GetItemPandas (item : list string)
| DropPandas (cols : list string)
| FillnaPandas (nullFillDetails : Details)
| PrepPandas (typeStrs : list (string * string)) (catMap numMap : Details)
| UserPandas (f : PandasDF -> res PandasDF).

(** [transformer.transform(dataset=df) if isinstance(transformer, Transformer)
    else transformer(df)] *)
Definition apply_transform (t : SparkDFTransform) (df : SparkDF) : res SparkDF :=
  match t with
  | Transformer f => f df
  | Callable f => f df
  end.

Definition is_Transformer (t : SparkDFTransform) : bool :=
  match t with Transformer _ => true | Callable _ => false end.

(** The S3 attributes of a registry entry; absent off S3, where
    [s3Client], [s3Bucket] and [tmpDirS3Key] are [None]. *)
Record S3Info := {
  s3Bucket : string;
  pathS3Key : string;
  tmpDirS3Key : string
}.

(** The discovery metadata of a path. [m_path] is the [path] attribute that
    only the branch for a data set without pieces assigns. *)
Record Meta := {
  nPieces : Z;
  piecePaths : list string;
  pieceSubPaths : list string;
  _partitionedByDateOnly : bool;
  m_path : option string;
  s3Client : option S3Info;
  tmpDirPath : string
}.

(** A [Namespace] of the registry [_CACHE], by how far its construction got:
    just created, listed by the file reader, or loaded by the engine. *)
Inductive Namespace :=
| NsEmpty
| NsListed (m : Meta)
| NsLoaded (m : Meta) (_srcSparkDF : SparkDF) (_srcNRows : Z).

(** The per-handle [_cache]. [pieceADFs] is the identity of a dictionary
    object, which derived handles share. *)
Record HCache := {
  c_nRows : option Z;
  c_type : list (string * string);
  c_colWidth : gmap string Z;
  c_reprSample : option SparkDF;
  c_pieceADFs : nat
}.

Record Handle := {
  path : string;
  meta : Meta;
  _srcSparkDF : SparkDF;
  _srcNRows : Z;
  _initSparkDF : SparkDF;
  _sparkDFTransforms : list SparkDFTransform;
  _pandasDFTransforms : list PandasDFTransform;
  _sparkDF : SparkDF;
  _alias : option string;
  _reprSampleMinNPieces : Z;
  _cache : HCache
}.

Record World := {
  heap : gmap nat Handle;
  dicts : gmap nat (gmap string nat);
  _CACHE : gmap string Namespace;
  copies : list (string * string);
  stdout : list string;
  n_uuid : nat;
  n_random : nat
}.

(** *** The monad of methods: state and exceptions *)

Definition M (A : Type) : Type := World -> res A * World.

Definition ret {A} (a : A) : M A := fun w => (Ok a, w).
Definition raise {A} (e : Exn) : M A := fun w => (Raise e, w).

Definition bind {A B} (m : M A) (k : A -> M B) : M B :=
  fun w =>
    match m w with
    | (Ok a, w') => k a w'
    | (Raise e, w') => (Raise e, w')
    end.

(** [try: m except Exception as err: handler(err)] *)
Definition try_except {A} (m : M A) (handler : Exn -> M A) : M A :=
  fun w =>
    match m w with
    | (Ok a, w') => (Ok a, w')
    | (Raise e, w') => handler e w'
    end.

Definition lift {A} (r : res A) : M A := fun w => (r, w).
Definition gets {A} (f : World -> A) : M A := fun w => (Ok (f w), w).
Definition modify (f : World -> World) : M unit := fun w => (Ok tt, f w).

Definition assert (b : bool) : M unit :=
  if b then ret tt else raise AssertionError.

End Frame.

Notation "'let*' x ':=' m 'in' k" := (bind m (fun x => k))
  (at level 10, x name, m at level 100, k at level 200, only parsing).
Notation "'let*' ' p ':=' m 'in' k" := (bind m (fun p => k))
  (at level 10, p pattern, m at level 100, k at level 200, only parsing).
Notation "m1 ';;' m2" := (bind m1 (fun _ => m2))
  (at level 100, m2 at level 200, right associativity, only parsing).

(** ** Part I.d  [S3ParquetDistributedDataFrame] *)

Section Methods.

Context `{Ext : External}.

(** *** Access to the object store *)

Definition with_heap (f : gmap nat Handle -> gmap nat Handle) (w : World) : World :=
  {| heap := f (heap w); dicts := dicts w; _CACHE := _CACHE w;
     copies := copies w; stdout := stdout w;
     n_uuid := n_uuid w; n_random := n_random w |}.

Definition with_dicts (f : gmap nat (gmap string nat) -> gmap nat (gmap string nat))
    (w : World) : World :=
  {| heap := heap w; dicts := f (dicts w); _CACHE := _CACHE w;
     copies := copies w; stdout := stdout w;
     n_uuid := n_uuid w; n_random := n_random w |}.

Definition with_CACHE (f : gmap string Namespace -> gmap string Namespace)
    (w : World) : World :=
  {| heap := heap w; dicts := dicts w; _CACHE := f (_CACHE w);
     copies := copies w; stdout := stdout w;
     n_uuid := n_uuid w; n_random := n_random w |}.

Definition with_copies (f : list (string * string) -> list (string * string))
    (w : World) : World :=
  {| heap := heap w; dicts := dicts w; _CACHE := _CACHE w;
     copies := f (copies w); stdout := stdout w;
     n_uuid := n_uuid w; n_random := n_random w |}.

Definition with_stdout (f : list string -> list string) (w : World) : World :=
  {| heap := heap w; dicts := dicts w; _CACHE := _CACHE w;
     copies := copies w; stdout := f (stdout w);
     n_uuid := n_uuid w; n_random := n_random w |}.

(** The attributes of the object [self]. *)
Definition deref (self : nat) : M Handle :=
  fun w =>
    match heap w !! self with
    | Some h => (Ok h, w)
    | None => (Raise AttributeError, w)
    end.

(** Assignment to attributes of the object [self]. *)
Definition update (self : nat) (f : Handle -> Handle) : M unit :=
  modify (with_heap (fun hp =>
    match hp !! self with
    | Some h => <[self := f h]> hp
    | None => hp
    end)).

(** A new object. *)
Definition alloc (h : Handle) : M nat :=
  fun w =>
    let id := fresh (dom (heap w)) in
    (Ok id, with_heap (insert id h) w).

(** A new, empty dictionary. *)
Definition alloc_dict : M nat :=
  fun w =>
    let id := fresh (dom (dicts w)) in
    (Ok id, with_dicts (insert id ∅) w).

(** [print(line)] and the error lines of the logger. *)
Definition print (line : string) : M unit :=
  modify (with_stdout (fun out => out ++ [line])).

(** One file copy, by the object store or by the file system. *)
Definition copy_file (from_path to_path : string) : M unit :=
  modify (with_copies (fun c => c ++ [(from_path, to_path)])).

Fixpoint copy_all (pairs : list (string * string)) : M unit :=
  match pairs with
  | [] => ret tt
  | (a, b) :: rest => copy_file a b;; copy_all rest
  end.

(** [str(uuid.uuid4())] *)
Definition new_uuid : M string :=
  fun w =>
    (Ok (uuid4 (n_uuid w)),
     {| heap := heap w; dicts := dicts w; _CACHE := _CACHE w;
        copies := copies w; stdout := stdout w;
        n_uuid := S (n_uuid w); n_random := n_random w |}).

(** [random.shuffle(l)]: the shuffled list. *)
Definition shuffle (l : list string) : M (list string) :=
  fun w =>
    (Ok (random_shuffle (n_random w) l),
     {| heap := heap w; dicts := dicts w; _CACHE := _CACHE w;
        copies := copies w; stdout := stdout w;
        n_uuid := n_uuid w; n_random := S (n_random w) |}).

(** [random.sample(population, k)]: [k] elements without replacement, or
    [ValueError] when [k] is negative or exceeds the population. *)
Definition random_sample (population : list string) (k : Z) : M (list string) :=
  if (k <? 0) || (Z.of_nat (length population) <? k) then raise ValueError
  else
    let* l := shuffle population in
    ret (take (Z.to_nat k) l).

(** *** Keyword arguments *)

(** The keyword arguments that the methods read. [None] is an argument that
    was not passed. *)
Record Kw := {
  kw_alias : option string;
  kw_inheritCache : option bool;
  kw_inheritNRows : option bool;
  kw_verbose : option bool
}.

Definition no_kw : Kw :=
  {| kw_alias := None; kw_inheritCache := None;
     kw_inheritNRows := None; kw_verbose := None |}.

(** Truth value of an optional string: [None] and [''] are false. *)
Definition truthy_str (o : option string) : bool :=
  match o with
  | Some EmptyString | None => false
  | Some _ => true
  end.

(** [stdKwArgs = self._extractStdKwArgs(kwargs, ...)] followed by
    [if stdKwArgs.alias and (stdKwArgs.alias == self.alias):
       stdKwArgs.alias = None]; of the standard arguments only the alias is
    kept in this model. *)
Definition stdKwArgs_alias (h : Handle) (kw : Kw) : option string :=
  if truthy_str (kw_alias kw) && bool_decide (kw_alias kw = _alias h)
  then None
  else kw_alias kw.

(** *** [__init__] *)

Record InitArgs := {
  reCache : bool;
  a_initSparkDF : option SparkDF;
  a_sparkDFTransforms : list SparkDFTransform;
  a_sparkDF : option SparkDF;
  a_pandasDFTransforms : list PandasDFTransform;
  reprSampleMinNPieces : Z;
  verbose : bool;
  alias : option string;
  (** the keyword [nRows], passed on to [DDF.__init__] *)
  nRows_kw : option (option Z)
}.

Definition init_args (ts : list SparkDFTransform) (ps : list PandasDFTransform)
    (verbose : bool) (alias : option string) : InitArgs :=
  {| reCache := false; a_initSparkDF := None;
     a_sparkDFTransforms := ts; a_sparkDF := None;
     a_pandasDFTransforms := ps;
     reprSampleMinNPieces := REPR_SAMPLE_MIN_N_PIECES;
     verbose := verbose; alias := alias; nRows_kw := None |}.

(** The metadata recorded for [path] from the pieces that the file reader
    lists. *)
Definition discover (path : string) (pieces : list string) : Meta :=
  let s3 :=
    if startswith path "s3"
    then Some {| s3Bucket := url_netloc path;
                 pathS3Key := url_key path;
                 tmpDirS3Key := strip_slashes TMP_DIR_PATH |}
    else None in
  let tmp :=
    match s3 with
    | Some i => path_join ("s3://" +:+ s3Bucket i) (tmpDirS3Key i)
    | None => TMP_DIR_PATH
    end in
  match pieces with
  | first :: _ =>
      let sub := str_drop (String.length path + 1) in
      {| nPieces := Z.of_nat (length pieces);
         piecePaths := set_of pieces;
         pieceSubPaths := set_of (map sub pieces);
         _partitionedByDateOnly :=
           startswith (sub first) (DATE_COL +:+ "=")
           && (count_char slash (sub first) =? 1);
         m_path := None;
         s3Client := s3;
         tmpDirPath := tmp |}
  | [] =>
      {| nPieces := 1;
         piecePaths := [dirname path];
         pieceSubPaths := [basename path];
         _partitionedByDateOnly := false;
         m_path := Some (dirname path);
         s3Client := s3;
         tmpDirPath := tmp |}
  end.

(** The loop that casts binary columns to strings. *)
Definition coerce_binary (df : SparkDF) : SparkDF :=
  fold_left
    (fun acc ct =>
       if String.eqb (snd ct) BINARY_TYPE then df_castToString (fst ct) acc
       else acc)
    (df_dtypes df) df.

(** Replay of a transform chain; a failing transform is reported with its
    index and re-raised. *)
Fixpoint replay (label : nat -> string) (call_only : bool)
    (ts : list SparkDFTransform) (i : nat) (df : SparkDF) : M SparkDF :=
  match ts with
  | [] => ret df
  | t :: rest =>
      let r :=
        if call_only && is_Transformer t then Raise TypeError
        else apply_transform t df in
      match r with
      | Ok df' => replay label call_only rest (S i) df'
      | Raise e => print (label i);; raise e
      end
  end.

(** The registry entry for [path]: the cached one, or the result of
    discovery and loading. *)
Definition registry_entry (path : string) (reCache : bool)
    : M (Meta * SparkDF * Z) :=
  let* cached := gets (fun w => _CACHE w !! path) in
  let* ns :=
    match cached with
    | Some ns =>
        if negb reCache then ret ns
        else modify (with_CACHE (insert path NsEmpty));; ret NsEmpty
    | None => modify (with_CACHE (insert path NsEmpty));; ret NsEmpty
    end in
  match ns with
  | NsLoaded m src n => ret (m, src, n)
  | NsListed _ => raise AttributeError
  | NsEmpty =>
      let* made := gets copies in
      let* pieces := lift (ParquetDataset_pieces made path) in
      let m := discover path pieces in
      modify (with_CACHE (insert path (NsListed m)));;
      let sparkPath :=
        if startswith path "s3" then s3a_path_with_auth path else path in
      let* loaded := lift (spark_read_load made sparkPath) in
      let src := coerce_binary loaded in
      modify (with_CACHE (insert path (NsLoaded m src (df_count src))));;
      ret (m, src, df_count src)
  end.

(** Modelled from the spec: [DDF.__init__] is not under src/.  It keeps the
    engine frame and starts the handle's own cache with the row count it is
    given (unknown when none is given) and with the column types of the
    frame; nothing is sampled yet. *)
Definition DDF_init (sparkDF : SparkDF) (nRows : option Z) (d : nat) : HCache :=
  {| c_nRows := nRows;
     c_type := df_dtypes sparkDF;
     c_colWidth := ∅;
     c_reprSample := None;
     c_pieceADFs := d |}.

Definition with_type (ty : list (string * string)) (c : HCache) : HCache :=
  {| c_nRows := c_nRows c; c_type := ty; c_colWidth := c_colWidth c;
     c_reprSample := c_reprSample c; c_pieceADFs := c_pieceADFs c |}.

Definition __init__ (path0 : string) (a : InitArgs) : M nat :=
  let* '(m, src, srcN) := registry_entry path0 (reCache a) in
  let self_path := match m_path m with Some p => p | None => path0 end in
  let* '(frame0, nRows0) :=
    match a_initSparkDF a with
    | Some df =>
        ret (df, match nRows_kw a with Some r => r | None => None end)
    | None =>
        match nRows_kw a with
        | Some _ => raise TypeError
        | None => ret (src, Some srcN)
        end
    end in
  let* '(sparkDF, recacheTypes) :=
    match a_sparkDF a with
    | None =>
        match a_sparkDFTransforms a with
        | [] => ret (frame0, false)
        | ts =>
            let* df :=
              replay (fun i => "*** " +:+ self_path +:+ " TRANSFORM #"
                               +:+ pretty i +:+ ": ***")
                     false ts O frame0 in
            ret (df, true)
        end
    | Some df => ret (df, true)
    end in
  let* d := alloc_dict in
  let cache0 := DDF_init frame0 nRows0 d in
  alloc {| path := self_path;
           meta := m;
           _srcSparkDF := src;
           _srcNRows := srcN;
           _initSparkDF := frame0;
           _sparkDFTransforms := a_sparkDFTransforms a;
           _pandasDFTransforms := a_pandasDFTransforms a;
           _sparkDF := sparkDF;
           _alias := if truthy_str (alias a) then alias a else None;
           _reprSampleMinNPieces := Z.min (reprSampleMinNPieces a) (nPieces m);
           _cache := if recacheTypes
                     then with_type (df_dtypes sparkDF) cache0
                     else cache0 |}.

(** [load], with the defaults of the constructor. *)
Definition load (path : string) : M nat :=
  __init__ path (init_args [] [] true None).

(** *** Transforms *)

(** The first argument of [transform]: a list of transforms or one. *)
Inductive TransformArg :=
| TList (l : list SparkDFTransform)
| TOne (t : SparkDFTransform).

(** Its [pandasDFTransform] argument: a list, or one transform. *)
Inductive PandasArg :=
| PList (l : list PandasDFTransform)
| POne (t : PandasDFTransform).

Definition with_reprSample (s : option SparkDF) (c : HCache) : HCache :=
  {| c_nRows := c_nRows c; c_type := c_type c; c_colWidth := c_colWidth c;
     c_reprSample := s; c_pieceADFs := c_pieceADFs c |}.

Definition with_pieceADFs (d : nat) (c : HCache) : HCache :=
  {| c_nRows := c_nRows c; c_type := c_type c; c_colWidth := c_colWidth c;
     c_reprSample := c_reprSample c; c_pieceADFs := d |}.

Definition with_colWidth (cw : gmap string Z) (c : HCache) : HCache :=
  {| c_nRows := c_nRows c; c_type := c_type c; c_colWidth := cw;
     c_reprSample := c_reprSample c; c_pieceADFs := c_pieceADFs c |}.

Definition with_nRows (n : option Z) (c : HCache) : HCache :=
  {| c_nRows := n; c_type := c_type c; c_colWidth := c_colWidth c;
     c_reprSample := c_reprSample c; c_pieceADFs := c_pieceADFs c |}.

Definition with_cache (f : HCache -> HCache) (h : Handle) : Handle :=
  {| path := path h; meta := meta h;
     _srcSparkDF := _srcSparkDF h; _srcNRows := _srcNRows h;
     _initSparkDF := _initSparkDF h;
     _sparkDFTransforms := _sparkDFTransforms h;
     _pandasDFTransforms := _pandasDFTransforms h;
     _sparkDF := _sparkDF h; _alias := _alias h;
     _reprSampleMinNPieces := _reprSampleMinNPieces h;
     _cache := f (_cache h) |}.

Definition with_alias (a : option string) (h : Handle) : Handle :=
  {| path := path h; meta := meta h;
     _srcSparkDF := _srcSparkDF h; _srcNRows := _srcNRows h;
     _initSparkDF := _initSparkDF h;
     _sparkDFTransforms := _sparkDFTransforms h;
     _pandasDFTransforms := _pandasDFTransforms h;
     _sparkDF := _sparkDF h; _alias := a;
     _reprSampleMinNPieces := _reprSampleMinNPieces h;
     _cache := _cache h |}.

(** Modelled from the spec: [DDF._inheritCache] is not under src/.  A handle
    produced by a cache-preserving operation carries the inherited cache
    fields; the row count travels through the constructor and the type map is
    taken from the new frame, so what this call hands over is the
    representative sample of the source. *)
Definition _inheritCache (self source : nat) : M unit :=
  let* src := deref source in
  update self (with_cache (with_reprSample (c_reprSample (_cache src)))).

Definition transform (self : nat) (sparkDFTransform : TransformArg)
    (_sparkDF0 : option SparkDF) (pandasDFTransform : PandasArg) (kw : Kw)
    : M nat :=
  let* h := deref self in
  let alias' := stdKwArgs_alias h kw in
  let inheritCache0 :=
    match kw_inheritCache kw with Some b => b | None => false end in
  let '(additionalSparkDFTransforms, inheritCache) :=
    match sparkDFTransform with
    | TList l => (l, inheritCache0 || forallb is_Transformer l)
    | TOne (Transformer t) => ([Transformer t], true)
    | TOne (Callable f) => ([Callable f], inheritCache0)
    end in
  let additionalPandasDFTransforms :=
    match pandasDFTransform with
    | PList l => l
    | POne t => [t]
    end in
  let inheritNRows :=
    match kw_inheritNRows kw with Some b => b | None => inheritCache end in
  let* sparkDF :=
    match _sparkDF0 with
    | Some df => ret df
    | None =>
        replay (fun i => "*** " +:+ path h +:+ " ADDITIONAL TRANSFORM #"
                         +:+ pretty i +:+ ": ***")
               false additionalSparkDFTransforms O (_sparkDF h)
    end in
  let* arrowDDF :=
    __init__ (path h)
      {| reCache := false;
         a_initSparkDF := Some (_initSparkDF h);
         a_sparkDFTransforms :=
           _sparkDFTransforms h ++ additionalSparkDFTransforms;
         a_sparkDF := Some sparkDF;
         a_pandasDFTransforms :=
           _pandasDFTransforms h ++ additionalPandasDFTransforms;
         reprSampleMinNPieces := REPR_SAMPLE_MIN_N_PIECES;
         verbose := true;
         alias := alias';
         nRows_kw := Some (if inheritNRows then c_nRows (_cache h) else None) |} in
  (if inheritCache then _inheritCache arrowDDF self else ret tt);;
  let* h' := deref self in
  update arrowDDF (with_cache (with_pieceADFs (c_pieceADFs (_cache h'))));;
  ret arrowDDF.

Definition is_EStr (e : Expr) : bool :=
  match e with EStr _ => true | ECol _ => false end.

Definition expr_text (e : Expr) : string :=
  match e with EStr s => s | ECol c => c end.

Definition with_inherit (cache nrows : bool) (kw : Kw) : Kw :=
  {| kw_alias := kw_alias kw; kw_inheritCache := Some cache;
     kw_inheritNRows := Some nrows; kw_verbose := kw_verbose kw |}.

(** ['*' in exprs]: the arguments are compared with ['*'] from left to
    right, up to the first that is equal.  Comparing a column object with a
    string gives a column object, and the engine's column objects have no
    truth value: asking for it raises [ValueError]. *)
Fixpoint star_in (exprs : list Expr) : res bool :=
  match exprs with
  | [] => Ok false
  | EStr s :: rest => if String.eqb s "*" then Ok true else star_in rest
  | ECol _ :: _ => Raise ValueError
  end.

(** The flags that [select] passes on, [star] being ['*' in exprs]. *)
Definition select_flags (kw : Kw) (star : bool) : Kw :=
  let inheritCache :=
    match kw_inheritCache kw with Some b => b | None => star end in
  with_inherit inheritCache
    (match kw_inheritNRows kw with Some b => b | None => inheritCache end) kw.

(** The default of [inheritCache] is computed before the keyword argument is
    looked up, so the comparison is made also when the argument is given. *)
Definition select (self : nat) (exprs : list Expr) (kw : Kw) : M nat :=
  let* '(exprs, inheritCache) :=
    match exprs with
    | [] => ret ([EStr "*"],
                 match kw_inheritCache kw with Some b => b | None => true end)
    | _ =>
        let* star := lift (star_in exprs) in
        ret (exprs,
             match kw_inheritCache kw with Some b => b | None => star end)
    end in
  let inheritNRows :=
    match kw_inheritNRows kw with Some b => b | None => inheritCache end in
  transform self
    (TOne (Callable (if forallb is_EStr exprs
                     then df_selectExpr (map expr_text exprs)
                     else df_select exprs)))
    None (PList []) (with_inherit inheritCache inheritNRows kw).

Definition set_alias (self : nat) (a : option string) : M unit :=
  update self (with_alias a).

Definition sql (self : nat) (query tempAlias : string) (kw : Kw) : M nat :=
  let* h := deref self in
  let origAlias := _alias h in
  set_alias self (Some tempAlias);;
  try_except
    (let _lower_query := lower (strip query) in
     assert (startswith _lower_query "select");;
     let* _sparkDF1 := lift (spark_sql query tempAlias (_sparkDF h)) in
     set_alias self origAlias;;
     let inheritCache :=
       match kw_inheritCache kw with
       | Some b => b
       | None =>
           (contains "select *" _lower_query
            || contains ("select " +:+ lower tempAlias +:+ ".*") _lower_query)
           && negb (contains "where" _lower_query)
           && negb (contains "join" _lower_query)
           && negb (contains "union" _lower_query)
       end in
     let inheritNRows :=
       match kw_inheritNRows kw with Some b => b | None => inheritCache end in
     transform self
       (TOne (Transformer (SQLTransformer
          (replace (tempAlias +:+ ".") "__THIS__."
             (replace (tempAlias +:+ " ") "__THIS__ "
                (replace (" " +:+ tempAlias) " __THIS__" query))))))
       (Some _sparkDF1) (PList []) (with_inherit inheritCache inheritNRows kw))
    (fun exception => set_alias self origAlias;; raise exception).

Definition fillna (self : nat) (cols : list string) (kw : Kw)
    : M (nat * Details) :=
  let* h := deref self in
  let alias' := stdKwArgs_alias h kw in
  let* '(adfDF, nullFillDetails, sqlTransformer) :=
    lift (DDF_fillna (_sparkDF h) cols) in
  let* adf :=
    transform self (TOne (Transformer sqlTransformer)) (Some adfDF)
      (POne (FillnaPandas nullFillDetails))
      {| kw_alias := alias'; kw_inheritCache := Some true;
         kw_inheritNRows := Some true; kw_verbose := None |} in
  _inheritCache adf adf;;
  let* h' := deref self in
  update adf (with_cache (with_reprSample (c_reprSample (_cache h'))));;
  ret (adf, nullFillDetails).

Definition prep (self : nat) (cols : list string) (kw : Kw)
    : M (nat * Details * Details) :=
  let* h := deref self in
  let alias' := stdKwArgs_alias h kw in
  let* '(adfDF, catOrigToPrepColMap, numOrigToPrepColMap, pipelineModel) :=
    lift (DDF_prep (_sparkDF h) cols) in
  let* adf :=
    transform self (TOne (Transformer pipelineModel)) (Some adfDF)
      (POne (PrepPandas (prep_typeStrs (_initSparkDF h) catOrigToPrepColMap)
                        catOrigToPrepColMap numOrigToPrepColMap))
      {| kw_alias := alias'; kw_inheritCache := Some true;
         kw_inheritNRows := Some true; kw_verbose := None |} in
  _inheritCache adf adf;;
  let* h' := deref self in
  update adf (with_cache (with_reprSample (c_reprSample (_cache h'))));;
  ret (adf, catOrigToPrepColMap, numOrigToPrepColMap).

(** [drop], [filter] and [withColumn] call
    [self.transform(..., inheritCache=True, inheritNRows=True, **kwargs)]:
    when the caller passes one of the two flags as well, the call has the
    keyword twice and raises [TypeError] before [transform] is entered. *)
Definition duplicate_keyword (kw : Kw) : bool :=
  match kw_inheritCache kw, kw_inheritNRows kw with
  | None, None => false
  | _, _ => true
  end.

Definition drop_cols (self : nat) (cols : list string) (kw : Kw) : M nat :=
  if duplicate_keyword kw then raise TypeError
  else
    transform self (TOne (Callable (df_drop cols))) None
      (POne (DropPandas cols)) (with_inherit true true kw).

Definition filter_rows (self : nat) (condition : string) (kw : Kw) : M nat :=
  if duplicate_keyword kw then raise TypeError
  else
    transform self (TOne (Callable (df_filter condition))) None
      (PList []) (with_inherit true true kw).

Definition withColumn (self : nat) (colName colExpr : string) (kw : Kw)
    : M nat :=
  if duplicate_keyword kw then raise TypeError
  else
    transform self (TOne (Callable (df_withColumn colName colExpr))) None
      (PList []) (with_inherit true true kw).

(** [self[item]] for a list or tuple [item]. *)
Definition __getitem__ (self : nat) (item : list string) : M nat :=
  transform self (TOne (Callable (df_getitem item))) None
    (POne (GetItemPandas item)) (with_inherit true true no_kw).

(** *** Subsets: [_subset], [_pieceADF], [filterByPartitionKeys] *)

(** [adf._cache.colWidth.update(self._cache.colWidth)] *)
Definition colWidth_update (adf self : nat) : M unit :=
  let* h := deref self in
  update adf (with_cache (fun c =>
    with_colWidth (c_colWidth (_cache h) ∪ c_colWidth c) c)).

(** The address of a key of a bucket. *)
Definition s3_address (bucket key : string) : string :=
  path_join ("s3://" +:+ bucket) key.

Definition _subset (self : nat) (pieceSubPaths0 : list string) (kw : Kw)
    : M nat :=
  match pieceSubPaths0 with
  | [] => ret self
  | first :: _ =>
      let* h := deref self in
      assert (issuperset (pieceSubPaths (meta h)) pieceSubPaths0);;
      let nPieceSubPaths := Z.of_nat (length pieceSubPaths0) in
      if nPieceSubPaths =? nPieces (meta h) then ret self
      else
        let verbose' :=
          match kw_verbose kw with Some b => b | None => true end in
        let* subsetPath :=
          if 1 <? nPieceSubPaths then
            let* u := new_uuid in
            match s3Client (meta h) with
            | Some s3 =>
                let subsetDirS3Key := path_join (tmpDirS3Key s3) u in
                copy_all
                  (map (fun p =>
                          (s3_address (s3Bucket s3) (path_join (pathS3Key s3) p),
                           s3_address (s3Bucket s3) (path_join subsetDirS3Key p)))
                       pieceSubPaths0);;
                ret (s3_address (s3Bucket s3) subsetDirS3Key)
            | None =>
                let subsetPath := path_join (tmpDirPath (meta h)) u in
                copy_all
                  (map (fun p =>
                          (path_join (path h) p, path_join subsetPath p))
                       pieceSubPaths0);;
                ret subsetPath
            end
          else
            ret (if 1 <? nPieces (meta h) then path_join (path h) first
                 else path h) in
        let* adf :=
          __init__ subsetPath
            (init_args (_sparkDFTransforms h) (_pandasDFTransforms h)
                       verbose' (stdKwArgs_alias h kw)) in
        colWidth_update adf self;;
        ret adf
  end.

Definition with_piece (h : Handle) (df : SparkDF) (p : Handle) : Handle :=
  {| path := path p; meta := meta p;
     _srcSparkDF := _srcSparkDF p; _srcNRows := _srcNRows p;
     _initSparkDF := _initSparkDF p;
     _sparkDFTransforms := _sparkDFTransforms h;
     _pandasDFTransforms := _pandasDFTransforms p;
     _sparkDF := df; _alias := _alias p;
     _reprSampleMinNPieces := _reprSampleMinNPieces p;
     _cache := _cache p |}.

Definition with_local (h : Handle) (p : Handle) : Handle :=
  {| path := path p; meta := meta p;
     _srcSparkDF := _srcSparkDF p; _srcNRows := _srcNRows p;
     _initSparkDF := _initSparkDF p;
     _sparkDFTransforms := _sparkDFTransforms p;
     _pandasDFTransforms := _pandasDFTransforms h;
     _sparkDF := _sparkDF p; _alias := _alias p;
     _reprSampleMinNPieces := _reprSampleMinNPieces p;
     _cache := with_type (c_type (_cache h)) (_cache p) |}.

(** The replay on a cached piece handle: the piece's frame is reassigned
    after every transform, and every transform is called as a function. *)
Fixpoint replay_piece (piece : nat) (h : Handle) (label : nat -> string)
    (ts : list SparkDFTransform) (i : nat) : M unit :=
  match ts with
  | [] => ret tt
  | t :: rest =>
      let* p := deref piece in
      match (if is_Transformer t then Raise TypeError
             else apply_transform t (_sparkDF p)) with
      | Ok df =>
          update piece (with_piece h df);;
          replay_piece piece h label rest (S i)
      | Raise e => print (label i);; raise e
      end
  end.

Definition _pieceADF (self : nat) (pieceSubPath : string) : M nat :=
  let* h := deref self in
  let* d := gets (fun w => dicts w !! c_pieceADFs (_cache h)) in
  match d ≫= (fun d => d !! pieceSubPath) with
  | None =>
      let* pieceADF :=
        if _partitionedByDateOnly (meta h) then
          let piecePath := path_join (path h) pieceSubPath in
          let* adf :=
            try_except
              (__init__ piecePath
                 (init_args (_sparkDFTransforms h) (_pandasDFTransforms h)
                            false None))
              (fun err => print ("*** " +:+ pieceSubPath +:+ " ***");;
                          raise err) in
          colWidth_update adf self;;
          ret adf
        else
          _subset self [pieceSubPath]
            {| kw_alias := None; kw_inheritCache := None;
               kw_inheritNRows := None; kw_verbose := Some false |} in
      modify (with_dicts (fun ds =>
        match ds !! c_pieceADFs (_cache h) with
        | Some d => <[c_pieceADFs (_cache h) := <[pieceSubPath := pieceADF]> d]> ds
        | None => ds
        end));;
      ret pieceADF
  | Some pieceADF =>
      let* p := deref pieceADF in
      update pieceADF (with_piece h (_initSparkDF p));;
      replay_piece pieceADF h
        (fun i => "*** " +:+ pieceSubPath +:+ " TRANSFORM #"
                  +:+ pretty i +:+ ": ***")
        (_sparkDFTransforms h) O;;
      update pieceADF (with_local h);;
      ret pieceADF
  end.

(** A filter criterion, by the length of its tuple: [(col, inVals)],
    [(col, fromVal, toVal)], or a tuple of another length.  Values are the
    strings that [str(...)] gives. *)
Inductive Criterion :=
| InSet (col : string) (inVals : list string)
| Range (col : string) (fromVal toVal : option string)
| OtherLength (col : string).

Definition criterion_col (c : Criterion) : string :=
  match c with
  | InSet col _ | Range col _ _ | OtherLength col => col
  end.

(** The value of the dictionary [filterCriteria]: [(fromVal, toVal, inSet)] *)
Definition Bounds : Type := option string * option string * option (list string).

(** [d[k] = v] on a dictionary kept in insertion order. *)
Fixpoint dict_set {V} (k : string) (v : V) (d : list (string * V))
    : list (string * V) :=
  match d with
  | [] => [(k, v)]
  | (k', v') :: r =>
      if String.eqb k k' then (k, v) :: r else (k', v') :: dict_set k v r
  end.

(** Does the criterion name a [key=] of the sampled sub-path? *)
Definition applies (samplePieceSubPath : string) (c : Criterion) : bool :=
  contains (criterion_col c +:+ "=") samplePieceSubPath.

(** The first loop of [filterByPartitionKeys]. *)
Fixpoint build_filterCriteria (samplePieceSubPath : string)
    (tuples : list Criterion) (filterCriteria : list (string * Bounds))
    : res (list (string * Bounds)) :=
  match tuples with
  | [] => Ok filterCriteria
  | c :: rest =>
      if applies samplePieceSubPath c then
        match c with
        | InSet col inVals =>
            build_filterCriteria samplePieceSubPath rest
              (dict_set col (None, None, Some inVals) filterCriteria)
        | Range col fromVal toVal =>
            build_filterCriteria samplePieceSubPath rest
              (dict_set col (fromVal, toVal, None) filterCriteria)
        | OtherLength _ => Raise ValueError
        end
      else build_filterCriteria samplePieceSubPath rest filterCriteria
  end.

(** Is the value [v] outside the bounds? *)
Definition violates (b : Bounds) (v : string) : bool :=
  let '(fromVal, toVal, inSet) := b in
  match fromVal with Some f => String.ltb v f | None => false end
  || match toVal with Some t => String.ltb t v | None => false end
  || match inSet with Some s => negb (bool_decide (v ∈ s)) | None => false end.

(** [re.search('{}=(.*?)/'.format(col), pieceSubPath)]: the column name is
    put into the pattern as it is. *)
Definition search_key (col pieceSubPath : string) : res (option string) :=
  if regex_plain col then Ok (re_search_group (col +:+ "=") pieceSubPath)
  else re_search_operators col pieceSubPath.

(** The inner loop: [chk] for one sub-path.  [.group(1)] of a failed search
    raises [AttributeError]. *)
Fixpoint piece_chk (filterCriteria : list (string * Bounds))
    (pieceSubPath : string) : res bool :=
  match filterCriteria with
  | [] => Ok true
  | (col, b) :: rest =>
      match search_key col pieceSubPath with
      | Raise e => Raise e
      | Ok None => Raise AttributeError
      | Ok (Some v) =>
          if violates b v then Ok false else piece_chk rest pieceSubPath
      end
  end.

(** The outer loop: the set of the sub-paths that pass. *)
Fixpoint matching_pieces (filterCriteria : list (string * Bounds))
    (todo : list string) (found : list string) : res (list string) :=
  match todo with
  | [] => Ok found
  | p :: rest =>
      match piece_chk filterCriteria p with
      | Raise e => Raise e
      | Ok chk =>
          matching_pieces filterCriteria rest
            (if chk then set_add p found else found)
      end
  end.

Definition filterByPartitionKeys (self : nat)
    (filterCriteriaTuples : list Criterion) (kw : Kw) : M nat :=
  let* h := deref self in
  match pieceSubPaths (meta h) with
  | [] => raise StopIteration
  | _samplePieceSubPath :: _ =>
      let* filterCriteria :=
        lift (build_filterCriteria _samplePieceSubPath filterCriteriaTuples []) in
      match filterCriteria with
      | [] => ret self
      | _ =>
          let* found :=
            lift (matching_pieces filterCriteria (pieceSubPaths (meta h)) []) in
          assert (match found with [] => false | _ => true end);;
          _subset self found kw
      end
  end.

(** *** Sampling *)

(** Modelled from the spec: the property [nRows] of [DDF] is not under src/.
    The row count is computed lazily: the cached value when there is one,
    else the count of the frame, which is then cached. *)
Definition get_nRows (self : nat) : M Z :=
  let* h := deref self in
  match c_nRows (_cache h) with
  | Some n => ret n
  | None =>
      update self (with_cache (with_nRows (Some (df_count (_sparkDF h)))));;
      ret (df_count (_sparkDF h))
  end.

(** [_DEFAULT_REPR_SAMPLE_SIZE] *)
Definition _DEFAULT_REPR_SAMPLE_SIZE : Z := 10 ^ 6.

(** The number of pieces to sample. A row count of zero makes the division
    fail; a negative [n] makes the power complex, which [math.ceil] refuses.
    [maxNPieces] caps the number when it is true, that is given and not 0. *)
Definition sampleNPieces (nRows nPieces n minNPieces : Z)
    (maxNPieces : option Z) : res Z :=
  if nRows =? 0 then Raise ZeroDivisionError
  else if Z.min n nRows <? 0 then Raise TypeError
  else
    let k :=
      Z.max (float_ceil_sqrt_scaled (Z.min n nRows) nRows nPieces) minNPieces in
    Ok (match maxNPieces with
        | Some maxN => if maxN =? 0 then k else Z.min k maxN
        | None => k
        end).

(** The pieces that [sample] goes through. *)
Definition samplePieceSubPaths (h : Handle) (k : Z) : M (list string) :=
  if k <? nPieces (meta h) then random_sample (pieceSubPaths (meta h)) k
  else ret (pieceSubPaths (meta h)).

(** [max(n / sampleNPieces, 1)] *)
Definition per_piece_n (n k : Z) : res Q :=
  if k =? 0 then Raise ZeroDivisionError
  else
    let q := (inject_Z n / inject_Z k)%Q in
    Ok (if Qle_bool 1 q then q else 1%Q).

(** The body of the [try] in the loop of [sample]. *)
Definition read_piece (self : nat) (n k : Z) (p : string)
    : M (SparkDF * gmap string Z) :=
  let* piece := _pieceADF self p in
  let* nPer := lift (per_piece_n n k) in
  let* ph := deref piece in
  lift (DDF_sample (_sparkDF ph) nPer).

Definition cannot_be_loaded (p : string) : string :=
  "*** " +:+ p +:+ " CANNOT BE LOADED ***".

(** The loop of [sample]: a piece that raises is reported and passed over. *)
Fixpoint sample_loop (self : nat) (n k : Z) (paths : list string)
    (adfs : list (SparkDF * gmap string Z))
    : M (list (SparkDF * gmap string Z)) :=
  match paths with
  | [] => ret adfs
  | p :: rest =>
      let* r :=
        try_except
          (let* s := read_piece self n k p in ret (Some s))
          (fun err => print (cannot_be_loaded p);; ret None) in
      sample_loop self n k rest
        (match r with Some s => adfs ++ [s] | None => adfs end)
  end.

(** What [sample] does with the sub-samples once the loop is over. *)
Definition union_samples (adfs : list (SparkDF * gmap string Z))
    : M (SparkDF * gmap string Z) :=
  let* adf := lift (DDF_unionAllCols adfs) in
  match adfs with
  | [] => raise IndexError
  | first :: _ => ret (fst adf, snd first ∪ snd adf)
  end.

(** [sample] up to the choice of the pieces: the effective [n], the number
    of pieces and the pieces. *)
Definition sample_plan (self : nat) (n minNPieces maxNPieces : option Z)
    : M (Z * Z * list string) :=
  let* h := deref self in
  let n := match n with Some n => n | None => _DEFAULT_REPR_SAMPLE_SIZE end in
  let minNPieces :=
    match minNPieces with
    | Some m => m
    | None => _reprSampleMinNPieces h
    end in
  let* nRows := get_nRows self in
  let* k := lift (sampleNPieces nRows (nPieces (meta h)) n minNPieces maxNPieces) in
  let* paths := samplePieceSubPaths h k in
  ret (n, k, paths).

Definition sample (self : nat) (n minNPieces maxNPieces : option Z) (kw : Kw)
    : M (SparkDF * gmap string Z) :=
  let* '(n, k, paths) := sample_plan self n minNPieces maxNPieces in
  let* adfs := sample_loop self n k paths [] in
  union_samples adfs.

(** *** [split] *)

(** What [split] returns: the handle itself, or a list of handles. *)
Inductive SplitResult :=
| Itself (self : nat)
| Parts (adfs : list nat).

Fixpoint map_M {A B} (f : A -> M B) (l : list A) : M (list B) :=
  match l with
  | [] => ret []
  | x :: rest =>
      let* y := f x in
      let* ys := map_M f rest in
      ret (y :: ys)
  end.

(** [weights == (1,)] *)
Definition is_one (weights : list Q) : bool :=
  match weights with
  | [w] => Qeq_bool w 1
  | _ => false
  end.

(** [cumuIndices] *)
Definition cumuIndices (weights : list Q) (nPieces : Z) : list Z :=
  0 :: map (fun i => float_cumu_index weights i nPieces)
           (seq 0 (length weights)).

Definition split (self : nat) (weights : list Q) : M SplitResult :=
  match weights with
  | [] => ret (Itself self)
  | _ =>
      if is_one weights then ret (Itself self)
      else
        let* h := deref self in
        let idx := cumuIndices weights (nPieces (meta h)) in
        let* shuffled := shuffle (pieceSubPaths (meta h)) in
        let* adfs :=
          map_M (fun i =>
                   _subset self
                     (slice (nth i idx 0) (nth (S i) idx 0) shuffled) no_kw)
                (seq 0 (length weights)) in
        ret (Parts adfs)
  end.

End Methods.

(** ** Part I.e  Exact arithmetic and a reference set of collaborators

    The formulas of [sample] and [split] in exact arithmetic, and a small
    closed world (a file system of a few parquet files and an engine whose
    frames are a schema with a row count) on which the model runs. *)

(** Ceiling of a quotient, for a positive divisor. *)
Definition cdiv (a b : Z) : Z := - ((- a) / b).

(** [ceil(sqrt(x / nRows) * nPieces)] in exact arithmetic: the least [k >= 0]
    with [x * nPieces^2 <= k^2 * nRows]. *)
Definition exact_ceil_sqrt_scaled (x nRows nPieces : Z) : Z :=
  Z.sqrt_up (cdiv (x * nPieces * nPieces) nRows).

(** Rounding to the nearest integer, ties to even. *)
Definition round_half_even (q : Q) : Z :=
  let d := Z.pos (Qden q) in
  let f := Qnum q / d in
  let r := Qnum q mod d in
  match 2 * r ?= d with
  | Lt => f
  | Gt => f + 1
  | Eq => if Z.even f then f else f + 1
  end.

Definition Qsum (l : list Q) : Q := fold_left Qplus l 0%Q.

Definition exact_cumu_index (weights : list Q) (i : nat) (nPieces : Z) : Z :=
  round_half_even
    ((Qsum (take (S i) weights) / Qsum weights) * inject_Z nPieces)%Q.

Module Reference.

(** Frames: the column types and the number of rows. *)
Definition Frame : Type := list (string * string) * Z.

(** The files of the store, before any copy. *)
Definition files : list string :=
  [ "data/date=2017/a.parquet"; "data/date=2018/b.parquet";
    "data/date=2019/c.parquet"; "data/date=2020/d.parquet";
    "solo/date=2019/e.parquet";
    "bad/date=2019/corrupt.parquet";
    "mixed/date=2019/f.parquet"; "mixed/date=2020/corrupt.parquet" ].

(** The pieces under a path: the files below it, or the path itself when it
    is a file. *)
Definition pieces (made : list (string * string)) (path : string)
    : res (list string) :=
  let all := files ++ map snd made in
  Ok (List.filter
        (fun f => String.eqb f path || startswith f (path +:+ "/")) all).

(** Loading fails on a corrupt file. *)
Definition read_load (made : list (string * string)) (path : string)
    : res Frame :=
  if contains "corrupt" path then Raise (ExternalError "cannot read")
  else Ok ([("id", "bigint"); ("x", "double")], 100).

Definition union (adfs : list (Frame * gmap string Z))
    : res (Frame * gmap string Z) :=
  Ok (match adfs with
      | [] => ([], 0)
      | first :: _ =>
          (fst (fst first),
           fold_right Z.add 0 (map (fun a => snd (fst a)) adfs))
      end, ∅).

#[global] Instance ext : External := {|
  SparkDF := Frame;
  df_count := snd;
  df_dtypes := fst;
  df_castToString := fun col df =>
    (map (fun ct => if String.eqb (fst ct) col then (col, "string") else ct)
         (fst df), snd df);
  df_selectExpr := fun exprs df => Ok df;
  df_select := fun exprs df => Ok df;
  df_getitem := fun item df =>
    Ok (List.filter (fun ct => bool_decide (fst ct ∈ item)) (fst df), snd df);
  df_drop := fun cols df =>
    Ok (List.filter (fun ct => negb (bool_decide (fst ct ∈ cols))) (fst df), snd df);
  df_filter := fun condition df => Ok df;
  df_withColumn := fun colName colExpr df =>
    Ok (fst df ++ [(colName, "double")], snd df);
  spark_sql := fun query tempAlias df => Ok df;
  SQLTransformer := fun statement df => Ok df;
  re_search_operators := fun col s =>
    Raise (ExternalError "no regular expressions in the reference world");
  ParquetDataset_pieces := pieces;
  spark_read_load := read_load;
  s3a_path_with_auth := fun p => p;
  DDF_sample := fun df n => Ok (df, ∅);
  DDF_unionAllCols := union;
  Details := unit;
  DDF_fillna := fun df cols => Ok (df, tt, fun d => Ok d);
  DDF_prep := fun df cols => Ok (df, tt, tt, fun d => Ok d);
  prep_typeStrs := fun df d => [];
  PandasDF := unit;
  uuid4 := fun k => "uuid-" +:+ str_of_list (repeat "i"%char k);
  random_shuffle := fun k l => l;
  DATE_COL := "date";
  BINARY_TYPE := "binary";
  TMP_DIR_PATH := "/tmp/.arimo/df";
  REPR_SAMPLE_MIN_N_PIECES := 100;
  float_ceil_sqrt_scaled := exact_ceil_sqrt_scaled;
  float_cumu_index := exact_cumu_index
|}.

(** The world before anything is loaded. *)
Definition world0 : World :=
  {| heap := ∅; dicts := ∅; _CACHE := ∅; copies := []; stdout := [];
     n_uuid := O; n_random := O |}.

(** The world after [load] of one data set, and the handle it holds: [data]
    has four pieces, [solo] one, the one piece of [bad] cannot be read, and
    of the two pieces of [mixed] the second cannot be read. *)
Definition frame0 : Frame := ([("id", "bigint"); ("x", "double")], 100).

Definition meta_of (n : Z) (paths subPaths : list string) : Meta :=
  {| nPieces := n; piecePaths := paths; pieceSubPaths := subPaths;
     _partitionedByDateOnly := true; m_path := None; s3Client := None;
     tmpDirPath := "/tmp/.arimo/df" |}.

Definition handle_of (path : string) (m : Meta) : Handle :=
  {| path := path; meta := m; _srcSparkDF := frame0; _srcNRows := 100;
     _initSparkDF := frame0; _sparkDFTransforms := [];
     _pandasDFTransforms := []; _sparkDF := frame0; _alias := None;
     _reprSampleMinNPieces := nPieces m;
     _cache := {| c_nRows := Some 100; c_type := fst frame0;
                  c_colWidth := ∅; c_reprSample := None;
                  c_pieceADFs := 0%nat |} |}.

Definition world_of (h : Handle) : World :=
  {| heap := {[ 0%nat := h ]};
     dicts := {[ 0%nat := ∅ ]};
     _CACHE := {[ path h := NsLoaded (meta h) frame0 100 ]};
     copies := []; stdout := []; n_uuid := O; n_random := O |}.

Definition data_handle : Handle :=
  handle_of "data"
    (meta_of 4
       ["data/date=2017/a.parquet"; "data/date=2018/b.parquet";
        "data/date=2019/c.parquet"; "data/date=2020/d.parquet"]
       ["date=2017/a.parquet"; "date=2018/b.parquet";
        "date=2019/c.parquet"; "date=2020/d.parquet"]).

Definition solo_handle : Handle :=
  handle_of "solo"
    (meta_of 1 ["solo/date=2019/e.parquet"] ["date=2019/e.parquet"]).

Definition bad_handle : Handle :=
  handle_of "bad"
    (meta_of 1 ["bad/date=2019/corrupt.parquet"] ["date=2019/corrupt.parquet"]).

Definition mixed_handle : Handle :=
  handle_of "mixed"
    (meta_of 2
       ["mixed/date=2019/f.parquet"; "mixed/date=2020/corrupt.parquet"]
       ["date=2019/f.parquet"; "date=2020/corrupt.parquet"]).

(** A data set of one piece that is partitioned by [device_id]. *)
Definition device_handle : Handle :=
  handle_of "device"
    {| nPieces := 1; piecePaths := ["device/device_id=5/a.parquet"];
       pieceSubPaths := ["device_id=5/a.parquet"];
       _partitionedByDateOnly := false; m_path := None; s3Client := None;
       tmpDirPath := "/tmp/.arimo/df" |}.

End Reference.

(** ** Part I.f  The vocabulary of the properties *)

Module Import Vocabulary.

Section Vocabulary.

Context `{Ext : External}.

(** The number of pieces is the size of the sub-path
    set. *)
Definition counted (h : Handle) : Prop :=
  nPieces (meta h) = Z.of_nat (length (pieceSubPaths (meta h))).

(** The row count of a handle: the cached one, or that of its frame. *)
Definition nRows_of (h : Handle) : Z :=
  match c_nRows (_cache h) with
  | Some n => n
  | None => df_count (_sparkDF h)
  end.


(** A shuffle rearranges. *)
Definition random_laws : Prop :=
  forall k l, random_shuffle k l ≡ₚ l.








(** The entry of [filterCriteria] that a well-formed criterion contributes. *)
Definition entry_of (c : Criterion) : option (string * Bounds) :=
  match c with
  | InSet col inVals => Some (col, (None, None, Some inVals))
  | Range col fromVal toVal => Some (col, (fromVal, toVal, None))
  | OtherLength _ => None
  end.

(** The sub-samples of the pieces of [paths] that can be read, and the
    pieces whose read raises, the pieces being read in this order from [w]. *)
Fixpoint sub_samples (self : nat) (n k : Z) (paths : list string) (w : World)
    : list (SparkDF * gmap string Z) :=
  match paths with
  | [] => []
  | p :: rest =>
      match read_piece self n k p w with
      | (Ok s, w1) => s :: sub_samples self n k rest w1
      | (Raise _, w1) =>
          sub_samples self n k rest (snd (print (cannot_be_loaded p) w1))
      end
  end.

Fixpoint failed_pieces (self : nat) (n k : Z) (paths : list string) (w : World)
    : list string :=
  match paths with
  | [] => []
  | p :: rest =>
      match read_piece self n k p w with
      | (Ok _, w1) => failed_pieces self n k rest w1
      | (Raise _, w1) =>
          p :: failed_pieces self n k rest (snd (print (cannot_be_loaded p) w1))
      end
  end.

(** A method only adds lines to standard output. *)
Definition grows {A} (m : M A) : Prop :=
  forall w, stdout w `prefix_of` stdout (snd (m w)).

(** The transform operations. *)
Inductive TransformOp :=
| OpTransform (t : TransformArg) (_sparkDF0 : option SparkDF) (p : PandasArg)
| OpSelect (exprs : list Expr)
| OpSql (query tempAlias : string)
| OpFilter (condition : string)
| OpWithColumn (colName colExpr : string)
| OpFillna (cols : list string)
| OpPrep (cols : list string)
| OpDrop (cols : list string)
| OpGetItem (item : list string).

Definition run_op (self : nat) (op : TransformOp) (kw : Kw) : M nat :=
  match op with
  | OpTransform t df p => transform self t df p kw
  | OpSelect exprs => select self exprs kw
  | OpSql query tempAlias => sql self query tempAlias kw
  | OpFilter condition => filter_rows self condition kw
  | OpWithColumn colName colExpr => withColumn self colName colExpr kw
  | OpFillna cols => let* r := fillna self cols kw in ret (fst r)
  | OpPrep cols => let* r := prep self cols kw in ret (fst (fst r))
  | OpDrop cols => drop_cols self cols kw
  | OpGetItem item => __getitem__ self item
  end.

Definition sql_statement (query tempAlias : string) : string :=
  replace (tempAlias +:+ ".") "__THIS__."
    (replace (tempAlias +:+ " ") "__THIS__ "
       (replace (" " +:+ tempAlias) " __THIS__" query)).

(** The engine-native operations and the local counterparts that an
    operation on [h] stands for; [None] when the superclass could not
    prepare the operation. *)
Definition appended (h : Handle) (op : TransformOp)
    : option (list SparkDFTransform * list PandasDFTransform) :=
  let local p := match p with PList l => l | POne t => [t] end in
  match op with
  | OpTransform (TList l) _ p => Some (l, local p)
  | OpTransform (TOne t) _ p => Some ([t], local p)
  | OpSelect exprs =>
      let exprs := match exprs with [] => [EStr "*"] | _ => exprs end in
      Some ([Callable (if forallb is_EStr exprs
                       then df_selectExpr (map expr_text exprs)
                       else df_select exprs)], [])
  | OpSql query tempAlias =>
      Some ([Transformer (SQLTransformer (sql_statement query tempAlias))], [])
  | OpFilter condition => Some ([Callable (df_filter condition)], [])
  | OpWithColumn colName colExpr =>
      Some ([Callable (df_withColumn colName colExpr)], [])
  | OpFillna cols =>
      match DDF_fillna (_sparkDF h) cols with
      | Ok (_, details, t) => Some ([Transformer t], [FillnaPandas details])
      | Raise _ => None
      end
  | OpPrep cols =>
      match DDF_prep (_sparkDF h) cols with
      | Ok (_, cat, num, t) =>
          Some ([Transformer t],
                [PrepPandas (prep_typeStrs (_initSparkDF h) cat) cat num])
      | Raise _ => None
      end
  | OpDrop cols => Some ([Callable (df_drop cols)], [DropPandas cols])
  | OpGetItem item => Some ([Callable (df_getitem item)], [GetItemPandas item])
  end.

(** The registry holds a loaded entry under the path of the handle, as it
    does once the handle has been constructed from a path under which the
    file reader lists pieces. *)
Definition registry_ready (w : World) (h : Handle) : Prop :=
  exists m src n, _CACHE w !! path h = Some (NsLoaded m src n).

(** The operations that [transform] is given, and their local counterparts. *)
Definition additional (t : TransformArg) : list SparkDFTransform :=
  match t with TList l => l | TOne t => [t] end.

Definition additional_local (p : PandasArg) : list PandasDFTransform :=
  match p with PList l => l | POne t => [t] end.

(** Whether [transform] hands the row count over to the new handle. *)
Definition hands_over_nRows (t : TransformArg) (kw : Kw) : bool :=
  match kw_inheritNRows kw with
  | Some b => b
  | None =>
      match t with
      | TList l =>
          match kw_inheritCache kw with Some b => b | None => false end
          || forallb is_Transformer l
      | TOne (Transformer _) => true
      | TOne (Callable _) =>
          match kw_inheritCache kw with Some b => b | None => false end
      end
  end.

(** What a new handle [hn] derived from [h] carries: the chains of [h] with
    [ts] and [ps] appended, and the frame [sparkDF] with its types. *)
Definition derived (h hn : Handle) (ts : list SparkDFTransform)
    (ps : list PandasDFTransform) (sparkDF : SparkDF) : Prop :=
  _sparkDFTransforms hn = _sparkDFTransforms h ++ ts
  /\ _pandasDFTransforms hn = _pandasDFTransforms h ++ ps
  /\ _initSparkDF hn = _initSparkDF h
  /\ _sparkDF hn = sparkDF
  /\ c_type (_cache hn) = df_dtypes sparkDF.

(** A chain applied to a frame, without the reporting. *)
Fixpoint apply_all (ts : list SparkDFTransform) (df : SparkDF) : res SparkDF :=
  match ts with
  | [] => Ok df
  | t :: rest =>
      match apply_transform t df with
      | Ok df' => apply_all rest df'
      | Raise e => Raise e
      end
  end.




End Vocabulary.

End Vocabulary.

(** ** Part I.g  The column groups of [AbstractDataHandler] *)

Module ColumnGroups.

Section Groups.

(** The constants come from [arimo.util.date_time]; the columns, the index
    columns, the relative time columns, [hasTS], [typeIsNum] and the two
    groups of content columns are abstract in this class. *)
Variables _T_ORD_COL _T_DELTA_COL : string.
Variables _T_COMPONENT_AUX_COLS _T_CAT_AUX_COLS _T_NUM_AUX_COLS : list string.
Variables columns indexCols tRelAuxCols : list string.
Variable hasTS : bool.
Variable typeIsNum : string -> bool.
Variables possibleFeatureContentCols possibleCatContentCols : list string.

Definition _T_REL_AUX_COLS : list string := [_T_ORD_COL; _T_DELTA_COL].

Definition _T_AUX_COLS : list string := _T_REL_AUX_COLS ++ _T_COMPONENT_AUX_COLS.

(** [x in t] for a tuple [t] *)
Definition member (x : string) (t : list string) : bool := bool_decide (x ∈ t).

Definition tComponentAuxCols : list string :=
  List.filter (fun tComponentAuxCol => member tComponentAuxCol columns)
    _T_COMPONENT_AUX_COLS.

Definition tAuxCols : list string := tRelAuxCols ++ tComponentAuxCols.

Definition possibleFeatureTAuxCols : list string :=
  (if hasTS then [_T_DELTA_COL] else []) ++ tComponentAuxCols.

Definition possibleCatTAuxCols : list string :=
  List.filter (fun tComponentAuxCol => member tComponentAuxCol _T_CAT_AUX_COLS)
    tComponentAuxCols.

Definition possibleNumTAuxCols : list string :=
  (if hasTS then [_T_DELTA_COL] else [])
  ++ List.filter (fun tComponentAuxCol => member tComponentAuxCol _T_NUM_AUX_COLS)
       tComponentAuxCols.

Definition contentCols : list string :=
  List.filter (fun col => negb (member col (indexCols ++ _T_AUX_COLS))) columns.

Definition possibleNumContentCols : list string :=
  List.filter typeIsNum contentCols.

Definition possibleFeatureCols : list string :=
  possibleFeatureTAuxCols ++ possibleFeatureContentCols.

Definition possibleCatCols : list string :=
  possibleCatTAuxCols ++ possibleCatContentCols.

Definition possibleNumCols : list string :=
  possibleNumTAuxCols ++ possibleNumContentCols.

End Groups.

End ColumnGroups.

(** ** Part I.h  More vocabulary: the memo, construction, chains and
    subsets *)

Module MemoVocabulary.

Import AbstractDataHandler.

(** The calls of [nonNullProportion] for [col] that [suffNonNull] has made. *)
Definition calls_for (col : string) (h : Handler) : list string :=
  List.filter (String.eqb col) (computed h).

(** The memo holds the answer [b] for [col], recorded against a threshold
    equal to the one the column has now. *)
Definition settled (col : string) (b : bool) (h : Handler) : Prop :=
  c_suffNonNull (_cache h) !! col = Some b
  /\ exists t,
       c_suffNonNullProportionThreshold (_cache h) !! col = Some t
       /\ Qeq_bool t (getitem (_minNonNullProportion h) col) = true.

End MemoVocabulary.

Module Import Construction.

Section Construction.

Context `{Ext : External}.

Definition with_reCache (b : bool) (a : InitArgs) : InitArgs :=
  {| reCache := b; a_initSparkDF := a_initSparkDF a;
     a_sparkDFTransforms := a_sparkDFTransforms a; a_sparkDF := a_sparkDF a;
     a_pandasDFTransforms := a_pandasDFTransforms a;
     reprSampleMinNPieces := reprSampleMinNPieces a;
     verbose := verbose a; alias := alias a; nRows_kw := nRows_kw a |}.

(** The path that the engine is given for [path]. *)
Definition spark_path (path : string) : string :=
  if startswith path "s3" then s3a_path_with_auth path else path.

(** The handle that the constructor builds from the registry entry
    [(m, src, srcN)] of [path0], the initial frame [frame0] with the row
    count [nRows0], the current frame [sparkDF] and the new dictionary [d]. *)
Definition constructed (path0 : string) (a : InitArgs) (m : Meta)
    (src : SparkDF) (srcN : Z) (frame0 : SparkDF) (nRows0 : option Z)
    (sparkDF : SparkDF) (d : nat) : Handle :=
  {| path := match m_path m with Some p => p | None => path0 end;
     meta := m;
     _srcSparkDF := src;
     _srcNRows := srcN;
     _initSparkDF := frame0;
     _sparkDFTransforms := a_sparkDFTransforms a;
     _pandasDFTransforms := a_pandasDFTransforms a;
     _sparkDF := sparkDF;
     _alias := if truthy_str (alias a) then alias a else None;
     _reprSampleMinNPieces := Z.min (reprSampleMinNPieces a) (nPieces m);
     _cache :=
       if match a_sparkDF a with
          | Some _ => true
          | None => match a_sparkDFTransforms a with [] => false | _ => true end
          end
       then with_type (df_dtypes sparkDF) (DDF_init frame0 nRows0 d)
       else DDF_init frame0 nRows0 d |}.

End Construction.

End Construction.

(** Does the path end with a slash? *)
Definition ends_with_slash (a : string) : bool :=
  String.prefix "/" (str_of_list (rev (list_of_str a))).

(** The reference collaborators with a file reader that refuses a path under
    which there is no file. *)
Module Strict.

Definition pieces (made : list (string * string)) (path : string)
    : res (list string) :=
  match Reference.pieces made path with
  | Ok [] => Raise (ExternalError "no such path")
  | listed => listed
  end.

Definition ext : External := {|
  SparkDF := Reference.Frame;
  df_count := @df_count Reference.ext;
  df_dtypes := @df_dtypes Reference.ext;
  df_castToString := @df_castToString Reference.ext;
  df_selectExpr := @df_selectExpr Reference.ext;
  df_select := @df_select Reference.ext;
  df_getitem := @df_getitem Reference.ext;
  df_drop := @df_drop Reference.ext;
  df_filter := @df_filter Reference.ext;
  df_withColumn := @df_withColumn Reference.ext;
  spark_sql := @spark_sql Reference.ext;
  SQLTransformer := @SQLTransformer Reference.ext;
  re_search_operators := @re_search_operators Reference.ext;
  ParquetDataset_pieces := pieces;
  spark_read_load := @spark_read_load Reference.ext;
  s3a_path_with_auth := @s3a_path_with_auth Reference.ext;
  DDF_sample := @DDF_sample Reference.ext;
  DDF_unionAllCols := @DDF_unionAllCols Reference.ext;
  Details := unit;
  DDF_fillna := @DDF_fillna Reference.ext;
  DDF_prep := @DDF_prep Reference.ext;
  prep_typeStrs := @prep_typeStrs Reference.ext;
  PandasDF := unit;
  uuid4 := @uuid4 Reference.ext;
  random_shuffle := @random_shuffle Reference.ext;
  DATE_COL := "date";
  BINARY_TYPE := "binary";
  TMP_DIR_PATH := "/tmp/.arimo/df";
  REPR_SAMPLE_MIN_N_PIECES := 100;
  float_ceil_sqrt_scaled := exact_ceil_sqrt_scaled;
  float_cumu_index := exact_cumu_index
|}.

(** The world before anything is loaded. *)
Definition world0 : @World ext :=
  {| heap := ∅; dicts := ∅; _CACHE := ∅; copies := []; stdout := [];
     n_uuid := O; n_random := O |}.

End Strict.

Module Import Chains.

Section Chains.

Context `{Ext : External}.

(** Whether [transform] lets the new handle inherit the cache. *)
Definition inherits_cache (t : TransformArg) (kw : Kw) : bool :=
  match t with
  | TList l =>
      match kw_inheritCache kw with Some b => b | None => false end
      || forallb is_Transformer l
  | TOne (Transformer _) => true
  | TOne (Callable _) =>
      match kw_inheritCache kw with Some b => b | None => false end
  end.

(** The handle that [transform] builds on [h], from the registry entry
    [(m, src, srcN)] of the path of [h] and the new frame [sparkDF]. *)
Definition transformed (h : Handle) (t : TransformArg) (p : PandasArg)
    (kw : Kw) (m : Meta) (src : SparkDF) (srcN : Z) (sparkDF : SparkDF)
    : Handle :=
  {| path := match m_path m with Some p0 => p0 | None => path h end;
     meta := m;
     _srcSparkDF := src;
     _srcNRows := srcN;
     _initSparkDF := _initSparkDF h;
     _sparkDFTransforms := _sparkDFTransforms h ++ additional t;
     _pandasDFTransforms := _pandasDFTransforms h ++ additional_local p;
     _sparkDF := sparkDF;
     _alias := if truthy_str (stdKwArgs_alias h kw)
               then stdKwArgs_alias h kw else None;
     _reprSampleMinNPieces := Z.min REPR_SAMPLE_MIN_N_PIECES (nPieces m);
     _cache :=
       {| c_nRows := if hands_over_nRows t kw then c_nRows (_cache h) else None;
          c_type := df_dtypes sparkDF;
          c_colWidth := ∅;
          c_reprSample :=
            if inherits_cache t kw then c_reprSample (_cache h) else None;
          c_pieceADFs := c_pieceADFs (_cache h) |} |}.

(** The outcome of an operation on [h] in [w] that returned the object [r]
    in [w']: [r] is new and holds a handle with the initial frame and the
    piece dictionary of [h] and with [ts] appended to its chain; its frame
    is [df0] when the operation computed it beforehand and the result of
    applying [ts] to the frame of [h] otherwise.  No other object changed,
    no file was copied, and the one new dictionary is empty. *)
Definition extends (w : World) (h : Handle) (ts : list SparkDFTransform)
    (df0 : option SparkDF) (r : nat) (w' : World) : Prop :=
  r = fresh (dom (heap w))
  /\ dicts w' = <[fresh (dom (dicts w)) := ∅]> (dicts w)
  /\ copies w' = copies w
  /\ exists hn,
       heap w' = <[r := hn]> (heap w)
       /\ c_pieceADFs (_cache hn) = c_pieceADFs (_cache h)
       /\ _initSparkDF hn = _initSparkDF h
       /\ _sparkDFTransforms hn = _sparkDFTransforms h ++ ts
       /\ match df0 with
          | Some df => _sparkDF hn = df
          | None => apply_all ts (_sparkDF h) = Ok (_sparkDF hn)
          end.

(** The current frame of a handle is its chain applied to its initial
    frame. *)
Definition coherent (h : Handle) : Prop :=
  apply_all (_sparkDFTransforms h) (_initSparkDF h) = Ok (_sparkDF h).

(** The operations whose new frame is computed by calling the transforms
    that they append. *)
Definition replays (op : TransformOp) : bool :=
  match op with
  | OpTransform _ (Some _) _ | OpSql _ _ | OpFillna _ | OpPrep _ => false
  | _ => true
  end.

(** The operations that ask the superclass for a plan, which it computes
    against the representative sample. *)
Definition plans_from_sample (op : TransformOp) : bool :=
  match op with
  | OpFillna _ | OpPrep _ => true
  | _ => false
  end.

(** The calls that pass [inheritCache=True, inheritNRows=True] themselves. *)
Definition passes_inheritance (op : TransformOp) : bool :=
  match op with
  | OpFilter _ | OpWithColumn _ _ | OpDrop _ | OpGetItem _ => true
  | _ => false
  end.

(** No inheritance flag among the keyword arguments. *)
Definition plain (kw : Kw) : Prop :=
  kw_inheritCache kw = None /\ kw_inheritNRows kw = None.

End Chains.

End Chains.

Module Import Subsets.

Section Subsets.

Context `{Ext : External}.

(** The directory that [_subset] makes for several pieces, [u] being the new
    identifier, and the copies it makes into it. *)
Definition subset_dir (h : Handle) (u : string) : string :=
  match s3Client (meta h) with
  | Some s3 => s3_address (s3Bucket s3) (path_join (tmpDirS3Key s3) u)
  | None => path_join (tmpDirPath (meta h)) u
  end.

Definition subset_copies (h : Handle) (u : string) (ps : list string)
    : list (string * string) :=
  match s3Client (meta h) with
  | Some s3 =>
      map (fun p =>
             (s3_address (s3Bucket s3) (path_join (pathS3Key s3) p),
              s3_address (s3Bucket s3)
                (path_join (path_join (tmpDirS3Key s3) u) p)))
          ps
  | None =>
      map (fun p =>
             (path_join (path h) p,
              path_join (path_join (tmpDirPath (meta h)) u) p))
          ps
  end.

(** The path that [_subset] loads for the sub-paths [ps], which are not all
    the pieces of [h]. *)
Definition subset_path (h : Handle) (u : string) (ps : list string) : string :=
  match ps with
  | [p] => if 1 <? nPieces (meta h) then path_join (path h) p else path h
  | _ => subset_dir h u
  end.

(** The slices of the shuffled sub-paths that [split] hands to [_subset]. *)
Definition split_slices (idx : list Z) (shuffled : list string) (n : nat)
    : list (list string) :=
  map (fun i => slice (nth i idx 0) (nth (S i) idx 0) shuffled) (seq 0 n).

End Subsets.

End Subsets.

(** * Part II  Properties *)

(** ** The threshold of the profiling mixin and its memo *)

Module ProfilingFacts.

Import AbstractDataHandler.

Section Facts.

Variable nonNullProportion : string -> Q.
Variable contentCols : list string.

Abbreviation suffNonNull_col := (suffNonNull_col nonNullProportion).
Abbreviation suffNonNull := (suffNonNull nonNullProportion contentCols).
Abbreviation run := (run nonNullProportion contentCols).
Abbreviation step := (step nonNullProportion contentCols).
Abbreviation consistent := (consistent nonNullProportion).

Lemma Qle_bool_eq_l (a b x : Q) :
  Qeq_bool a b = true -> Qle_bool a x = Qle_bool b x.
Proof.
  intros E. apply Qeq_bool_iff in E.
  apply Qleb_comp; [exact E | reflexivity].
Qed.

Lemma fresh_consistent d : consistent (fresh d).
Proof. intros c b H. cbn in H. by rewrite lookup_empty in H. Qed.

Lemma setter_consistent v h :
  consistent h -> consistent (minNonNullProportion_setter v h).
Proof.
  intros C. unfold minNonNullProportion_setter.
  destruct (negb _); [|exact C].
  intros c b H. cbn in H. by rewrite lookup_empty in H.
Qed.

Lemma setter_items v h :
  d_items (_minNonNullProportion (minNonNullProportion_setter v h))
  = d_items (_minNonNullProportion h).
Proof. unfold minNonNullProportion_setter. by destruct (negb _). Qed.

(** One query: the answer is the comparison against the threshold that the
    column has now, and the memo stays consistent. *)
Lemma suffNonNull_col_spec col h :
  consistent h ->
  let r := suffNonNull_col col h in
  fst r = Qle_bool (getitem (_minNonNullProportion h) col) (nonNullProportion col)
  /\ consistent (snd r)
  /\ _minNonNullProportion (snd r) = _minNonNullProportion h
  /\ (c_suffNonNull (_cache h) !! col = None ->
      computed (snd r) = computed h ++ [col]).
Proof.
  intros C. unfold AbstractDataHandler.suffNonNull_col.
  set (g := getitem (_minNonNullProportion h) col).
  destruct (c_suffNonNullProportionThreshold (_cache h) !! col) as [t|] eqn:Et.
  - destruct (Qeq_bool t g) eqn:Eq; cbn [negb].
    + (* the recorded threshold is the current one *)
      destruct (c_suffNonNull (_cache h) !! col) as [b|] eqn:Es; cbn.
      * destruct (C _ _ Es) as (t' & Et' & ->).
        rewrite Et in Et'. injection Et' as <-.
        split; [by apply Qle_bool_eq_l|].
        split; [|split; [done|done]].
        intros c b H. cbn in H. by apply C.
      * rewrite lookup_total_alt, Et. cbn.
        split; [by apply Qle_bool_eq_l|].
        split; [|split; [done|done]].
        intros c b H. cbn in H |- *.
        destruct (decide (c = col)) as [->|Hne].
        -- rewrite lookup_insert_eq in H. injection H as <-.
           exists t. by rewrite Et.
        -- rewrite lookup_insert_ne in H by done. by apply C.
    + (* the recorded threshold is outdated *)
      assert (Hrec :
        forall c b,
          <[col := Qle_bool g (nonNullProportion col)]>
            (c_suffNonNull (_cache h)) !! c = Some b ->
          exists t0,
            <[col := g]> (c_suffNonNullProportionThreshold (_cache h)) !! c
            = Some t0
            /\ b = Qle_bool t0 (nonNullProportion c)).
      { intros c b H. destruct (decide (c = col)) as [->|Hne].
        - rewrite lookup_insert_eq in H. injection H as <-.
          exists g. by rewrite lookup_insert_eq.
        - rewrite lookup_insert_ne in H by done.
          rewrite lookup_insert_ne by done. by apply C. }
      destruct (c_suffNonNull (_cache h) !! col) as [b|] eqn:Es; cbn;
        rewrite lookup_total_insert_eq; repeat split; try done.
  - assert (Hrec :
        forall c b,
          <[col := Qle_bool g (nonNullProportion col)]>
            (c_suffNonNull (_cache h)) !! c = Some b ->
          exists t0,
            <[col := g]> (c_suffNonNullProportionThreshold (_cache h)) !! c
            = Some t0
            /\ b = Qle_bool t0 (nonNullProportion c)).
      { intros c b H. destruct (decide (c = col)) as [->|Hne].
        - rewrite lookup_insert_eq in H. injection H as <-.
          exists g. by rewrite lookup_insert_eq.
        - rewrite lookup_insert_ne in H by done.
          rewrite lookup_insert_ne by done. by apply C. }
    destruct (c_suffNonNull (_cache h) !! col) as [b|] eqn:Es; cbn.
    + destruct (C _ _ Es) as (t' & Et' & _). by rewrite Et in Et'.
    + rewrite lookup_total_insert_eq. repeat split; try done.
Qed.

Lemma suffNonNull_each_spec cols : forall acc h,
  consistent h ->
  consistent (snd (suffNonNull_each nonNullProportion cols acc h))
  /\ _minNonNullProportion (snd (suffNonNull_each nonNullProportion cols acc h))
     = _minNonNullProportion h.
Proof.
  induction cols as [|col rest IH]; intros acc h C; cbn; [done|].
  destruct (suffNonNull_col_spec col h C) as (_ & C' & Hd & _).
  destruct (suffNonNull_col col h) as [b h'] eqn:E. cbn in C', Hd.
  destruct (IH (<[col := b]> acc) h' C') as [IH1 IH2].
  split; [exact IH1|]. by rewrite IH2.
Qed.

Lemma step_spec o h :
  consistent h ->
  consistent (step o h)
  /\ d_items (_minNonNullProportion (step o h))
     = d_items (_minNonNullProportion h).
Proof.
  intros C. destruct o as [v|cols]; cbn.
  - split; [by apply setter_consistent | apply setter_items].
  - unfold AbstractDataHandler.suffNonNull.
    destruct (match cols with [] => contentCols | _ => cols end)
      as [|c1 [|c2 rest]] eqn:E.
    + done.
    + destruct (suffNonNull_col_spec c1 h C) as (_ & C' & Hd & _).
      destruct (suffNonNull_col c1 h) as [b h']. cbn in *.
      split; [done | by rewrite Hd].
    + destruct (suffNonNull_each_spec (c1 :: c2 :: rest) ∅ h C) as [C' Hd].
      destruct (suffNonNull_each nonNullProportion (c1 :: c2 :: rest) ∅ h)
        as [m h']. cbn in *.
      split; [done | by rewrite Hd].
Qed.

Lemma run_spec ops : forall h,
  consistent h ->
  consistent (run ops h)
  /\ d_items (_minNonNullProportion (run ops h))
     = d_items (_minNonNullProportion h).
Proof.
  induction ops as [|o ops IH]; intros h C; [done|].
  change (run (o :: ops) h) with (run ops (step o h)).
  destruct (step_spec o h C) as [C' Hd].
  destruct (IH _ C') as [IH1 IH2].
  split; [exact IH1 | by rewrite IH2].
Qed.

(** A query for one column, in a consistent state, on a column without an
    entry of its own. *)
Lemma query_answer col h :
  consistent h ->
  d_items (_minNonNullProportion h) !! col = None ->
  fst (suffNonNull [col] h)
  = Ok (One (Qle_bool (minNonNullProportion h) (nonNullProportion col))).
Proof.
  intros C Hi. unfold AbstractDataHandler.suffNonNull.
  destruct (suffNonNull_col_spec col h C) as (Hv & _).
  destruct (suffNonNull_col col h) as [b h']. cbn in *.
  rewrite Hv. unfold getitem, minNonNullProportion. by rewrite Hi.
Qed.

(** C4.  Whatever assignments and queries came before, assigning
    [minNonNullProportion] a value different from the current one empties the
    memo of [suffNonNull]; the next [suffNonNull(col)] calls
    [nonNullProportion(col)] again and answers whether it meets the new
    threshold; and after any further assignments and queries the answer for
    [col] is still the comparison against the threshold current at that time.
    [col] is a column without a threshold entry of its own. *)
Theorem changing_minNonNullProportion_invalidates_suffNonNull
    (d : DefaultDict) (before : list Op) (v : Q) (col : string) :
  d_items d !! col = None ->
  let h := run before (fresh d) in
  Qeq_bool v (minNonNullProportion h) = false ->
  let h' := minNonNullProportion_setter v h in
  c_suffNonNull (_cache h') = ∅
  /\ minNonNullProportion h' = v
  /\ (exists h'',
        suffNonNull [col] h'
        = (Ok (One (Qle_bool v (nonNullProportion col))), h'')
        /\ computed h'' = computed h' ++ [col])
  /\ (forall after,
        let s := run after h' in
        fst (suffNonNull [col] s)
        = Ok (One (Qle_bool (minNonNullProportion s) (nonNullProportion col)))).
Proof.
  intros Hi h Hne h'.
  destruct (run_spec before (fresh d) (fresh_consistent d)) as [C Hd].
  fold h in C, Hd. cbn in Hd.
  assert (Hh' : h' = {| _minNonNullProportion :=
                          set_default (_minNonNullProportion h) v;
                        _cache := {| c_suffNonNull := ∅;
                                     c_suffNonNullProportionThreshold :=
                                       c_suffNonNullProportionThreshold (_cache h) |};
                        computed := computed h |}).
  { unfold h', minNonNullProportion_setter.
    unfold minNonNullProportion in Hne. by rewrite Hne. }
  assert (C' : consistent h') by (by apply setter_consistent).
  assert (Hi' : d_items (_minNonNullProportion h') !! col = None).
  { unfold h'. by rewrite setter_items, Hd. }
  split; [by rewrite Hh'|].
  split; [by rewrite Hh'|].
  split.
  - destruct (suffNonNull_col_spec col h' C') as (Hv & _ & _ & Hc).
    unfold AbstractDataHandler.suffNonNull.
    destruct (suffNonNull_col col h') as [b h''] eqn:E. cbn in *.
    exists h''. split.
    + rewrite Hv. unfold getitem. rewrite Hi'. by rewrite Hh'.
    + apply Hc. rewrite Hh'. cbn. apply lookup_empty.
  - intros after s.
    destruct (run_spec after h' C') as [Cs Hds]. fold s in Cs, Hds.
    apply query_answer; [done|]. by rewrite Hds.
Qed.

End Facts.

(** The theorem at a concrete history: a query under the default 0.32, then
    the threshold raised to 0.5, for a column that is 40% non-null. *)
Lemma changing_minNonNullProportion_witness :
  let nnp := fun _ : string => (2 # 5)%Q in
  let d := {| d_default := (8 # 25)%Q; d_items := ∅ |} in
  let h := run nnp ["x"] [Query ["x"]] (fresh d) in
  let h' := minNonNullProportion_setter (1 # 2) h in
  c_suffNonNull (_cache h') = ∅
  /\ minNonNullProportion h' = (1 # 2)%Q
  /\ (exists h'',
        suffNonNull nnp ["x"] ["x"] h'
        = (Ok (One (Qle_bool (1 # 2) (nnp "x"))), h'')
        /\ computed h'' = computed h' ++ ["x"])
  /\ (forall after,
        let s := run nnp ["x"] after h' in
        fst (suffNonNull nnp ["x"] ["x"] s)
        = Ok (One (Qle_bool (minNonNullProportion s) (nnp "x")))).
Proof.
  intros nnp d.
  apply (changing_minNonNullProportion_invalidates_suffNonNull
           nnp ["x"] d [Query ["x"]] (1 # 2) "x").
  - reflexivity.
  - vm_compute. reflexivity.
Defined.

End ProfilingFacts.

(** ** Partition subsetting, filtering and splitting *)

Module SubsetFacts.

Section Facts.

Context `{Ext : External}.

(** *** Running the monad *)

Lemma bind_ok {A B} (m : M A) (k : A -> M B) w a w' :
  m w = (Ok a, w') -> bind m k w = k a w'.
Proof. intros E. unfold bind. by rewrite E. Qed.

Lemma bind_raise {A B} (m : M A) (k : A -> M B) w e w' :
  m w = (Raise e, w') -> bind m k w = (Raise e, w').
Proof. intros E. unfold bind. by rewrite E. Qed.

Lemma deref_ok self h w : heap w !! self = Some h -> deref self w = (Ok h, w).
Proof. intros E. unfold deref. by rewrite E. Qed.

(** *** [_subset] over every piece *)

Lemma issuperset_spec s l :
  issuperset s l = true <-> forall x, x ∈ l -> x ∈ s.
Proof.
  unfold issuperset. rewrite forallb_forall. split.
  - intros H x Hx. apply list_elem_of_In in Hx.
    specialize (H x Hx). by apply bool_decide_eq_true in H.
  - intros H x Hx. apply bool_decide_eq_true, H. by apply list_elem_of_In.
Qed.

Lemma _subset_everything w self h ps kw :
  heap w !! self = Some h ->
  counted h ->
  ps ≡ₚ pieceSubPaths (meta h) ->
  _subset self ps kw w = (Ok self, w).
Proof.
  intros Hh Hc Hp. unfold _subset. destruct ps as [|p ps]; [done|].
  rewrite (bind_ok _ _ _ _ _ (deref_ok _ _ _ Hh)).
  assert (Hsup : issuperset (pieceSubPaths (meta h)) (p :: ps) = true).
  { apply issuperset_spec. intros x Hx. by rewrite <- Hp. }
  rewrite Hsup. cbn [assert].
  rewrite (bind_ok _ _ w tt w) by done.
  red in Hc. rewrite Hc, <- (Permutation_length Hp), Z.eqb_refl. done.
Qed.

(** C2.  [_subset] called with the sub-paths of every piece of the handle,
    in any order, returns the handle itself and leaves the world as it was:
    no file is copied and no handle is built. *)
Theorem subset_of_all_pieces_is_the_handle w self h ps kw :
  heap w !! self = Some h ->
  counted h ->
  ps ≡ₚ pieceSubPaths (meta h) ->
  _subset self ps kw w = (Ok self, w)
  /\ copies (snd (_subset self ps kw w)) = copies w.
Proof.
  intros Hh Hc Hp.
  rewrite (_subset_everything w self h ps kw Hh Hc Hp). done.
Qed.

(** *** [split] without weights *)

(** C10.  [split()] and [split(1)] return the handle itself, not a list. *)
Theorem split_without_weights_is_the_handle w self :
  split self [] w = (Ok (Itself self), w)
  /\ split self [1%Q] w = (Ok (Itself self), w).
Proof. split; reflexivity. Qed.

(** *** [filterByPartitionKeys] *)




(** *** Criteria that match no piece, or every piece *)






(** *** Keys in the directories of a sub-path *)

























(** *** What the second loop checks *)










End Facts.

(** Closed evaluations are checked by the virtual machine. *)
Ltac by_evaluation :=
  match goal with
  | |- ?a = ?b => vm_cast_no_check (@eq_refl _ b)
  end.

(** A list of distinct literal strings has no repetition. *)
Ltac distinct_strings :=
  repeat (apply NoDup_cons_2;
          [ let H := fresh in
            intros H;
            repeat (apply elem_of_cons in H as [H|H]; [discriminate H|]);
            by apply elem_of_nil in H
          | ]);
  apply NoDup_nil_2.

(** The reference worlds are what [load] produces. *)
Lemma load_reference :
  load "data" Reference.world0 = (Ok 0%nat, Reference.world_of Reference.data_handle)
  /\ load "solo" Reference.world0 = (Ok 0%nat, Reference.world_of Reference.solo_handle)
  /\ load "bad" Reference.world0 = (Ok 0%nat, Reference.world_of Reference.bad_handle)
  /\ load "mixed" Reference.world0
     = (Ok 0%nat, Reference.world_of Reference.mixed_handle).
Proof. repeat split; by_evaluation. Qed.

Import Reference.

Lemma subset_of_all_pieces_witness :
  let w := world_of data_handle in
  let ps := ["date=2018/b.parquet"; "date=2017/a.parquet";
             "date=2019/c.parquet"; "date=2020/d.parquet"] in
  _subset 0%nat ps no_kw w = (Ok 0%nat, w)
  /\ copies (snd (_subset 0%nat ps no_kw w)) = copies w.
Proof.
  intros w ps.
  apply (subset_of_all_pieces_is_the_handle w 0%nat data_handle ps no_kw).
  - reflexivity.
  - reflexivity.
  - apply perm_swap.
Defined.




(** C9 as stated fails for a column whose name ends the name of a key: [id]
    is not the key of any directory of [device_id=5/a.parquet], yet the
    criterion on [id] is not passed over: [id=] occurs in the sub-path, the
    search finds the value of [device_id], and the call raises where the
    handle itself was to be returned. *)
Lemma a_column_that_ends_the_name_of_a_key_is_not_ignored :
  let w := world_of device_handle in
  pieceSubPaths (meta device_handle) = ["device_id=5/a.parquet"]
  /\ directories "device_id=5/a.parquet" = ["device_id=5"]
  /\ key_value "id" "device_id=5/a.parquet" = None
  /\ filterByPartitionKeys 0%nat [InSet "id" ["7"]] no_kw w
     = (Raise AssertionError, w).
Proof. intros w. repeat split; by_evaluation. Qed.

(** C5 at a data set of one piece: [split(7, 3)] returns the handle itself
    twice, so the two parts are not disjoint: each holds the only piece.
    The second slice of the shuffled sub-paths is empty, and [_subset]
    without sub-paths returns [self]. *)
Theorem split_of_one_piece_returns_the_handle_twice :
  let w := world_of solo_handle in
  cumuIndices [7%Q; 3%Q] (nPieces (meta solo_handle)) = [0; 1; 1]
  /\ fst (split 0%nat [7%Q; 3%Q] w) = Ok (Parts [0%nat; 0%nat])
  /\ heap (snd (split 0%nat [7%Q; 3%Q] w)) = heap w.
Proof. intros w. repeat split; by_evaluation. Qed.

End SubsetFacts.

(** ** Sampling *)

Module SamplingFacts.

Import SubsetFacts.

Section Facts.

Context `{Ext : External}.

(** *** Standard output only grows *)

Lemma grows_ret {A} (a : A) : grows (ret a).
Proof. by intros w. Qed.

Lemma grows_raise {A} e : grows (@raise _ A e).
Proof. by intros w. Qed.

Lemma grows_lift {A} (r : res A) : grows (lift r).
Proof. by intros w. Qed.

Lemma grows_gets {A} (f : World -> A) : grows (gets f).
Proof. by intros w. Qed.

Lemma grows_assert b : grows (assert b).
Proof. destruct b; by intros w. Qed.

Lemma grows_bind {A B} (m : M A) (k : A -> M B) :
  grows m -> (forall a, grows (k a)) -> grows (bind m k).
Proof.
  intros Hm Hk w. unfold bind. specialize (Hm w).
  destruct (m w) as [[a|e] w1]; cbn in *; [|done].
  etrans; [exact Hm | apply Hk].
Qed.

Lemma grows_try_except {A} (m : M A) (handler : Exn -> M A) :
  grows m -> (forall e, grows (handler e)) -> grows (try_except m handler).
Proof.
  intros Hm Hh w. unfold try_except. specialize (Hm w).
  destruct (m w) as [[a|e] w1]; cbn in *; [done|].
  etrans; [exact Hm | apply Hh].
Qed.

Lemma grows_modify (f : World -> World) :
  (forall w, stdout w `prefix_of` stdout (f w)) -> grows (modify f).
Proof. intros H w. apply H. Qed.

Lemma grows_print line : grows (print line).
Proof. intros w. cbn. by apply prefix_app_r. Qed.

Lemma grows_deref self : grows (deref self).
Proof. intros w. unfold deref. by destruct (heap w !! self). Qed.

Lemma grows_update self f : grows (update self f).
Proof. by intros w. Qed.

Lemma grows_alloc h : grows (alloc h).
Proof. by intros w. Qed.

Lemma grows_alloc_dict : grows alloc_dict.
Proof. by intros w. Qed.

Lemma grows_new_uuid : grows new_uuid.
Proof. by intros w. Qed.

Lemma grows_shuffle l : grows (shuffle l).
Proof. by intros w. Qed.

Create HintDb grows.

#[local] Hint Resolve grows_ret grows_raise grows_lift grows_gets grows_assert
  grows_print grows_deref grows_update grows_alloc grows_alloc_dict
  grows_new_uuid grows_shuffle : grows.

(** The structure of a method is followed down to the primitives. *)
Ltac grows_step :=
  match goal with
  | |- grows (bind _ _) => apply grows_bind
  | |- grows (try_except _ _) => apply grows_try_except
  | |- grows (modify _) => apply grows_modify; intros ?; done
  | |- grows (match ?x with _ => _ end) => destruct x
  | |- forall _, _ => intros ?
  | |- grows _ => solve [eauto with grows]
  end.

Ltac grows_auto := repeat grows_step.

Lemma grows_copy_all pairs : grows (copy_all pairs).
Proof.
  induction pairs as [|[a b] rest IH]; cbn; [apply grows_ret|].
  apply grows_bind; [by intros w | by intros _].
Qed.

Lemma grows_replay label call_only ts : forall i df,
  grows (replay label call_only ts i df).
Proof.
  induction ts as [|t ts IH]; intros i df; cbn; [apply grows_ret|].
  destruct (if call_only && is_Transformer t then _ else _); [apply IH|].
  grows_auto.
Qed.

#[local] Hint Resolve grows_copy_all grows_replay : grows.

Lemma grows_registry_entry path reCache : grows (registry_entry path reCache).
Proof. unfold registry_entry. grows_auto. Qed.

#[local] Hint Resolve grows_registry_entry : grows.

Lemma grows___init__ path a : grows (__init__ path a).
Proof. unfold __init__. grows_auto. Qed.

#[local] Hint Resolve grows___init__ : grows.

Lemma grows_colWidth_update adf self : grows (colWidth_update adf self).
Proof. unfold colWidth_update. grows_auto. Qed.

#[local] Hint Resolve grows_colWidth_update : grows.

Lemma grows__subset self ps kw : grows (_subset self ps kw).
Proof. unfold _subset. grows_auto. Qed.

Lemma grows_replay_piece piece h label ts : forall i,
  grows (replay_piece piece h label ts i).
Proof.
  induction ts as [|t ts IH]; intros i; cbn; [apply grows_ret|].
  apply grows_bind; [apply grows_deref|]. intros p.
  destruct (if is_Transformer t then _ else _); grows_auto.
Qed.

#[local] Hint Resolve grows__subset grows_replay_piece : grows.

Lemma grows__pieceADF self p : grows (_pieceADF self p).
Proof. unfold _pieceADF. grows_auto. Qed.

#[local] Hint Resolve grows__pieceADF : grows.

Lemma grows_read_piece self n k p : grows (read_piece self n k p).
Proof. unfold read_piece. grows_auto. Qed.

(** *** The loop of [sample] *)

Lemma sample_loop_spec self n k paths : forall adfs w,
  exists w',
    sample_loop self n k paths adfs w
    = (Ok (adfs ++ sub_samples self n k paths w), w')
    /\ stdout w `prefix_of` stdout w'
    /\ (forall p, p ∈ failed_pieces self n k paths w ->
                  cannot_be_loaded p ∈ stdout w')
    /\ (length (sub_samples self n k paths w)
        + length (failed_pieces self n k paths w) = length paths)%nat.
Proof.
  induction paths as [|p rest IH]; intros adfs w;
    cbn [sample_loop sub_samples failed_pieces].
  - exists w. rewrite app_nil_r. repeat split; try done.
    intros p H. by apply elem_of_nil in H.
  - pose proof (grows_read_piece self n k p w) as Hg.
    unfold bind at 1, try_except, bind at 1.
    destruct (read_piece self n k p w) as [[s|e] w1] eqn:E; cbn in Hg.
    + cbn [ret].
      destruct (IH (adfs ++ [s]) w1) as (w' & Hrun & Hpre & Hrep & Hlen).
      exists w'. rewrite Hrun, <- app_assoc. cbn.
      repeat split; try done; [by etrans | by rewrite Hlen].
    + unfold bind at 1. cbn [print modify ret].
      change (snd (print (cannot_be_loaded p) w1))
        with (with_stdout (fun out => out ++ [cannot_be_loaded p]) w1).
      set (w1' := with_stdout (fun out => out ++ [cannot_be_loaded p]) w1).
      destruct (IH adfs w1') as (w' & Hrun & Hpre & Hrep & Hlen).
      exists w'. rewrite Hrun. cbn [length].
      repeat split; try done.
      * etrans; [exact Hg|]. etrans; [|exact Hpre].
        cbn. by apply prefix_app_r.
      * intros q Hq. apply elem_of_cons in Hq as [->|Hq]; [|by apply Hrep].
        destruct Hpre as [tail ->]. cbn.
        apply elem_of_app. left. apply elem_of_app. right.
        by apply list_elem_of_singleton.
      * lia.
Qed.

(** C6, as the code has it.  Once the pieces are chosen, a piece whose read
    raises does not end the call: it is reported on standard output and
    passed over, every chosen piece is either such a piece or contributes
    its sub-sample, and, provided at least one piece could be read, the call
    returns what [unionAllCols] makes of the sub-samples of the pieces that
    could be read. *)
Theorem sample_passes_over_pieces_that_fail
    w self n0 minNPieces maxNPieces kw n k paths w1 :
  sample_plan self n0 minNPieces maxNPieces w = (Ok (n, k, paths), w1) ->
  sub_samples self n k paths w1 <> [] ->
  exists first others w2,
    sub_samples self n k paths w1 = first :: others
    /\ sample self n0 minNPieces maxNPieces kw w
       = (match DDF_unionAllCols (first :: others) with
          | Ok u => Ok (fst u, snd first ∪ snd u)
          | Raise e => Raise e
          end, w2)
    /\ (forall p, p ∈ failed_pieces self n k paths w1 ->
                  cannot_be_loaded p ∈ stdout w2)
    /\ (length (first :: others)
        + length (failed_pieces self n k paths w1) = length paths)%nat.
Proof.
  intros Hplan Hsome.
  destruct (sample_loop_spec self n k paths [] w1)
    as (w2 & Hrun & _ & Hrep & Hlen).
  destruct (sub_samples self n k paths w1) as [|first others] eqn:Es; [done|].
  exists first, others, w2. split; [done|].
  split; [|split; [exact Hrep | exact Hlen]].
  unfold sample. rewrite (bind_ok _ _ _ _ _ Hplan).
  rewrite (bind_ok _ _ _ _ _ Hrun). cbn [app].
  unfold union_samples, bind, lift.
  by destruct (DDF_unionAllCols (first :: others)).
Qed.

(** *** The ceiling of exact arithmetic *)






(** *** The number of pieces that [sample] goes through *)



Lemma reference_random_laws : @random_laws Reference.ext.
Proof. intros k l. reflexivity. Qed.

End Facts.

Import Reference.



(** The theorem on [mixed]: its second piece cannot be read and is
    reported, the sample is that of the first piece. *)
Lemma sample_passes_over_witness :
  let w := world_of mixed_handle in
  let paths := ["date=2019/f.parquet"; "date=2020/corrupt.parquet"] in
  exists first others w2,
    sub_samples 0%nat 10 2 paths w = first :: others
    /\ sample 0%nat (Some 10) None None no_kw w
       = (match DDF_unionAllCols (first :: others) with
          | Ok u => Ok (fst u, snd first ∪ snd u)
          | Raise e => Raise e
          end, w2)
    /\ (forall p, p ∈ failed_pieces 0%nat 10 2 paths w ->
                  cannot_be_loaded p ∈ stdout w2)
    /\ (length (first :: others)
        + length (failed_pieces 0%nat 10 2 paths w) = length paths)%nat.
Proof.
  intros w paths.
  assert (Hsub : sub_samples 0%nat 10 2 paths w = [(frame0, ∅)])
    by by_evaluation.
  apply (@sample_passes_over_pieces_that_fail Reference.ext
           w 0%nat (Some 10) None None no_kw 10 2 paths w).
  - by_evaluation.
  - rewrite Hsub. discriminate.
Defined.

(** C6 as stated fails when no chosen piece can be read: the failure of the
    only piece of [bad] is caught and reported, and then the call raises
    [IndexError] on the empty list of sub-samples. *)
Lemma sample_raises_when_every_piece_fails :
  let w := world_of bad_handle in
  fst (sample_plan 0%nat (Some 10) None None w)
  = Ok (10, 1, ["date=2019/corrupt.parquet"])
  /\ failed_pieces 0%nat 10 1 ["date=2019/corrupt.parquet"] w
     = ["date=2019/corrupt.parquet"]
  /\ fst (sample 0%nat (Some 10) None None no_kw w) = Raise IndexError
  /\ stdout (snd (sample 0%nat (Some 10) None None no_kw w))
     = ["*** date=2019/corrupt.parquet ***";
        cannot_be_loaded "date=2019/corrupt.parquet"].
Proof. intros w. repeat split; by_evaluation. Qed.

End SamplingFacts.

(** ** The transform chain *)

Module TransformFacts.

Import SubsetFacts.

Section Facts.

Context `{Ext : External}.

(** *** What leaves the objects alone *)

Lemma replay_heap label call_only ts : forall i df w,
  heap (snd (replay label call_only ts i df w)) = heap w.
Proof.
  induction ts as [|t ts IH]; intros i df w; cbn; [done|].
  destruct (if call_only && is_Transformer t then _ else _); [apply IH|done].
Qed.

(** The replay without its reporting. *)
Lemma replay_apply_all label ts : forall i df w,
  fst (replay label false ts i df w) = apply_all ts df.
Proof.
  induction ts as [|t ts IH]; intros i df w; cbn; [done|].
  destruct (apply_transform t df); [apply IH|done].
Qed.

Lemma replay_CACHE label call_only ts : forall i df w,
  _CACHE (snd (replay label call_only ts i df w)) = _CACHE w.
Proof.
  induction ts as [|t ts IH]; intros i df w; cbn; [done|].
  destruct (if call_only && is_Transformer t then _ else _); [apply IH|done].
Qed.

Lemma registry_entry_heap path reCache w :
  heap (snd (registry_entry path reCache w)) = heap w.
Proof.
  unfold registry_entry, bind, gets, modify, lift, ret, raise.
  destruct (_CACHE w !! path) as [ns|]; cbn.
  - destruct reCache; cbn.
    + destruct (ParquetDataset_pieces _ _); cbn; [|done].
      by destruct (spark_read_load _ _).
    + destruct ns; cbn; [|done|done].
      destruct (ParquetDataset_pieces _ _); cbn; [|done].
      by destruct (spark_read_load _ _).
  - destruct (ParquetDataset_pieces _ _); cbn; [|done].
    by destruct (spark_read_load _ _).
Qed.

(** A path whose registry entry is loaded needs no discovery. *)
Lemma registry_entry_loaded path w m src n :
  _CACHE w !! path = Some (NsLoaded m src n) ->
  registry_entry path false w = (Ok (m, src, n), w).
Proof.
  intros H. unfold registry_entry, bind, gets. by rewrite H.
Qed.

(** *** Objects *)

Lemma update_heap x f w hx :
  heap w !! x = Some hx ->
  update x f w = (Ok tt, with_heap (insert x (f hx)) w).
Proof. intros H. unfold update, modify, with_heap. by rewrite H. Qed.

Lemma with_alias_restore a h : with_alias (_alias h) (with_alias a h) = h.
Proof. by destruct h. Qed.

Lemma with_heap_id w hp : hp = heap w -> with_heap (fun _ => hp) w = w.
Proof. intros ->. by destruct w. Qed.

(** *** The constructor *)

Lemma __init___spec path0 a w r w' :
  __init__ path0 a w = (Ok r, w') ->
  (r ∉ dom (heap w))
  /\ exists hn,
       heap w' = <[r := hn]> (heap w)
       /\ _sparkDFTransforms hn = a_sparkDFTransforms a
       /\ _pandasDFTransforms hn = a_pandasDFTransforms a
       /\ (forall df0 df,
             a_initSparkDF a = Some df0 -> a_sparkDF a = Some df ->
             _initSparkDF hn = df0
             /\ _sparkDF hn = df
             /\ c_type (_cache hn) = df_dtypes df
             /\ c_nRows (_cache hn)
                = match nRows_kw a with Some n => n | None => None end)
       /\ (a_initSparkDF a = None -> a_sparkDF a = None ->
           a_sparkDFTransforms a = [] ->
           _sparkDF hn = _initSparkDF hn
           /\ c_type (_cache hn) = df_dtypes (_sparkDF hn)
           /\ c_nRows (_cache hn) = Some (_srcNRows hn)).
Proof.
  unfold __init__. unfold bind at 1.
  pose proof (registry_entry_heap path0 (reCache a) w) as H1.
  destruct (registry_entry path0 (reCache a) w) as [[[[m src] srcN]|e] w1];
    [|done]. cbn in H1.
  unfold bind at 1.
  match goal with
  | |- (match ?m w1 with _ => _ end = _) -> _ =>
      destruct (m w1) as [[[frame0 nRows0]|e] w2] eqn:E2; [|done]
  end.
  assert (H2 : w2 = w1
               /\ (match a_initSparkDF a with
                   | Some df0 =>
                       frame0 = df0
                       /\ nRows0 = match nRows_kw a with
                                   | Some n => n | None => None end
                   | None => frame0 = src /\ nRows0 = Some srcN
                   end)).
  { destruct (a_initSparkDF a) as [df0|].
    - by injection E2 as <- <- <-.
    - destruct (nRows_kw a); [done|]. by injection E2 as <- <- <-. }
  destruct H2 as [-> H2]. clear E2.
  unfold bind at 1.
  match goal with
  | |- (match ?m w1 with _ => _ end = _) -> _ =>
      destruct (m w1) as [[[sparkDF recache]|e] w3] eqn:E3; [|done]
  end.
  assert (H3 : heap w3 = heap w1
               /\ match a_sparkDF a with
                  | Some df => sparkDF = df /\ recache = true
                  | None =>
                      a_sparkDFTransforms a = [] ->
                      sparkDF = frame0 /\ recache = false
                  end).
  { destruct (a_sparkDF a) as [df|].
    - by injection E3 as <- <- <-.
    - destruct (a_sparkDFTransforms a) as [|t ts].
      + by injection E3 as <- <- <-.
      + unfold bind in E3.
        match type of E3 with
        | context [replay ?label false (t :: ts) O frame0 w1] =>
            pose proof (replay_heap label false (t :: ts) O frame0 w1) as Hr;
            destruct (replay label false (t :: ts) O frame0 w1)
              as [[df|e] w3']; [|done]
        end.
        injection E3 as <- <- <-. done. }
  destruct H3 as [H3 H3'].
  unfold bind at 1, alloc_dict at 1, alloc.
  cbn [with_dicts with_heap heap dicts].
  intros [= <- <-]. cbn [heap].
  split; [rewrite H3, H1; apply is_fresh|].
  eexists. split.
  { unfold with_heap, with_dicts. cbn [heap]. rewrite H3, H1. reflexivity. }
  cbn. split; [done|]. split; [done|]. split.
  - intros df0 df Hi Hs. rewrite Hi in H2. rewrite Hs in H3'.
    destruct H2 as [-> ->], H3' as [-> ->]. done.
  - intros Hi Hs Ht. rewrite Hi in H2. rewrite Hs in H3'.
    destruct H2 as [-> ->], (H3' Ht) as [-> ->]. done.
Qed.

(** *** [transform] *)

Lemma derived_with_cache h hn ts ps df f :
  (forall c, c_type (f c) = c_type c) ->
  derived h hn ts ps df -> derived h (with_cache f hn) ts ps df.
Proof. intros Hf (H1 & H2 & H3 & H4 & H5). repeat split; try done. cbn. by rewrite Hf. Qed.

Lemma transform_spec self targ df0 parg kw w h r w' :
  heap w !! self = Some h ->
  transform self targ df0 parg kw w = (Ok r, w') ->
  (r ∉ dom (heap w))
  /\ heap w' !! self = Some h
  /\ (forall x, x <> r -> heap w' !! x = heap w !! x)
  /\ exists hn sparkDF,
       heap w' !! r = Some hn
       /\ derived h hn (additional targ) (additional_local parg) sparkDF
       /\ match df0 with
          | Some df => sparkDF = df
          | None => apply_all (additional targ) (_sparkDF h) = Ok sparkDF
          end
       /\ c_nRows (_cache hn)
          = if hands_over_nRows targ kw then c_nRows (_cache h) else None.
Proof.
  intros Hh. unfold transform.
  rewrite (bind_ok _ _ _ _ _ (deref_ok _ _ _ Hh)).
  set (inheritCache :=
         match targ with
         | TList l =>
             match kw_inheritCache kw with Some b => b | None => false end
             || forallb is_Transformer l
         | TOne (Transformer _) => true
         | TOne (Callable _) =>
             match kw_inheritCache kw with Some b => b | None => false end
         end).
  assert (Hpair :
    (match targ with
     | TList l =>
         (l, match kw_inheritCache kw with Some b => b | None => false end
             || forallb is_Transformer l)
     | TOne (Transformer t) => ([Transformer t], true)
     | TOne (Callable f) =>
         ([Callable f],
          match kw_inheritCache kw with Some b => b | None => false end)
     end) = (additional targ, inheritCache)).
  { by destruct targ as [l|[t|f]]. }
  rewrite Hpair. clear Hpair.
  assert (Hn : match kw_inheritNRows kw with
               | Some b => b
               | None => inheritCache
               end = hands_over_nRows targ kw).
  { unfold hands_over_nRows, inheritCache.
    destruct (kw_inheritNRows kw); [done|]. by destruct targ as [l|[t|f]]. }
  rewrite Hn. clear Hn.
  fold (additional_local parg).
  unfold bind at 1.
  match goal with
  | |- (match ?m w with _ => _ end = _) -> _ =>
      destruct (m w) as [[sparkDF|e] w0] eqn:E0; [|done]
  end.
  assert (H0 : heap w0 = heap w
               /\ match df0 with
                  | Some df => sparkDF = df
                  | None => apply_all (additional targ) (_sparkDF h) = Ok sparkDF
                  end).
  { destruct df0 as [df|].
    - by injection E0 as <- <-.
    - match type of E0 with
      | replay ?label false ?ts O ?df w = _ =>
          pose proof (replay_heap label false ts O df w) as Hr;
          pose proof (replay_apply_all label ts O df w) as Ha
      end.
      rewrite E0 in Hr, Ha. cbn in Hr, Ha. done. }
  destruct H0 as [H0 Hdf]. clear E0.
  unfold bind at 1.
  match goal with
  | |- (match ?m w0 with _ => _ end = _) -> _ =>
      destruct (m w0) as [[r0|e] w1] eqn:E1; [|done]
  end.
  apply __init___spec in E1 as (Hfresh & hn & Hw1 & Hts & Hps & Hfr & _).
  cbn [a_sparkDFTransforms a_pandasDFTransforms a_initSparkDF a_sparkDF
       nRows_kw] in Hts, Hps, Hfr.
  destruct (Hfr _ _ eq_refl eq_refl) as (Hi & Hs & Hty & Hrows). clear Hfr.
  rewrite H0 in Hfresh, Hw1.
  assert (Hne : r0 <> self).
  { intros ->. apply Hfresh. apply elem_of_dom. by exists h. }
  assert (Hself1 : heap w1 !! self = Some h).
  { by rewrite Hw1, lookup_insert_ne. }
  assert (Hr1 : heap w1 !! r0 = Some hn).
  { by rewrite Hw1, lookup_insert_eq. }
  assert (Hd : derived h hn (additional targ) (additional_local parg) sparkDF).
  { by repeat split. }
  (* the cache of the new handle is completed *)
  assert (Hstep : forall f (wa : World) hx,
            heap wa !! r0 = Some hx ->
            heap (snd (update r0 (with_cache f) wa))
            = <[r0 := with_cache f hx]> (heap wa)).
  { intros f wa hx Hx. by rewrite (update_heap _ _ _ _ Hx). }
  unfold bind at 1.
  destruct inheritCache.
  - unfold _inheritCache.
    rewrite (bind_ok _ _ _ _ _ (deref_ok _ _ _ Hself1)).
    rewrite (update_heap _ _ _ _ Hr1).
    set (hn1 := with_cache (with_reprSample (c_reprSample (_cache h))) hn).
    set (w2 := with_heap (insert r0 hn1) w1).
    assert (Hself2 : heap w2 !! self = Some h).
    { unfold w2. cbn. by rewrite lookup_insert_ne. }
    assert (Hr2 : heap w2 !! r0 = Some hn1).
    { unfold w2. cbn. by rewrite lookup_insert_eq. }
    rewrite (bind_ok _ _ _ _ _ (deref_ok _ _ _ Hself2)).
    rewrite (bind_ok _ _ _ _ _ (update_heap _ _ _ _ Hr2)).
    intros [= <- <-]. subst w2. cbn [heap with_heap].
    split; [done|]. split; [by rewrite lookup_insert_ne|]. split.
    + intros x Hx. rewrite !lookup_insert_ne by done.
      by rewrite Hw1, lookup_insert_ne.
    + eexists _, sparkDF. split; [by rewrite lookup_insert_eq|].
      split; [|split; [done|]].
      * apply derived_with_cache; [done|]. by apply derived_with_cache.
      * cbn. by rewrite Hrows.
  - cbn [ret].
    rewrite (bind_ok _ _ _ _ _ (deref_ok _ _ _ Hself1)).
    rewrite (bind_ok _ _ _ _ _ (update_heap _ _ _ _ Hr1)).
    intros [= <- <-]. cbn [heap with_heap].
    split; [done|]. split; [by rewrite lookup_insert_ne|]. split.
    + intros x Hx. rewrite lookup_insert_ne by done.
      by rewrite Hw1, lookup_insert_ne.
    + eexists _, sparkDF. split; [by rewrite lookup_insert_eq|].
      split; [|split; [done|]].
      * by apply derived_with_cache.
      * cbn. by rewrite Hrows.
Qed.

Lemma __init___defined path0 a w m src n df0 df :
  _CACHE w !! path0 = Some (NsLoaded m src n) ->
  reCache a = false ->
  a_initSparkDF a = Some df0 ->
  a_sparkDF a = Some df ->
  exists r w', __init__ path0 a w = (Ok r, w').
Proof.
  intros Hc Hre Hi Hs. unfold __init__. rewrite Hre.
  rewrite (bind_ok _ _ _ _ _ (registry_entry_loaded _ _ _ _ _ Hc)).
  rewrite Hi, Hs. eexists _, _. reflexivity.
Qed.

Lemma transform_defined self targ df0 parg kw w h :
  heap w !! self = Some h ->
  registry_ready w h ->
  match df0 with
  | Some _ => True
  | None => is_ok (apply_all (additional targ) (_sparkDF h)) = true
  end ->
  exists r w', transform self targ df0 parg kw w = (Ok r, w').
Proof.
  intros Hh (m & src & n & Hreg) Hok.
  destruct (transform self targ df0 parg kw w) as [[r|e] w'] eqn:E;
    [by eexists _, _|exfalso].
  revert E. unfold transform.
  rewrite (bind_ok _ _ _ _ _ (deref_ok _ _ _ Hh)).
  destruct (match targ with
            | TList l =>
                (l, match kw_inheritCache kw with Some b => b | None => false end
                    || forallb is_Transformer l)
            | TOne (Transformer t) => ([Transformer t], true)
            | TOne (Callable f) =>
                ([Callable f],
                 match kw_inheritCache kw with Some b => b | None => false end)
            end) as [ts inheritCache] eqn:Ep.
  assert (Hts : ts = additional targ).
  { destruct targ as [l|[t|f]]; by injection Ep as <- <-. }
  subst ts. clear Ep.
  unfold bind at 1.
  match goal with
  | |- (match ?m w with _ => _ end = _) -> _ =>
      destruct (m w) as [[sparkDF|e0] w0] eqn:E0
  end.
  2: { exfalso. destruct df0 as [df|]; [done|].
       match type of E0 with
       | replay ?label false ?ts O ?df w = _ =>
           pose proof (replay_apply_all label ts O df w) as Ha
       end.
       rewrite E0 in Ha. cbn in Ha. by rewrite <- Ha in Hok. }
  assert (H0 : heap w0 = heap w /\ _CACHE w0 = _CACHE w).
  { destruct df0 as [df|].
    - by injection E0 as <- <-.
    - match type of E0 with
      | replay ?label false ?ts O ?df w = _ =>
          pose proof (replay_heap label false ts O df w) as Hr;
          pose proof (replay_CACHE label false ts O df w) as Hc
      end.
      rewrite E0 in Hr, Hc. done. }
  destruct H0 as [H0 H0'].
  unfold bind at 1.
  match goal with
  | |- (match __init__ ?p ?a w0 with _ => _ end = _) -> _ =>
      destruct (__init___defined p a w0 m src n (_initSparkDF h) sparkDF)
        as (r0 & w1 & E1); [by rewrite H0'|done|done|done|];
      rewrite E1
  end.
  apply __init___spec in E1 as (Hfresh & hn & Hw1 & _).
  rewrite H0 in Hfresh, Hw1.
  assert (Hne : r0 <> self).
  { intros ->. apply Hfresh. apply elem_of_dom. by exists h. }
  assert (Hself1 : heap w1 !! self = Some h).
  { by rewrite Hw1, lookup_insert_ne. }
  assert (Hr1 : heap w1 !! r0 = Some hn).
  { by rewrite Hw1, lookup_insert_eq. }
  unfold bind at 1.
  destruct inheritCache.
  - unfold _inheritCache.
    rewrite (bind_ok _ _ _ _ _ (deref_ok _ _ _ Hself1)).
    rewrite (update_heap _ _ _ _ Hr1).
    match goal with
    | |- context [bind (deref self) _ ?w2] =>
        assert (Hself2 : heap w2 !! self = Some h)
          by (cbn; by rewrite lookup_insert_ne);
        rewrite (bind_ok _ _ _ _ _ (deref_ok _ _ _ Hself2))
    end.
    done.
  - cbn [ret].
    rewrite (bind_ok _ _ _ _ _ (deref_ok _ _ _ Hself1)). done.
Qed.

(** *** Every operation goes through [transform] *)






(** [select] is [transform] once the arguments have been compared with
    ['*']. *)
Lemma select_run self exprs kw w :
  select self exprs kw w
  = match exprs with
    | [] =>
        transform self (TOne (Callable (df_selectExpr ["*"]))) None (PList [])
          (select_flags kw true) w
    | _ =>
        match star_in exprs with
        | Raise e => (Raise e, w)
        | Ok star =>
            transform self
              (TOne (Callable (if forallb is_EStr exprs
                               then df_selectExpr (map expr_text exprs)
                               else df_select exprs)))
              None (PList []) (select_flags kw star) w
        end
    end.
Proof.
  unfold select, select_flags, bind, ret, lift.
  destruct exprs as [|e es]; [done|].
  by destruct (star_in (e :: es)).
Qed.






(** *** The operations return when the engine accepts them *)

Ltac defined_through_transform Hh Hreg Hacc :=
  apply (transform_defined _ _ _ _ _ _ _ Hh Hreg); exact Hacc.





(** *** [load] and [select('*')] *)

Lemma registry_entry_recorded path reCache w m src n w1 :
  registry_entry path reCache w = (Ok (m, src, n), w1) ->
  _CACHE w1 !! path = Some (NsLoaded m src n).
Proof.
  unfold registry_entry, bind, gets, modify, lift, ret, raise.
  destruct (_CACHE w !! path) as [ns|] eqn:Ec;
    [destruct reCache; [|destruct ns]|]; cbn;
    try done;
    try (destruct (ParquetDataset_pieces _ _); [|done]; cbn;
         destruct (spark_read_load _ _); [|done]; cbn;
         intros [= <- <- <- <-]; cbn; by rewrite lookup_insert_eq).
  by intros [= <- <- <- <-].
Qed.

(** The handle that [load] builds, and the registry after it. *)
Lemma load_spec path w r w1 :
  load path w = (Ok r, w1) ->
  exists h,
    heap w1 !! r = Some h
    /\ _sparkDFTransforms h = []
    /\ c_type (_cache h) = df_dtypes (_sparkDF h)
    /\ c_nRows (_cache h) = Some (_srcNRows h)
    /\ (m_path (meta h) = None -> registry_ready w1 h).
Proof.
  intros E.
  destruct (__init___spec _ _ _ _ _ E) as (_ & hn & Hw1 & Hts & _ & _ & Hl).
  destruct (Hl eq_refl eq_refl eq_refl) as (_ & Hty & Hn).
  exists hn. split; [by rewrite Hw1, lookup_insert_eq|].
  split; [done|]. split; [done|]. split; [done|].
  (* the registry *)
  revert E Hw1. unfold load, __init__. cbn [reCache init_args].
  unfold bind at 1.
  destruct (registry_entry path false w) as [[[[m src] n]|e] w0] eqn:Er;
    [|done].
  apply registry_entry_recorded in Er.
  cbn [a_initSparkDF a_sparkDF a_sparkDFTransforms nRows_kw init_args].
  unfold bind, ret, alloc_dict, alloc. cbn.
  intros [= <- <-]. cbn. intros Hw1 Hm.
  apply (f_equal (fun hp => hp !! fresh (dom (heap w0)))) in Hw1.
  rewrite !lookup_insert_eq in Hw1. injection Hw1 as <-.
  cbn in Hm |- *. exists m, src, n. cbn. by rewrite Hm.
Qed.

(** C8.  For a handle constructed from a path, [select('*')] on an engine
    for which [selectExpr('*')] keeps the rows and the column types of the
    frame yields a handle with the row count and the schema (the types of
    the frame, and the type map of the cache) of the original.  The
    registry holds the entry of the handle's path. *)
Theorem select_star_keeps_row_count_and_schema w path r w1 h :
  load path w = (Ok r, w1) ->
  heap w1 !! r = Some h ->
  registry_ready w1 h ->
  (exists df',
     df_selectExpr ["*"] (_sparkDF h) = Ok df'
     /\ df_count df' = df_count (_sparkDF h)
     /\ df_dtypes df' = df_dtypes (_sparkDF h)) ->
  exists r' w2 h',
    select r [EStr "*"] no_kw w1 = (Ok r', w2)
    /\ heap w2 !! r' = Some h'
    /\ heap w2 !! r = Some h
    /\ nRows_of h' = nRows_of h
    /\ df_dtypes (_sparkDF h') = df_dtypes (_sparkDF h)
    /\ c_type (_cache h') = c_type (_cache h).
Proof.
  intros El Hh Hreg (df' & Hsel & Hcount & Hty).
  destruct (load_spec _ _ _ _ El) as (h0 & Hh0 & _ & Hty0 & Hn0 & _).
  rewrite Hh in Hh0. injection Hh0 as <-.
  rewrite select_run. cbn [star_in String.eqb Ascii.eqb Bool.eqb].
  cbn [forallb is_EStr map expr_text andb].
  match goal with
  | |- context [transform r ?t None ?p ?k w1] =>
      destruct (transform_defined r t None p k w1 h Hh Hreg) as (r' & w2 & E);
        [cbn; by rewrite Hsel|];
      destruct (transform_spec _ _ _ _ _ _ _ _ _ Hh E)
        as (_ & Hs & _ & hn & df & Hr & Hd & Hdf & Hrows)
  end.
  exists r', w2, hn. rewrite E.
  destruct Hd as (_ & _ & _ & Hsdf & Hct).
  cbn in Hdf, Hrows. rewrite Hsel in Hdf. injection Hdf as <-.
  repeat split; try done.
  - unfold nRows_of. by rewrite Hrows, Hn0.
  - by rewrite Hsdf.
  - by rewrite Hct, Hty0.
Qed.

End Facts.

Import Reference.


(** On the reference world [drop('x')] returns the new object 1, whose local
    chain is the drop of [x]. *)
Lemma drop_on_reference_world :
  let r := run_op 0%nat (OpDrop ["x"]) no_kw (world_of data_handle) in
  fst r = Ok 1%nat
  /\ (_pandasDFTransforms <$> heap (snd r) !! 1%nat) = Some [DropPandas ["x"]]
  /\ (df_dtypes <$> (_sparkDF <$> heap (snd r) !! 1%nat))
     = Some [("id", "bigint")].
Proof. repeat split; by_evaluation. Qed.

(** The theorem for [data]. *)
Lemma select_star_witness :
  exists r' w2 h',
    select 0%nat [EStr "*"] no_kw (world_of data_handle) = (Ok r', w2)
    /\ heap w2 !! r' = Some h'
    /\ heap w2 !! 0%nat = Some data_handle
    /\ nRows_of h' = nRows_of data_handle
    /\ df_dtypes (_sparkDF h') = df_dtypes (_sparkDF data_handle)
    /\ c_type (_cache h') = c_type (_cache data_handle).
Proof.
  apply (@select_star_keeps_row_count_and_schema Reference.ext
           world0 "data" 0%nat (world_of data_handle) data_handle).
  - by_evaluation.
  - reflexivity.
  - by exists (meta data_handle), frame0, 100.
  - exists frame0. repeat split; reflexivity.
Defined.

End TransformFacts.

(** ** The column groups *)

Module ColumnFacts.

Import ColumnGroups.

Section Facts.

Variables _T_ORD_COL _T_DELTA_COL : string.
Variables _T_COMPONENT_AUX_COLS _T_CAT_AUX_COLS _T_NUM_AUX_COLS : list string.
Variables columns indexCols : list string.
Variable hasTS : bool.
Variable typeIsNum : string -> bool.

Lemma member_spec x t : member x t = true <-> x ∈ t.
Proof. unfold member. apply bool_decide_eq_true. Qed.

Lemma elem_of_filter_In (P : string -> bool) x l :
  x ∈ List.filter P l <-> x ∈ l /\ P x = true.
Proof.
  rewrite !list_elem_of_In, filter_In. done.
Qed.

Lemma List_filter_sublist (P : string -> bool) l : sublist (List.filter P l) l.
Proof.
  induction l as [|x l IH]; cbn; [done|].
  destruct (P x); by constructor.
Qed.

(** X1.  The content columns are the columns that are neither index columns
    nor time columns: a column is a content column exactly when it is a
    column, is not an index column, is neither of the two relative time
    columns and is not one of the time component columns that are present.
    So no content column is among the possible time feature columns,
    whether the data has a time series or not; and the possible numeric
    content columns are columns, in the order of the columns. *)
Theorem content_columns_are_apart_from_index_and_time_columns :
  (forall col,
     col ∈ contentCols _T_ORD_COL _T_DELTA_COL _T_COMPONENT_AUX_COLS columns
             indexCols
     <-> col ∈ columns
         /\ (col ∉ indexCols)
         /\ (col ∉ _T_REL_AUX_COLS _T_ORD_COL _T_DELTA_COL)
         /\ (col ∉ tComponentAuxCols _T_COMPONENT_AUX_COLS columns))
  /\ Forall
       (fun col =>
          col ∉ possibleFeatureTAuxCols _T_DELTA_COL _T_COMPONENT_AUX_COLS
                  columns hasTS)
       (contentCols _T_ORD_COL _T_DELTA_COL _T_COMPONENT_AUX_COLS columns
          indexCols)
  /\ sublist
       (possibleNumContentCols _T_ORD_COL _T_DELTA_COL _T_COMPONENT_AUX_COLS
          columns indexCols typeIsNum)
       columns.
Proof.
  assert (Hiff : forall col,
     col ∈ contentCols _T_ORD_COL _T_DELTA_COL _T_COMPONENT_AUX_COLS columns
             indexCols
     <-> col ∈ columns
         /\ (col ∉ indexCols)
         /\ (col ∉ _T_REL_AUX_COLS _T_ORD_COL _T_DELTA_COL)
         /\ (col ∉ tComponentAuxCols _T_COMPONENT_AUX_COLS columns)).
  { intros col. unfold contentCols, tComponentAuxCols, _T_AUX_COLS.
    rewrite !elem_of_filter_In, negb_true_iff.
    split.
    - intros [Hc Hm]. split; [done|].
      assert (Hn : col ∉ indexCols ++ _T_REL_AUX_COLS _T_ORD_COL _T_DELTA_COL
                         ++ _T_COMPONENT_AUX_COLS).
      { intros Hin. apply member_spec in Hin. congruence. }
      rewrite !not_elem_of_app in Hn. destruct Hn as (H1 & H2 & H3).
      split; [done|]. split; [done|]. by intros [H _].
    - intros (Hc & Hi & Hr & Hcomp). split; [done|].
      apply not_true_iff_false. intros E.
      apply member_spec in E. rewrite !elem_of_app in E.
      destruct E as [E|[E|E]]; [done|done|].
      apply Hcomp. split; [done|]. by apply member_spec. }
  split; [exact Hiff|]. split.
  - apply Forall_forall. intros col Hcol.
    apply Hiff in Hcol. destruct Hcol as (_ & _ & Hrel & Hcomp).
    unfold possibleFeatureTAuxCols. rewrite elem_of_app.
    intros [H|H]; [|done].
    destruct hasTS; [|by apply elem_of_nil in H].
    apply list_elem_of_singleton in H. subst col.
    apply Hrel. unfold _T_REL_AUX_COLS.
    apply list_elem_of_further, list_elem_of_here.
  - unfold possibleNumContentCols, contentCols.
    etrans; apply List_filter_sublist.
Qed.

(** X2.  The possible categorical and the possible numeric time columns are
    among the possible time feature columns, and every possible time feature
    column is the time-difference column or a column of the data. *)
Theorem possible_time_columns_are_possible_feature_columns :
  possibleCatTAuxCols _T_COMPONENT_AUX_COLS _T_CAT_AUX_COLS columns
    ⊆ possibleFeatureTAuxCols _T_DELTA_COL _T_COMPONENT_AUX_COLS columns hasTS
  /\ possibleNumTAuxCols _T_DELTA_COL _T_COMPONENT_AUX_COLS _T_NUM_AUX_COLS
       columns hasTS
       ⊆ possibleFeatureTAuxCols _T_DELTA_COL _T_COMPONENT_AUX_COLS columns hasTS
  /\ possibleFeatureTAuxCols _T_DELTA_COL _T_COMPONENT_AUX_COLS columns hasTS
       ⊆ _T_DELTA_COL :: columns.
Proof.
  unfold possibleCatTAuxCols, possibleNumTAuxCols, possibleFeatureTAuxCols.
  split; [|split]; intros x.
  - rewrite elem_of_filter_In, elem_of_app. intros [H _]. by right.
  - rewrite !elem_of_app, elem_of_filter_In. intros [H|[H _]]; [by left|by right].
  - rewrite elem_of_app. unfold tComponentAuxCols. rewrite elem_of_filter_In.
    intros [H|[_ H]].
    + destruct hasTS; [|by apply elem_of_nil in H].
      apply list_elem_of_singleton in H. subst. apply list_elem_of_here.
    + apply list_elem_of_further. by apply member_spec.
Qed.

End Facts.

End ColumnFacts.

(** ** The memo of [suffNonNull] between changes of the threshold *)

Module MemoFacts.

Import AbstractDataHandler MemoVocabulary.

Section Facts.

Variable nonNullProportion : string -> Q.
Variable contentCols : list string.

Abbreviation suffNonNull_col := (suffNonNull_col nonNullProportion).
Abbreviation suffNonNull_each := (suffNonNull_each nonNullProportion).
Abbreviation suffNonNull := (suffNonNull nonNullProportion contentCols).
Abbreviation run := (run nonNullProportion contentCols).
Abbreviation consistent := (consistent nonNullProportion).

Lemma Qeq_bool_same q : Qeq_bool q q = true.
Proof. apply Qeq_bool_iff. reflexivity. Qed.

Lemma handler_eta h :
  {| _minNonNullProportion := _minNonNullProportion h;
     _cache := {| c_suffNonNull := c_suffNonNull (_cache h);
                  c_suffNonNullProportionThreshold :=
                    c_suffNonNullProportionThreshold (_cache h) |};
     computed := computed h |} = h.
Proof. by destruct h as [d [s t] c]. Qed.

(** A query settles its column. *)
Lemma settled_after_query col h :
  settled col (fst (suffNonNull_col col h)) (snd (suffNonNull_col col h)).
Proof.
  unfold AbstractDataHandler.suffNonNull_col, settled.
  set (g := getitem (_minNonNullProportion h) col).
  destruct (c_suffNonNullProportionThreshold (_cache h) !! col) as [t|] eqn:Et.
  - destruct (Qeq_bool t g) eqn:Eq; cbn [negb].
    + destruct (c_suffNonNull (_cache h) !! col) as [b|] eqn:Es; cbn.
      * split; [done|]. by exists t.
      * rewrite lookup_insert_eq. split; [done|]. by exists t.
    + destruct (c_suffNonNull (_cache h) !! col) as [b|] eqn:Es; cbn;
        rewrite !lookup_insert_eq; (split; [done|]);
        exists g; split; try done; apply Qeq_bool_same.
  - destruct (c_suffNonNull (_cache h) !! col) as [b|] eqn:Es; cbn;
      rewrite ?lookup_insert_eq; (split; [done|]);
      exists g; split; try done; apply Qeq_bool_same.
Qed.

(** A settled column is answered from the memo, and nothing changes. *)
Lemma settled_query_same col b h :
  settled col b h -> suffNonNull_col col h = (b, h).
Proof.
  intros (Hs & t & Ht & Hq). unfold AbstractDataHandler.suffNonNull_col.
  rewrite Ht, Hq, Hs. cbn. by rewrite handler_eta.
Qed.

Lemma calls_for_app col h l :
  List.filter (String.eqb col) (computed h ++ l)
  = calls_for col h ++ List.filter (String.eqb col) l.
Proof. unfold calls_for. apply List.filter_app. Qed.

(** A query for any column leaves a settled column settled, and asks
    nothing about it. *)
Lemma settled_query_col col b h col' :
  settled col b h ->
  settled col b (snd (suffNonNull_col col' h))
  /\ calls_for col (snd (suffNonNull_col col' h)) = calls_for col h.
Proof.
  intros Hset. destruct (decide (col' = col)) as [->|Hne].
  { by rewrite (settled_query_same _ _ _ Hset). }
  destruct Hset as (Hs & t & Ht & Hq).
  assert (Hno : List.filter (String.eqb col) [col'] = []).
  { cbn. destruct (String.eqb_spec col col'); [congruence|done]. }
  unfold AbstractDataHandler.suffNonNull_col, settled.
  set (g := getitem (_minNonNullProportion h) col').
  destruct (c_suffNonNullProportionThreshold (_cache h) !! col') as [t'|];
    [destruct (Qeq_bool t' g); cbn [negb]|];
    destruct (c_suffNonNull (_cache h) !! col') as [b'|]; cbn;
    unfold calls_for; cbn;
    rewrite ?lookup_insert_ne by done;
    rewrite ?List.filter_app, ?Hno, ?app_nil_r;
    (split; [split; [done|by exists t] | done]).
Qed.

Lemma settled_each col b cols : forall acc h,
  settled col b h ->
  settled col b (snd (suffNonNull_each cols acc h))
  /\ calls_for col (snd (suffNonNull_each cols acc h)) = calls_for col h.
Proof.
  induction cols as [|c cols IH]; intros acc h Hset; cbn; [done|].
  destruct (settled_query_col col b h c Hset) as [Hset' Hcalls].
  destruct (suffNonNull_col c h) as [b' h']. cbn in Hset', Hcalls.
  destruct (IH (<[c := b']> acc) h' Hset') as [IH1 IH2].
  split; [done|]. by rewrite IH2.
Qed.

Lemma settled_query col b cols h :
  settled col b h ->
  settled col b (snd (suffNonNull cols h))
  /\ calls_for col (snd (suffNonNull cols h)) = calls_for col h.
Proof.
  intros Hset. unfold AbstractDataHandler.suffNonNull.
  destruct (match cols with [] => contentCols | _ => cols end)
    as [|c1 [|c2 rest]].
  - done.
  - destruct (settled_query_col col b h c1 Hset) as [H1 H2].
    by destruct (suffNonNull_col c1 h).
  - destruct (settled_each col b (c1 :: c2 :: rest) ∅ h Hset) as [H1 H2].
    by destruct (suffNonNull_each (c1 :: c2 :: rest) ∅ h).
Qed.

Lemma settled_queries col b qs : forall h,
  settled col b h ->
  settled col b (run (map Query qs) h)
  /\ calls_for col (run (map Query qs) h) = calls_for col h.
Proof.
  induction qs as [|q qs IH]; intros h Hset; [done|].
  change (run (map Query (q :: qs)) h)
    with (run (map Query qs) (snd (suffNonNull q h))).
  destruct (settled_query col b q h Hset) as [H1 H2].
  destruct (IH _ H1) as [IH1 IH2].
  split; [done|]. by rewrite IH2.
Qed.

(** X3.  Once [suffNonNull(col)] has answered, and as long as the threshold
    is not assigned, [nonNullProportion(col)] is not called again: whatever
    queries follow, for this or for other columns, [suffNonNull(col)] gives
    the same answer from the memo and leaves the handler as it is. *)
Theorem suffNonNull_asks_once_while_the_threshold_stays
    (h : Handler) (col : string) (qs : list (list string)) :
  let first := suffNonNull [col] h in
  let later := run (map Query qs) (snd first) in
  suffNonNull [col] later = (fst first, later)
  /\ calls_for col later = calls_for col (snd first).
Proof.
  intros first later.
  pose proof (settled_after_query col h) as Hset.
  assert (Hfirst : first = (Ok (One (fst (suffNonNull_col col h))),
                            snd (suffNonNull_col col h))).
  { unfold first, AbstractDataHandler.suffNonNull.
    by destruct (suffNonNull_col col h). }
  destruct (settled_queries col _ qs _ Hset) as [Hlater Hcalls].
  assert (Hl : later = run (map Query qs) (snd (suffNonNull_col col h))).
  { unfold later. by rewrite Hfirst. }
  rewrite <- Hl in Hlater, Hcalls.
  split.
  - unfold AbstractDataHandler.suffNonNull.
    rewrite (settled_query_same _ _ _ Hlater). by rewrite Hfirst.
  - by rewrite Hfirst.
Qed.

(** The dictionary comprehension: every requested column gets the
    comparison with its threshold, the other keys are left alone. *)
Lemma suffNonNull_each_answers cols : forall acc h,
  consistent h ->
  forall c,
    fst (suffNonNull_each cols acc h) !! c
    = if bool_decide (c ∈ cols)
      then Some (Qle_bool (getitem (_minNonNullProportion h) c)
                          (nonNullProportion c))
      else acc !! c.
Proof.
  induction cols as [|col rest IH]; intros acc h C c; cbn.
  { by rewrite bool_decide_eq_false_2 by apply not_elem_of_nil. }
  destruct (ProfilingFacts.suffNonNull_col_spec
              nonNullProportion col h C) as (Hv & C' & Hd & _).
  destruct (suffNonNull_col col h) as [b h']. cbn in Hv, C', Hd.
  rewrite (IH _ _ C' c), Hd.
  destruct (decide (c = col)) as [->|Hne].
  - rewrite (bool_decide_eq_true_2 (col ∈ col :: rest))
      by apply list_elem_of_here.
    destruct (bool_decide (col ∈ rest)); [done|].
    by rewrite lookup_insert_eq, Hv.
  - rewrite lookup_insert_ne by done.
    destruct (decide (c ∈ rest)) as [Hin|Hnin].
    + rewrite !bool_decide_eq_true_2; [done| |done].
      by apply list_elem_of_further.
    + rewrite !bool_decide_eq_false_2; [done| |done].
      intros Hin. apply elem_of_cons in Hin as [?|?]; done.
Qed.

(** X4.  After any assignments and queries, [suffNonNull] for two or more
    columns returns a dictionary whose keys are exactly the requested
    columns and whose value for each is whether [nonNullProportion] of the
    column reaches the threshold the column has now: its own entry of
    [_minNonNullProportion] when it has one, the default otherwise. *)
Theorem suffNonNull_of_several_columns_answers_each
    (d : DefaultDict) (ops : list Op) (c1 c2 : string) (rest : list string) :
  let h := run ops (fresh d) in
  let cols := c1 :: c2 :: rest in
  exists m h',
    suffNonNull cols h = (Ok (Many m), h')
    /\ dom m = list_to_set cols
    /\ (forall c, c ∈ cols ->
          m !! c = Some (Qle_bool (getitem (_minNonNullProportion h) c)
                                  (nonNullProportion c)))
    /\ _minNonNullProportion h' = _minNonNullProportion h.
Proof.
  intros h cols.
  destruct (ProfilingFacts.run_spec nonNullProportion contentCols ops
              (fresh d) (ProfilingFacts.fresh_consistent nonNullProportion d))
    as [C _].
  fold h in C.
  pose proof (suffNonNull_each_answers cols ∅ h C) as Hans.
  destruct (ProfilingFacts.suffNonNull_each_spec nonNullProportion cols ∅ h C)
    as [_ Hd].
  unfold AbstractDataHandler.suffNonNull. fold cols.
  change (match cols with [] => contentCols | _ :: _ => cols end) with cols.
  unfold cols at 1.
  fold cols.
  destruct (suffNonNull_each cols ∅ h) as [m h'] eqn:E. cbn in Hans, Hd.
  exists m, h'. split; [done|]. split; [|split; [|done]].
  - apply set_eq. intros c. rewrite elem_of_dom, elem_of_list_to_set, Hans.
    destruct (decide (c ∈ cols)) as [Hin|Hnin].
    + rewrite bool_decide_eq_true_2 by done. split; [done|]. by eexists.
    + rewrite bool_decide_eq_false_2 by done. rewrite lookup_empty.
      split; [by intros [? ?]|done].
  - intros c Hin. by rewrite Hans, bool_decide_eq_true_2.
Qed.

End Facts.

End MemoFacts.

(** ** The constructor and the registry *)

Module RegistryFacts.

Import SubsetFacts TransformFacts.

Section Facts.

Context `{Ext : External}.

(** *** Worlds *)

Lemma world_eta w :
  {| heap := heap w; dicts := dicts w; _CACHE := _CACHE w;
     copies := copies w; stdout := stdout w;
     n_uuid := n_uuid w; n_random := n_random w |} = w.
Proof. by destruct w. Qed.

Lemma with_CACHE_same f w : f (_CACHE w) = _CACHE w -> with_CACHE f w = w.
Proof. intros E. unfold with_CACHE. rewrite E. apply world_eta. Qed.

Lemma with_CACHE_twice f g w :
  with_CACHE f (with_CACHE g w) = with_CACHE (fun c => f (g c)) w.
Proof. reflexivity. Qed.

Lemma with_CACHE_ext f g w :
  f (_CACHE w) = g (_CACHE w) -> with_CACHE f w = with_CACHE g w.
Proof. intros E. unfold with_CACHE. by rewrite E. Qed.

(** *** A replay that succeeds prints nothing *)

Lemma replay_ok label call_only ts : forall i df w df' w',
  replay label call_only ts i df w = (Ok df', w') -> w' = w.
Proof.
  induction ts as [|t ts IH]; intros i df w df' w'; cbn.
  - by intros [= _ <-].
  - destruct (if call_only && is_Transformer t then _ else _); [apply IH|done].
Qed.

Lemma replay_run label ts : forall i df w df',
  apply_all ts df = Ok df' -> replay label false ts i df w = (Ok df', w).
Proof.
  induction ts as [|t ts IH]; intros i df w df'; cbn.
  - by intros [= <-].
  - destruct (apply_transform t df); [apply IH|done].
Qed.

(** *** The registry entry of a path that has to be read *)

Lemma registry_entry_discovers path reCache w :
  reCache = true \/ _CACHE w !! path = None \/ _CACHE w !! path = Some NsEmpty ->
  registry_entry path reCache w
  = match ParquetDataset_pieces (copies w) path with
    | Raise e => (Raise e, with_CACHE (insert path NsEmpty) w)
    | Ok pieces =>
        let m := discover path pieces in
        match spark_read_load (copies w) (spark_path path) with
        | Raise e => (Raise e, with_CACHE (insert path (NsListed m)) w)
        | Ok loaded =>
            let src := coerce_binary loaded in
            (Ok (m, src, df_count src),
             with_CACHE (insert path (NsLoaded m src (df_count src))) w)
        end
    end.
Proof.
  intros H.
  assert (Hgo : forall w0 : World,
    copies w0 = copies w ->
    with_CACHE (insert path NsEmpty) w0 = with_CACHE (insert path NsEmpty) w ->
    (let* made := gets copies in
     let* pieces := lift (ParquetDataset_pieces made path) in
     let m := discover path pieces in
     modify (with_CACHE (insert path (NsListed m)));;
     let sparkPath :=
       if startswith path "s3" then s3a_path_with_auth path else path in
     let* loaded := lift (spark_read_load made sparkPath) in
     let src := coerce_binary loaded in
     modify (with_CACHE (insert path (NsLoaded m src (df_count src))));;
     ret (m, src, df_count src)) w0
    = match ParquetDataset_pieces (copies w) path with
      | Raise e => (Raise e, w0)
      | Ok pieces =>
          let m := discover path pieces in
          match spark_read_load (copies w) (spark_path path) with
          | Raise e => (Raise e, with_CACHE (insert path (NsListed m)) w)
          | Ok loaded =>
              let src := coerce_binary loaded in
              (Ok (m, src, df_count src),
               with_CACHE (insert path (NsLoaded m src (df_count src))) w)
          end
      end).
  { intros w0 Hc Hw0.
    assert (Hins : forall x,
      with_CACHE (insert path x) w0 = with_CACHE (insert path x) w).
    { intros x.
      apply (f_equal (with_CACHE (insert path x))) in Hw0.
      rewrite !with_CACHE_twice in Hw0.
      etrans; [|etrans; [exact Hw0|]].
      - apply with_CACHE_ext. by rewrite insert_insert_eq.
      - apply with_CACHE_ext. by rewrite insert_insert_eq. }
    unfold bind, gets, lift, modify, ret. rewrite Hc.
    destruct (ParquetDataset_pieces (copies w) path) as [pieces|e]; [|done].
    cbn [copies with_CACHE]. fold (spark_path path).
    destruct (spark_read_load (copies w) (spark_path path)) as [loaded|e].
    - cbn zeta. f_equal. rewrite with_CACHE_twice.
      etrans; [|apply Hins]. apply with_CACHE_ext. by rewrite insert_insert_eq.
    - cbn zeta. f_equal. apply Hins. }
  unfold registry_entry.
  unfold bind at 1, gets at 1.
  assert (Hfresh :
    (let* ns := modify (with_CACHE (insert path NsEmpty));; ret NsEmpty in
     match ns with
     | NsLoaded m src n => ret (m, src, n)
     | NsListed _ => raise AttributeError
     | NsEmpty =>
         let* made := gets copies in
         let* pieces := lift (ParquetDataset_pieces made path) in
         let m := discover path pieces in
         modify (with_CACHE (insert path (NsListed m)));;
         let sparkPath :=
           if startswith path "s3" then s3a_path_with_auth path else path in
         let* loaded := lift (spark_read_load made sparkPath) in
         let src := coerce_binary loaded in
         modify (with_CACHE (insert path (NsLoaded m src (df_count src))));;
         ret (m, src, df_count src)
     end) w
    = match ParquetDataset_pieces (copies w) path with
      | Raise e => (Raise e, with_CACHE (insert path NsEmpty) w)
      | Ok pieces =>
          let m := discover path pieces in
          match spark_read_load (copies w) (spark_path path) with
          | Raise e => (Raise e, with_CACHE (insert path (NsListed m)) w)
          | Ok loaded =>
              let src := coerce_binary loaded in
              (Ok (m, src, df_count src),
               with_CACHE (insert path (NsLoaded m src (df_count src))) w)
          end
      end).
  { unfold bind at 1. unfold bind at 1. cbn [modify ret].
    rewrite (Hgo (with_CACHE (insert path NsEmpty) w)); [done|done|].
    rewrite with_CACHE_twice. apply with_CACHE_ext. by rewrite insert_insert_eq. }
  destruct (_CACHE w !! path) as [ns|] eqn:Ec.
  - destruct reCache; cbn [negb].
    + exact Hfresh.
    + destruct H as [H|[H|H]]; [done|done|]. injection H as ->.
      etrans; [exact (Hgo w eq_refl eq_refl)|].
      destruct (ParquetDataset_pieces (copies w) path); [done|].
      f_equal. symmetry. apply with_CACHE_same. by apply insert_id.
  - exact Hfresh.
Qed.

(** *** What the constructor returns *)

Lemma __init___inv path0 a w r w' :
  __init__ path0 a w = (Ok r, w') ->
  exists m src n w1 frame0 nRows0 sparkDF,
    registry_entry path0 (reCache a) w = (Ok (m, src, n), w1)
    /\ match a_initSparkDF a with
       | Some df =>
           frame0 = df
           /\ nRows0 = match nRows_kw a with Some x => x | None => None end
       | None => nRows_kw a = None /\ frame0 = src /\ nRows0 = Some n
       end
    /\ match a_sparkDF a with
       | Some df => sparkDF = df
       | None => apply_all (a_sparkDFTransforms a) frame0 = Ok sparkDF
       end
    /\ r = fresh (dom (heap w1))
    /\ w' = with_heap
              (insert r (constructed path0 a m src n frame0 nRows0 sparkDF
                           (fresh (dom (dicts w1)))))
              (with_dicts (insert (fresh (dom (dicts w1))) ∅) w1).
Proof.
  unfold __init__. unfold bind at 1.
  destruct (registry_entry path0 (reCache a) w) as [[[[m src] n]|e] w1];
    [|done].
  unfold bind at 1.
  match goal with
  | |- (match ?m w1 with _ => _ end = _) -> _ =>
      destruct (m w1) as [[[frame0 nRows0]|e] w2] eqn:E2; [|done]
  end.
  assert (H2 : w2 = w1
               /\ match a_initSparkDF a with
                  | Some df =>
                      frame0 = df
                      /\ nRows0 = match nRows_kw a with
                                  | Some x => x | None => None end
                  | None => nRows_kw a = None /\ frame0 = src /\ nRows0 = Some n
                  end).
  { destruct (a_initSparkDF a) as [df0|].
    - by injection E2 as <- <- <-.
    - destruct (nRows_kw a); [done|]. by injection E2 as <- <- <-. }
  destruct H2 as [-> H2]. clear E2.
  unfold bind at 1.
  match goal with
  | |- (match ?m w1 with _ => _ end = _) -> _ =>
      destruct (m w1) as [[[sparkDF recache]|e] w3] eqn:E3; [|done]
  end.
  assert (H3 : w3 = w1
               /\ recache = match a_sparkDF a with
                            | Some _ => true
                            | None => match a_sparkDFTransforms a with
                                      | [] => false | _ => true end
                            end
               /\ match a_sparkDF a with
                  | Some df => sparkDF = df
                  | None => apply_all (a_sparkDFTransforms a) frame0 = Ok sparkDF
                  end).
  { destruct (a_sparkDF a) as [df|].
    - by injection E3 as <- <- <-.
    - destruct (a_sparkDFTransforms a) as [|t ts] eqn:Ets.
      + by injection E3 as <- <- <-.
      + unfold bind in E3.
        match type of E3 with
        | context [replay ?label false (t :: ts) O frame0 w1] =>
            pose proof (replay_ok label false (t :: ts) O frame0 w1) as Hr;
            pose proof (replay_apply_all label (t :: ts) O frame0 w1) as Ha;
            destruct (replay label false (t :: ts) O frame0 w1)
              as [[df|e] w3']; [|done]
        end.
        injection E3 as <- <- <-. cbn [fst] in Ha.
        by rewrite (Hr _ _ eq_refl). }
  destruct H3 as (-> & -> & H3). clear E3.
  unfold bind at 1, alloc_dict at 1, alloc.
  cbn [with_dicts with_heap heap dicts].
  intros [= <- <-].
  exists m, src, n, w1, frame0, nRows0, sparkDF.
  repeat split; try done.
Qed.

Lemma __init___run path0 a w m src n w1 frame0 nRows0 sparkDF :
  registry_entry path0 (reCache a) w = (Ok (m, src, n), w1) ->
  match a_initSparkDF a with
  | Some df =>
      frame0 = df
      /\ nRows0 = match nRows_kw a with Some x => x | None => None end
  | None => nRows_kw a = None /\ frame0 = src /\ nRows0 = Some n
  end ->
  match a_sparkDF a with
  | Some df => sparkDF = df
  | None => apply_all (a_sparkDFTransforms a) frame0 = Ok sparkDF
  end ->
  __init__ path0 a w
  = (Ok (fresh (dom (heap w1))),
     with_heap
       (insert (fresh (dom (heap w1)))
          (constructed path0 a m src n frame0 nRows0 sparkDF
             (fresh (dom (dicts w1)))))
       (with_dicts (insert (fresh (dom (dicts w1))) ∅) w1)).
Proof.
  intros Hreg Hf Hs. unfold __init__.
  rewrite (bind_ok _ _ _ _ _ Hreg).
  assert (E2 :
    (match a_initSparkDF a with
     | Some df =>
         ret (df, match nRows_kw a with Some r => r | None => None end)
     | None =>
         match nRows_kw a with
         | Some _ => raise TypeError
         | None => ret (src, Some n)
         end
     end) w1 = (Ok (frame0, nRows0), w1)).
  { destruct (a_initSparkDF a) as [df|].
    - by destruct Hf as [-> ->].
    - by destruct Hf as (-> & -> & ->). }
  rewrite (bind_ok _ _ _ _ _ E2).
  unfold constructed.
  destruct (a_sparkDF a) as [df|].
  - subst sparkDF. reflexivity.
  - destruct (a_sparkDFTransforms a) as [|t ts] eqn:Ets.
    + cbn in Hs. injection Hs as <-. reflexivity.
    + unfold bind at 1. unfold bind at 1.
      rewrite (replay_run _ _ _ _ _ _ Hs). reflexivity.
Qed.

(** *** Sets of strings *)

Lemma elem_of_set_add y x s : y ∈ set_add x s <-> y = x \/ y ∈ s.
Proof.
  unfold set_add. destruct (decide (x ∈ s)) as [Hin|Hnin].
  - rewrite bool_decide_eq_true_2 by done. split; [by right|].
    intros [->|H]; done.
  - rewrite bool_decide_eq_false_2 by done.
    rewrite elem_of_app, list_elem_of_singleton. tauto.
Qed.

Lemma elem_of_set_fold l : forall acc y,
  y ∈ fold_left (fun s x => set_add x s) l acc <-> y ∈ acc \/ y ∈ l.
Proof.
  induction l as [|x l IH]; intros acc y; cbn.
  - rewrite elem_of_nil. tauto.
  - rewrite IH, elem_of_set_add, elem_of_cons. tauto.
Qed.

Lemma elem_of_set_of l y : y ∈ set_of l <-> y ∈ l.
Proof. unfold set_of. rewrite elem_of_set_fold, elem_of_nil. tauto. Qed.

Lemma set_fold_length l : forall acc,
  (length (fold_left (fun s x => set_add x s) l acc) <= length acc + length l)%nat.
Proof.
  induction l as [|x l IH]; intros acc; cbn; [lia|].
  etrans; [apply IH|]. unfold set_add.
  destruct (bool_decide (x ∈ acc)); rewrite ?length_app; cbn; lia.
Qed.

Lemma set_of_length l : (length (set_of l) <= length l)%nat.
Proof. apply (set_fold_length l []). Qed.

Lemma set_fold_distinct l : forall acc,
  NoDup (acc ++ l) -> fold_left (fun s x => set_add x s) l acc = acc ++ l.
Proof.
  induction l as [|x l IH]; intros acc Hnd; cbn.
  - by rewrite app_nil_r.
  - assert (Hx : x ∉ acc).
    { apply NoDup_app in Hnd as (_ & Hd & _). intros Hin.
      apply (Hd x Hin), list_elem_of_here. }
    unfold set_add. rewrite bool_decide_eq_false_2 by done.
    rewrite IH; rewrite <- app_assoc; done.
Qed.

Lemma set_of_distinct l : NoDup l -> set_of l = l.
Proof. intros H. apply (set_fold_distinct l []). done. Qed.

(** *** The metadata of a path that has pieces, or none *)

Lemma discover_has_pieces path pieces :
  let m := discover path pieces in
  1 <= nPieces m
  /\ pieceSubPaths m <> []
  /\ Z.of_nat (length (pieceSubPaths m)) <= nPieces m.
Proof.
  unfold discover. destruct pieces as [|first rest]; cbn zeta.
  - cbn. repeat split; try lia. done.
  - cbn [nPieces pieceSubPaths]. split; [cbn [length]; lia|]. split.
    + intros E.
      assert (H : str_drop (String.length path + 1) first
                  ∈ set_of (map (str_drop (String.length path + 1))
                                (first :: rest))).
      { apply elem_of_set_of. apply list_elem_of_here. }
      rewrite E in H. by apply elem_of_nil in H.
    + pose proof (set_of_length
                    (map (str_drop (String.length path + 1)) (first :: rest))).
      rewrite length_map in H. lia.
Qed.

(** X5.  A path that has been loaded is served from the registry: a later
    [load] of the same path, whatever has happened to the files and to the
    other handles in between, asks neither the file reader nor the engine.
    It returns a new object that holds the handle of the first load with a
    piece dictionary of its own, and leaves the registry as it was. *)
Theorem a_second_load_is_served_from_the_registry path w r1 w1 w2 :
  load path w = (Ok r1, w1) ->
  _CACHE w2 !! path = _CACHE w1 !! path ->
  exists h1 r2 d2 w3,
    heap w1 !! r1 = Some h1
    /\ load path w2 = (Ok r2, w3)
    /\ (r2 ∉ dom (heap w2))
    /\ (d2 ∉ dom (dicts w2))
    /\ heap w3 = <[r2 := with_cache (with_pieceADFs d2) h1]> (heap w2)
    /\ _CACHE w3 = _CACHE w2
    /\ copies w3 = copies w2.
Proof.
  intros E1 Hsame.
  destruct (__init___inv _ _ _ _ _ E1)
    as (m & src & n & w0 & frame0 & nRows0 & sparkDF
        & Hreg & Hf & Hs & -> & ->).
  cbn [init_args a_initSparkDF a_sparkDF a_sparkDFTransforms nRows_kw] in Hf, Hs.
  destruct Hf as (_ & -> & ->). cbn in Hs. injection Hs as <-.
  apply registry_entry_recorded in Hreg.
  cbn [_CACHE with_heap with_dicts] in Hsame. rewrite Hreg in Hsame.
  pose proof (registry_entry_loaded _ _ _ _ _ Hsame) as Hreg2.
  eexists _, (fresh (dom (heap w2))), (fresh (dom (dicts w2))), _.
  split; [cbn; by rewrite lookup_insert_eq|].
  split.
  { unfold load.
    apply (__init___run path (init_args [] [] true None) w2 m src n w2
             src (Some n) src Hreg2); done. }
  split; [apply is_fresh|]. split; [apply is_fresh|].
  split; [reflexivity|]. split; reflexivity.
Qed.

(** X6.  [reCache=True] is a construction after the entry of the path has
    been forgotten: the outcome and the world after it are the same. *)
Theorem reCache_is_loading_after_forgetting path a w :
  __init__ path (with_reCache true a) w
  = __init__ path (with_reCache false a) (with_CACHE (delete path) w).
Proof.
  assert (Hreg :
    registry_entry path true w
    = registry_entry path false (with_CACHE (delete path) w)).
  { rewrite (registry_entry_discovers path true w) by (by left).
    rewrite (registry_entry_discovers path false (with_CACHE (delete path) w))
      by (right; left; cbn; apply lookup_delete_eq).
    cbn [copies with_CACHE].
    assert (Hins : forall x,
      with_CACHE (insert path x) (with_CACHE (delete path) w)
      = with_CACHE (insert path x) w).
    { intros x. rewrite with_CACHE_twice. apply with_CACHE_ext.
      apply insert_delete_eq. }
    change ({| heap := heap w; dicts := dicts w;
               _CACHE := delete path (_CACHE w); copies := copies w;
               stdout := stdout w; n_uuid := n_uuid w;
               n_random := n_random w |})
      with (with_CACHE (delete path) w).
    destruct (ParquetDataset_pieces (copies w) path) as [pieces|e];
      [|by rewrite Hins].
    cbn zeta.
    destruct (spark_read_load (copies w) (spark_path path)); by rewrite Hins. }
  unfold __init__, with_reCache.
  cbn [reCache a_initSparkDF a_sparkDF a_sparkDFTransforms a_pandasDFTransforms
       reprSampleMinNPieces verbose alias nRows_kw].
  unfold bind at 1. rewrite Hreg. reflexivity.
Qed.

(** X7.  When the file reader lists the pieces of a path but the engine
    fails to load it, the constructor raises the engine's error and leaves a
    half-built entry in the registry.  From then on every construction from
    that path without [reCache] raises at once, without reading anything and
    whatever the state of the files. *)
Theorem a_failed_engine_load_blocks_later_loads path a w pieces e :
  reCache a = true \/ _CACHE w !! path = None ->
  ParquetDataset_pieces (copies w) path = Ok pieces ->
  spark_read_load (copies w) (spark_path path) = Raise e ->
  __init__ path a w
  = (Raise e, with_CACHE (insert path (NsListed (discover path pieces))) w)
  /\ forall a' w2,
       _CACHE w2 !! path = Some (NsListed (discover path pieces)) ->
       reCache a' = false ->
       exists e', __init__ path a' w2 = (Raise e', w2).
Proof.
  intros Hmiss Hp Hl. split.
  - unfold __init__. unfold bind at 1.
    rewrite registry_entry_discovers by tauto.
    by rewrite Hp, Hl.
  - intros a' w2 Hc Hre. exists AttributeError.
    unfold __init__, registry_entry. rewrite Hre.
    unfold bind, gets. by rewrite Hc.
Qed.

(** X8.  When the file reader fails on a path, the constructor raises its
    error and leaves an empty entry in the registry, and an empty entry is
    no entry: a later construction from that path reads again. *)
Theorem a_failed_listing_is_tried_again path a w e :
  reCache a = true \/ _CACHE w !! path = None ->
  ParquetDataset_pieces (copies w) path = Raise e ->
  __init__ path a w = (Raise e, with_CACHE (insert path NsEmpty) w)
  /\ forall a' w2,
       _CACHE w2 !! path = Some NsEmpty ->
       __init__ path a' w2 = __init__ path a' (with_CACHE (delete path) w2).
Proof.
  intros Hmiss Hp. split.
  - unfold __init__. unfold bind at 1.
    rewrite registry_entry_discovers by tauto.
    by rewrite Hp.
  - intros a' w2 Hc.
    assert (Hreg :
      registry_entry path (reCache a') w2
      = registry_entry path (reCache a') (with_CACHE (delete path) w2)).
    { rewrite (registry_entry_discovers path _ w2) by tauto.
      rewrite (registry_entry_discovers path _ (with_CACHE (delete path) w2))
        by (right; left; cbn; apply lookup_delete_eq).
      cbn [copies with_CACHE].
      assert (Hins : forall x,
        with_CACHE (insert path x) (with_CACHE (delete path) w2)
        = with_CACHE (insert path x) w2).
      { intros x. rewrite with_CACHE_twice. apply with_CACHE_ext.
        apply insert_delete_eq. }
      change ({| heap := heap w2; dicts := dicts w2;
                 _CACHE := delete path (_CACHE w2); copies := copies w2;
                 stdout := stdout w2; n_uuid := n_uuid w2;
                 n_random := n_random w2 |})
        with (with_CACHE (delete path) w2).
      destruct (ParquetDataset_pieces (copies w2) path) as [pieces|e'];
        [|by rewrite Hins].
      cbn zeta.
      destruct (spark_read_load (copies w2) (spark_path path));
        by rewrite Hins. }
    unfold __init__. unfold bind at 1. rewrite Hreg. reflexivity.
Qed.

(** X9.  A handle constructed by reading its path has at least one piece
    and a sub-path for it, no more sub-paths than pieces, and a minimum
    number of pieces to sample that does not exceed the number of pieces;
    and the registry holds the entry it was built from. *)
Theorem a_constructed_handle_has_pieces path a w r w' :
  reCache a = true \/ _CACHE w !! path = None ->
  __init__ path a w = (Ok r, w') ->
  exists h,
    heap w' !! r = Some h
    /\ 1 <= nPieces (meta h)
    /\ pieceSubPaths (meta h) <> []
    /\ Z.of_nat (length (pieceSubPaths (meta h))) <= nPieces (meta h)
    /\ _reprSampleMinNPieces h <= nPieces (meta h)
    /\ _CACHE w' !! path = Some (NsLoaded (meta h) (_srcSparkDF h) (_srcNRows h)).
Proof.
  intros Hmiss E.
  destruct (__init___inv _ _ _ _ _ E)
    as (m & src & n & w1 & frame0 & nRows0 & sparkDF
        & Hreg & _ & _ & -> & ->).
  pose proof (registry_entry_recorded _ _ _ _ _ _ _ Hreg) as Hrec.
  rewrite registry_entry_discovers in Hreg by tauto.
  destruct (ParquetDataset_pieces (copies w) path) as [pieces|]; [|done].
  cbn zeta in Hreg.
  destruct (spark_read_load (copies w) (spark_path path)); [|done].
  injection Hreg as <- <- <- <-.
  destruct (discover_has_pieces path pieces) as (H1 & H2 & H3).
  eexists. split; [cbn; by rewrite lookup_insert_eq|].
  cbn [constructed meta _reprSampleMinNPieces _srcSparkDF _srcNRows].
  repeat split; try done. lia.
Qed.

End Facts.

Import Reference.

(** The theorem for [data], loaded a second time. *)
Lemma a_second_load_witness :
  exists h1 r2 d2 w3,
    heap (world_of data_handle) !! 0%nat = Some h1
    /\ load "data" (world_of data_handle) = (Ok r2, w3)
    /\ (r2 ∉ dom (heap (world_of data_handle)))
    /\ (d2 ∉ dom (dicts (world_of data_handle)))
    /\ heap w3
       = <[r2 := with_cache (with_pieceADFs d2) h1]> (heap (world_of data_handle))
    /\ _CACHE w3 = _CACHE (world_of data_handle)
    /\ copies w3 = copies (world_of data_handle).
Proof.
  apply (@a_second_load_is_served_from_the_registry Reference.ext
           "data" world0 0%nat (world_of data_handle) (world_of data_handle)).
  - by_evaluation.
  - reflexivity.
Defined.

(** The theorem for a file that the reader lists and the engine cannot
    read. *)
Lemma a_failed_engine_load_witness :
  let path := "bad/date=2019/corrupt.parquet" in
  let a := init_args [] [] true None in
  __init__ path a world0
  = (Raise (ExternalError "cannot read"),
     with_CACHE (insert path (NsListed (discover path [path]))) world0)
  /\ forall a' w2,
       _CACHE w2 !! path = Some (NsListed (discover path [path])) ->
       reCache a' = false ->
       exists e', __init__ path a' w2 = (Raise e', w2).
Proof.
  intros path a.
  apply (@a_failed_engine_load_blocks_later_loads Reference.ext
           path a world0 [path] (ExternalError "cannot read")).
  - right. reflexivity.
  - by_evaluation.
  - by_evaluation.
Defined.

(** The theorem for a path under which there is nothing, with a reader that
    refuses such a path. *)
Lemma a_failed_listing_witness :
  let a := @init_args Strict.ext [] [] true None in
  @__init__ Strict.ext "nowhere" a Strict.world0
  = (Raise (ExternalError "no such path"),
     with_CACHE (insert "nowhere" NsEmpty) Strict.world0)
  /\ forall a' w2,
       _CACHE w2 !! "nowhere" = Some NsEmpty ->
       @__init__ Strict.ext "nowhere" a' w2
       = @__init__ Strict.ext "nowhere" a' (with_CACHE (delete "nowhere") w2).
Proof.
  intros a.
  apply (@a_failed_listing_is_tried_again Strict.ext
           "nowhere" a Strict.world0 (ExternalError "no such path")).
  - right. reflexivity.
  - by_evaluation.
Defined.

(** The theorem for the first load of [data]. *)
Lemma a_constructed_handle_witness :
  exists h,
    heap (world_of data_handle) !! 0%nat = Some h
    /\ 1 <= nPieces (meta h)
    /\ pieceSubPaths (meta h) <> []
    /\ Z.of_nat (length (pieceSubPaths (meta h))) <= nPieces (meta h)
    /\ _reprSampleMinNPieces h <= nPieces (meta h)
    /\ _CACHE (world_of data_handle) !! "data"
       = Some (NsLoaded (meta h) (_srcSparkDF h) (_srcNRows h)).
Proof.
  apply (@a_constructed_handle_has_pieces Reference.ext
           "data" (init_args [] [] true None) world0 0%nat
           (world_of data_handle)).
  - right. reflexivity.
  - by_evaluation.
Defined.

End RegistryFacts.

(** ** Sub-paths and piece paths *)

Module DiscoveryFacts.

Import RegistryFacts.

Section Facts.

Context `{Ext : External}.

Lemma str_drop_prefix p s :
  str_drop (String.length p + 1) (p +:+ "/" +:+ s) = s.
Proof. induction p as [|c p IH]; [done|]. exact IH. Qed.

Lemma path_join_plain a b :
  a <> "" -> ends_with_slash a = false -> startswith b "/" = false ->
  path_join a b = a +:+ "/" +:+ b.
Proof.
  intros Ha He Hb. unfold path_join. rewrite Hb.
  destruct a as [|c a]; [done|].
  fold (ends_with_slash (String c a)). by rewrite He.
Qed.

Lemma NoDup_map_inj {A B} (f : A -> B) (l : list A) :
  (forall x y, f x = f y -> x = y) -> NoDup l -> NoDup (map f l).
Proof.
  intros Hf. induction 1 as [|x l Hx Hl IH]; cbn; [apply NoDup_nil_2|].
  apply NoDup_cons_2; [|done].
  intros Hin. apply list_elem_of_In, in_map_iff in Hin as (y & Hy & Hin).
  apply Hf in Hy. subst y. by apply Hx, list_elem_of_In.
Qed.

(** X10.  When the file reader lists the pieces of [path] as [path/sub] for
    distinct sub-paths [sub], the metadata holds exactly these sub-paths, as
    many pieces as sub-paths, and the paths [os.path.join(path, sub)] of the
    sub-paths are the paths of the pieces again. *)
Theorem discover_of_distinct_pieces path subs :
  path <> "" ->
  ends_with_slash path = false ->
  subs <> [] ->
  NoDup subs ->
  Forall (fun s => startswith s "/" = false) subs ->
  let m := discover path (map (fun s => path +:+ "/" +:+ s) subs) in
  pieceSubPaths m ≡ₚ subs
  /\ nPieces m = Z.of_nat (length (pieceSubPaths m))
  /\ piecePaths m ≡ₚ map (path_join path) (pieceSubPaths m)
  /\ m_path m = None.
Proof.
  intros Hp He Hne Hnd Hs m.
  assert (Hsub : map (str_drop (String.length path + 1))
                     (map (fun s => path +:+ "/" +:+ s) subs) = subs).
  { rewrite map_map. rewrite <- (map_id subs) at 2.
    apply map_ext. intros s. apply str_drop_prefix. }
  assert (Hm1 : pieceSubPaths m = subs).
  { unfold m, discover. destruct subs as [|s0 rest]; [done|].
    cbn [map pieceSubPaths]. cbn [map] in Hsub. rewrite Hsub.
    by apply set_of_distinct. }
  split; [by rewrite Hm1|]. rewrite Hm1.
  unfold m, discover. destruct subs as [|s0 rest]; [done|].
  cbn [map nPieces piecePaths m_path]. split; [|split; [|done]].
  - by rewrite length_cons, length_map.
  - apply reflexive_eq. rewrite set_of_distinct.
    + change (map (fun s => path +:+ "/" +:+ s) (s0 :: rest)
              = map (path_join path) (s0 :: rest)).
      apply map_ext_Forall. eapply Forall_impl; [exact Hs|].
      intros s Hs0. cbn beta. symmetry. by apply path_join_plain.
    + change (NoDup (map (fun s => path +:+ "/" +:+ s) (s0 :: rest))).
      apply NoDup_map_inj; [|done].
      intros x y E. apply (inj (String.append path)) in E.
      by injection E.
Qed.

End Facts.

Import Reference.

(** The theorem for the four pieces of [data]. *)
Lemma discover_of_distinct_pieces_witness :
  let subs := ["date=2017/a.parquet"; "date=2018/b.parquet";
               "date=2019/c.parquet"; "date=2020/d.parquet"] in
  let m := discover "data" (map (fun s => "data" +:+ "/" +:+ s) subs) in
  pieceSubPaths m ≡ₚ subs
  /\ nPieces m = Z.of_nat (length (pieceSubPaths m))
  /\ piecePaths m ≡ₚ map (path_join "data") (pieceSubPaths m)
  /\ m_path m = None.
Proof.
  intros subs.
  apply (@discover_of_distinct_pieces Reference.ext "data" subs).
  - discriminate.
  - reflexivity.
  - discriminate.
  - unfold subs. SubsetFacts.distinct_strings.
  - unfold subs. repeat constructor.
Defined.

End DiscoveryFacts.

(** ** The handle that a transform builds *)

Module ChainFacts.

Import SubsetFacts TransformFacts RegistryFacts.

Section Facts.

Context `{Ext : External}.

(** The registry entry of a path is obtained without touching anything but
    the registry. *)
Lemma registry_entry_only_registry path reCache w :
  exists c, snd (registry_entry path reCache w) = with_CACHE (fun _ => c) w.
Proof.
  assert (Hd : reCache = true \/ _CACHE w !! path = None
               \/ _CACHE w !! path = Some NsEmpty ->
               exists c, snd (registry_entry path reCache w)
                         = with_CACHE (fun _ => c) w).
  { intros H. rewrite registry_entry_discovers by done.
    destruct (ParquetDataset_pieces (copies w) path); [|by eexists].
    cbn zeta. destruct (spark_read_load (copies w) (spark_path path));
      by eexists. }
  destruct (_CACHE w !! path) as [ns|] eqn:Ec; [|apply Hd; tauto].
  destruct reCache; [apply Hd; tauto|].
  destruct ns as [|m|m src n]; [apply Hd; tauto| |].
  - exists (_CACHE w). unfold registry_entry, bind, gets. rewrite Ec. cbn.
    symmetry. by apply with_CACHE_same.
  - exists (_CACHE w). rewrite (registry_entry_loaded _ _ _ _ _ Ec). cbn.
    symmetry. by apply with_CACHE_same.
Qed.

Lemma transform_pair targ kw :
  (match targ with
   | TList l =>
       (l, match kw_inheritCache kw with Some b => b | None => false end
           || forallb is_Transformer l)
   | TOne (Transformer t) => ([Transformer t], true)
   | TOne (Callable f) =>
       ([Callable f],
        match kw_inheritCache kw with Some b => b | None => false end)
   end) = (additional targ, inherits_cache targ kw).
Proof. by destruct targ as [l|[t|f]]. Qed.

Lemma transform_nRows targ kw :
  match kw_inheritNRows kw with
  | Some b => b
  | None => inherits_cache targ kw
  end = hands_over_nRows targ kw.
Proof.
  unfold hands_over_nRows, inherits_cache.
  destruct (kw_inheritNRows kw); [done|]. by destruct targ as [l|[t|f]].
Qed.

(** What [transform] returns, and the world after it. *)
Lemma transform_result self targ df0 parg kw w h r w' :
  heap w !! self = Some h ->
  transform self targ df0 parg kw w = (Ok r, w') ->
  exists m src n w1 sparkDF,
    registry_entry (path h) false w = (Ok (m, src, n), w1)
    /\ match df0 with
       | Some df => sparkDF = df
       | None => apply_all (additional targ) (_sparkDF h) = Ok sparkDF
       end
    /\ r = fresh (dom (heap w))
    /\ heap w' = <[r := transformed h targ parg kw m src n sparkDF]> (heap w)
    /\ dicts w' = <[fresh (dom (dicts w)) := ∅]> (dicts w)
    /\ _CACHE w' = _CACHE w1
    /\ copies w' = copies w
    /\ stdout w' = stdout w.
Proof.
  intros Hh. unfold transform.
  rewrite (bind_ok _ _ _ _ _ (deref_ok _ _ _ Hh)).
  rewrite transform_pair, transform_nRows.
  fold (additional_local parg).
  unfold bind at 1.
  match goal with
  | |- (match ?m w with _ => _ end = _) -> _ =>
      destruct (m w) as [[sparkDF|e] w0] eqn:E0; [|done]
  end.
  assert (H0 : w0 = w
               /\ match df0 with
                  | Some df => sparkDF = df
                  | None => apply_all (additional targ) (_sparkDF h) = Ok sparkDF
                  end).
  { destruct df0 as [df|].
    - by injection E0 as <- <-.
    - match type of E0 with
      | replay ?label false ?ts O ?df w = _ =>
          pose proof (replay_ok label false ts O df w _ _ E0) as Hr;
          pose proof (replay_apply_all label ts O df w) as Ha
      end.
      rewrite E0 in Ha. cbn in Ha. done. }
  destruct H0 as [-> Hdf]. clear E0.
  unfold bind at 1.
  match goal with
  | |- (match __init__ ?p ?a w with _ => _ end = _) -> _ =>
      destruct (__init__ p a w) as [[r0|e] w2] eqn:E1; [|done]
  end.
  destruct (__init___inv _ _ _ _ _ E1)
    as (m & src & n & w1 & frame0 & nRows0 & sparkDF'
        & Hreg & Hf & Hs & Hr0 & Hw2).
  cbn [a_initSparkDF a_sparkDF nRows_kw reCache] in Hreg, Hf, Hs.
  destruct Hf as [-> ->]. subst sparkDF'.
  destruct (registry_entry_only_registry (path h) false w) as (c & Hc).
  rewrite Hreg in Hc. cbn [snd] in Hc. subst w1.
  cbn [heap dicts with_CACHE] in Hr0, Hw2.
  assert (Hne : r0 <> self).
  { intros ->. apply (is_fresh (dom (heap w))). rewrite <- Hr0.
    apply elem_of_dom. by exists h. }
  set (hc := constructed _ _ _ _ _ _ _ _ _) in Hw2.
  assert (Hself2 : heap w2 !! self = Some h).
  { rewrite Hw2. cbn. by rewrite lookup_insert_ne. }
  assert (Hr2 : heap w2 !! r0 = Some hc).
  { rewrite Hw2. cbn. by rewrite lookup_insert_eq. }
  assert (Hfinal : forall hx (wx : World),
    heap wx = <[r0 := hx]> (heap w) ->
    dicts wx = dicts w2 -> _CACHE wx = _CACHE w2 ->
    copies wx = copies w2 -> stdout wx = stdout w2 ->
    with_cache (with_pieceADFs (c_pieceADFs (_cache h))) hx
    = transformed h targ parg kw m src n sparkDF ->
    (let* h' := deref self in
     update r0 (with_cache (with_pieceADFs (c_pieceADFs (_cache h'))));;
     ret r0) wx = (Ok r, w') ->
    exists m0 src0 n0 w1 sparkDF0,
      registry_entry (path h) false w = (Ok (m0, src0, n0), w1)
      /\ match df0 with
         | Some df => sparkDF0 = df
         | None => apply_all (additional targ) (_sparkDF h) = Ok sparkDF0
         end
      /\ r = fresh (dom (heap w))
      /\ heap w'
         = <[r := transformed h targ parg kw m0 src0 n0 sparkDF0]> (heap w)
      /\ dicts w' = <[fresh (dom (dicts w)) := ∅]> (dicts w)
      /\ _CACHE w' = _CACHE w1
      /\ copies w' = copies w
      /\ stdout w' = stdout w).
  { intros hx wx Hhx Hdx Hcx Hpx Hsx Heq.
    assert (Hsx' : heap wx !! self = Some h).
    { rewrite Hhx. by rewrite lookup_insert_ne. }
    assert (Hrx : heap wx !! r0 = Some hx).
    { rewrite Hhx. by rewrite lookup_insert_eq. }
    rewrite (bind_ok _ _ _ _ _ (deref_ok _ _ _ Hsx')).
    rewrite (bind_ok _ _ _ _ _ (update_heap _ _ _ _ Hrx)).
    intros [= <- <-].
    exists m, src, n, (with_CACHE (fun _ => c) w), sparkDF.
    cbn [heap dicts _CACHE copies stdout with_heap].
    rewrite Hhx, insert_insert_eq, Heq, Hdx, Hcx, Hpx, Hsx, Hw2.
    cbn. rewrite Hr0. repeat split; done. }
  unfold bind at 1.
  destruct (inherits_cache targ kw) eqn:Einh.
  - unfold _inheritCache.
    rewrite (bind_ok _ _ _ _ _ (deref_ok _ _ _ Hself2)).
    rewrite (update_heap _ _ _ _ Hr2).
    apply (Hfinal (with_cache (with_reprSample (c_reprSample (_cache h))) hc)
                  (with_heap
                     (insert r0 (with_cache
                                   (with_reprSample (c_reprSample (_cache h)))
                                   hc)) w2));
      try reflexivity.
    + cbn [heap with_heap]. rewrite Hw2. cbn. by rewrite insert_insert_eq.
    + unfold hc, constructed, transformed. cbn. by rewrite Einh.
  - cbn [ret].
    apply (Hfinal hc w2); try reflexivity.
    + rewrite Hw2. reflexivity.
    + unfold hc, constructed, transformed. cbn. by rewrite Einh.
Qed.

(** *** A transform that raises *)

Lemma replay_raise label ts : forall i df w e,
  apply_all ts df = Raise e ->
  exists k,
    (k < length ts)%nat
    /\ replay label false ts i df w
       = (Raise e, with_stdout (fun out => out ++ [label (i + k)%nat]) w).
Proof.
  induction ts as [|t ts IH]; intros i df w e; cbn; [done|].
  destruct (apply_transform t df) as [df'|e0].
  - intros H. destruct (IH (S i) df' w e H) as (k & Hk & Hr).
    exists (S k). split; [lia|]. rewrite Hr.
    by replace (i + S k)%nat with (S i + k)%nat by lia.
  - intros [= <-]. exists O. split; [lia|].
    by replace (i + 0)%nat with i by lia.
Qed.

(** X11.  When one of the transforms given to [transform] raises on the
    frame it is applied to, [transform] raises the same error after one
    line on standard output, and nothing else has happened: no handle was
    built or changed, the registry, the dictionaries and the files are as
    they were. *)
Theorem a_failing_transform_builds_nothing self targ parg kw w h e :
  heap w !! self = Some h ->
  apply_all (additional targ) (_sparkDF h) = Raise e ->
  exists line,
    transform self targ None parg kw w
    = (Raise e, with_stdout (fun out => out ++ [line]) w).
Proof.
  intros Hh Hfail. unfold transform.
  rewrite (bind_ok _ _ _ _ _ (deref_ok _ _ _ Hh)).
  rewrite transform_pair, transform_nRows.
  unfold bind at 1.
  match goal with
  | |- context [replay ?label false ?ts O ?df w] =>
      destruct (replay_raise label ts O df w e Hfail) as (k & _ & Hr);
      rewrite Hr
  end.
  by eexists.
Qed.

(** *** Raising leaves the objects alone *)

Lemma __init___raise_heap path0 a w e w' :
  __init__ path0 a w = (Raise e, w') -> heap w' = heap w.
Proof.
  unfold __init__. unfold bind at 1.
  pose proof (registry_entry_heap path0 (reCache a) w) as H1.
  destruct (registry_entry path0 (reCache a) w) as [[[[m src] n]|e0] w1];
    cbn in H1; [|by intros [= <- <-]].
  unfold bind at 1.
  match goal with
  | |- (match ?m w1 with _ => _ end = _) -> _ =>
      destruct (m w1) as [[[frame0 nRows0]|e0] w2] eqn:E2
  end.
  2: { intros [= <- <-].
       destruct (a_initSparkDF a); [done|].
       destruct (nRows_kw a); [|done]. by injection E2 as <- <-. }
  assert (H2 : w2 = w1).
  { destruct (a_initSparkDF a); [by injection E2|].
    destruct (nRows_kw a); [done|]. by injection E2. }
  subst w2. clear E2.
  unfold bind at 1.
  match goal with
  | |- (match ?m w1 with _ => _ end = _) -> _ =>
      destruct (m w1) as [[[sparkDF recache]|e0] w3] eqn:E3
  end.
  - unfold bind, alloc_dict, alloc. done.
  - intros [= <- <-]. rewrite <- H1.
    destruct (a_sparkDF a); [done|].
    destruct (a_sparkDFTransforms a) as [|t ts]; [done|].
    unfold bind in E3.
    match type of E3 with
    | context [replay ?label false (t :: ts) O frame0 w1] =>
        pose proof (replay_heap label false (t :: ts) O frame0 w1) as Hr;
        destruct (replay label false (t :: ts) O frame0 w1) as [[df|e1] w3'];
        [done|]
    end.
    by injection E3 as <- <-.
Qed.

Lemma transform_raise_heap self targ df0 parg kw w h e w' :
  heap w !! self = Some h ->
  transform self targ df0 parg kw w = (Raise e, w') ->
  heap w' = heap w.
Proof.
  intros Hh E.
  destruct (transform self targ df0 parg kw w) as [[r|e0] w0] eqn:Et;
    [done|]. injection E as -> ->.
  revert Et. unfold transform.
  rewrite (bind_ok _ _ _ _ _ (deref_ok _ _ _ Hh)).
  rewrite transform_pair, transform_nRows.
  unfold bind at 1.
  match goal with
  | |- (match ?m w with _ => _ end = _) -> _ =>
      destruct (m w) as [[sparkDF|e0] w0] eqn:E0
  end.
  2: { intros [= <- <-]. destruct df0 as [df|]; [done|].
       match type of E0 with
       | replay ?label false ?ts O ?df w = _ =>
           pose proof (replay_heap label false ts O df w) as Hr
       end.
       by rewrite E0 in Hr. }
  assert (H0 : heap w0 = heap w).
  { destruct df0 as [df|]; [by injection E0 as <- <-|].
    match type of E0 with
    | replay ?label false ?ts O ?df w = _ =>
        pose proof (replay_heap label false ts O df w) as Hr
    end.
    by rewrite E0 in Hr. }
  unfold bind at 1.
  match goal with
  | |- (match __init__ ?p ?a w0 with _ => _ end = _) -> _ =>
      destruct (__init__ p a w0) as [[r0|e0] w1] eqn:E1
  end.
  2: { intros [= <- <-]. rewrite <- H0. by apply (__init___raise_heap _ _ _ _ _ E1). }
  apply __init___spec in E1 as (Hfresh & hn & Hw1 & _).
  rewrite H0 in Hfresh, Hw1.
  assert (Hne : r0 <> self).
  { intros ->. apply Hfresh. apply elem_of_dom. by exists h. }
  assert (Hself1 : heap w1 !! self = Some h).
  { by rewrite Hw1, lookup_insert_ne. }
  assert (Hr1 : heap w1 !! r0 = Some hn).
  { by rewrite Hw1, lookup_insert_eq. }
  unfold bind at 1.
  destruct (inherits_cache targ kw).
  - unfold _inheritCache.
    rewrite (bind_ok _ _ _ _ _ (deref_ok _ _ _ Hself1)).
    rewrite (update_heap _ _ _ _ Hr1).
    match goal with
    | |- context [bind (deref self) _ ?w2] =>
        assert (Hself2 : heap w2 !! self = Some h)
          by (cbn; by rewrite lookup_insert_ne);
        rewrite (bind_ok _ _ _ _ _ (deref_ok _ _ _ Hself2))
    end.
    done.
  - cbn [ret].
    rewrite (bind_ok _ _ _ _ _ (deref_ok _ _ _ Hself1)). done.
Qed.

Lemma with_heap_same f w : f (heap w) = heap w -> with_heap f w = w.
Proof. intros E. unfold with_heap. rewrite E. apply world_eta. Qed.

Lemma with_alias_own h : with_alias (_alias h) h = h.
Proof. by destruct h. Qed.

(** X12.  [sql] gives the handle the temporary alias only for the time of
    the call: when it raises, for whatever reason, every object holds what
    it held before.  A query that does not begin with [select], whatever its
    case and the white space around it, is refused with an assertion error
    before the engine is asked, and the world is as it was. *)
Theorem sql_that_raises_changes_no_handle self query tempAlias kw w h :
  heap w !! self = Some h ->
  (forall e w',
      sql self query tempAlias kw w = (Raise e, w') -> heap w' = heap w)
  /\ (startswith (lower (strip query)) "select" = false ->
      sql self query tempAlias kw w = (Raise AssertionError, w)).
Proof.
  intros Hh.
  assert (Hrestore : forall (wb : World) hb e,
    heap wb !! self = Some hb ->
    with_alias (_alias h) hb = h ->
    <[self := h]> (heap wb) = heap w ->
    heap (snd ((set_alias self (_alias h);; @raise _ nat e) wb)) = heap w
    /\ fst ((set_alias self (_alias h);; @raise _ nat e) wb) = Raise e).
  { intros wb hb e Hb Ha Hw. unfold set_alias.
    rewrite (bind_ok _ _ _ _ _ (update_heap _ _ _ _ Hb)).
    cbn. by rewrite Ha. }
  set (wa := with_heap (insert self (with_alias (Some tempAlias) h)) w).
  assert (Hha : heap wa !! self = Some (with_alias (Some tempAlias) h)).
  { unfold wa. cbn. by rewrite lookup_insert_eq. }
  assert (Hwa : <[self := h]> (heap wa) = heap w).
  { unfold wa. cbn. rewrite insert_insert_eq. by apply insert_id. }
  split.
  - intros e w'. unfold sql.
    rewrite (bind_ok _ _ _ _ _ (deref_ok _ _ _ Hh)).
    unfold set_alias at 1.
    rewrite (bind_ok _ _ _ _ _ (update_heap _ _ _ _ Hh)).
    fold wa. unfold try_except.
    match goal with
    | |- (match ?body wa with _ => _ end = _) -> _ =>
        destruct (body wa) as [[r0|e0] wb] eqn:Eb; [done|]
    end.
    assert (Hb : exists hb,
      heap wb !! self = Some hb
      /\ with_alias (_alias h) hb = h
      /\ <[self := h]> (heap wb) = heap w).
    { revert Eb.
      destruct (startswith (lower (strip query)) "select").
      2: { cbn. intros [= <- <-]. eexists. split; [exact Hha|].
           split; [apply with_alias_restore|done]. }
      cbn [assert]. rewrite (bind_ok _ _ wa tt wa) by done.
      unfold bind at 1, lift at 1.
      destruct (spark_sql query tempAlias (_sparkDF h)) as [df|e1].
      2: { intros [= <- <-]. eexists. split; [exact Hha|].
           split; [apply with_alias_restore|done]. }
      unfold set_alias at 1.
      rewrite (bind_ok _ _ _ _ _ (update_heap _ _ _ _ Hha)).
      rewrite with_alias_restore.
      set (wc := with_heap (insert self h) wa).
      assert (Hhc : heap wc = heap w) by exact Hwa.
      assert (Hsc : heap wc !! self = Some h) by (by rewrite Hhc).
      intros Et.
      pose proof (transform_raise_heap _ _ _ _ _ _ _ _ _ Hsc Et) as Hheap.
      exists h. rewrite Hheap, Hhc. split; [done|].
      split; [apply with_alias_own|by apply insert_id]. }
    destruct Hb as (hb & Hb1 & Hb2 & Hb3).
    destruct (Hrestore wb hb e0 Hb1 Hb2 Hb3) as [H1 _].
    intros E. rewrite E in H1. exact H1.
  - intros Hsel. unfold sql.
    rewrite (bind_ok _ _ _ _ _ (deref_ok _ _ _ Hh)).
    unfold set_alias at 1.
    rewrite (bind_ok _ _ _ _ _ (update_heap _ _ _ _ Hh)).
    fold wa. unfold try_except. rewrite Hsel. cbn [assert].
    unfold bind at 1, raise at 1.
    unfold set_alias.
    rewrite (bind_ok _ _ _ _ _ (update_heap _ _ _ _ Hha)).
    rewrite with_alias_restore. unfold raise. f_equal.
    unfold wa. change (with_heap ?f (with_heap ?g w))
      with (with_heap (fun hp => f (g hp)) w).
    apply with_heap_same. rewrite insert_insert_eq. by apply insert_id.
Qed.

(** *** What the new handle inherits *)

Lemma inherited_row_count self targ parg kw w h r w' :
  heap w !! self = Some h ->
  transform self targ None parg kw w = (Ok r, w') ->
  exists hn,
    heap w' !! r = Some hn
    /\ heap w' !! self = Some h
    /\ c_nRows (_cache hn)
       = (if hands_over_nRows targ kw then c_nRows (_cache h) else None)
    /\ c_reprSample (_cache hn)
       = (if inherits_cache targ kw then c_reprSample (_cache h) else None)
    /\ apply_all (additional targ) (_sparkDF h) = Ok (_sparkDF hn)
    /\ _sparkDFTransforms hn = _sparkDFTransforms h ++ additional targ
    /\ _initSparkDF hn = _initSparkDF h.
Proof.
  intros Hh E.
  destruct (transform_result _ _ _ _ _ _ _ _ _ Hh E)
    as (m & src & n & w1 & sparkDF & _ & Hdf & Hr & Hheap & _).
  eexists. rewrite Hheap. split; [by rewrite lookup_insert_eq|].
  split.
  { rewrite lookup_insert_ne; [done|].
    intros <-. apply (is_fresh (dom (heap w))). rewrite <- Hr.
    apply elem_of_dom. by exists h. }
  cbn. done.
Qed.

Lemma plain_no_duplicate kw : plain kw -> duplicate_keyword kw = false.
Proof. intros [Hc Hn]. unfold duplicate_keyword. by rewrite Hc, Hn. Qed.

(** The comparison with ['*'], when it goes through, is list membership. *)
Lemma star_in_spec exprs star :
  star_in exprs = Ok star -> star = bool_decide (EStr "*" ∈ exprs).
Proof.
  induction exprs as [|[s|c] es IH]; cbn; [by intros [= <-]| |done].
  destruct (String.eqb_spec s "*") as [->|Hne].
  - intros [= <-]. symmetry. apply bool_decide_eq_true, list_elem_of_here.
  - intros E. rewrite (IH E). apply bool_decide_ext.
    rewrite elem_of_cons. split; [tauto|]. intros [[= <-]|H]; done.
Qed.

(** X13.  [filter], [withColumn], [drop] and the projection on a list of
    columns pass [inheritNRows=True] themselves: the row count cached on the
    original, if there is one, is the cached row count of the new handle,
    also when the operation removes rows.  [kw] holds no inheritance flag. *)
Theorem cache_keeping_calls_hand_over_the_cached_row_count
    self op kw w h r w' :
  heap w !! self = Some h ->
  plain kw ->
  passes_inheritance op = true ->
  run_op self op kw w = (Ok r, w') ->
  exists hn,
    heap w' !! r = Some hn
    /\ c_nRows (_cache hn) = c_nRows (_cache h)
    /\ c_reprSample (_cache hn) = c_reprSample (_cache h).
Proof.
  intros Hh Hkw Hop E.
  destruct op; try discriminate Hop; cbn [run_op] in E;
    unfold filter_rows, withColumn, drop_cols, __getitem__ in E;
    rewrite ?(plain_no_duplicate _ Hkw) in E;
    destruct (inherited_row_count _ _ _ _ _ _ _ _ Hh E)
      as (hn & Hr & _ & Hn & Hs & _);
    exists hn; (split; [done|]); cbn in Hn, Hs; done.
Qed.

(** X14.  [select] of expressions without ['*'] among them, and without an
    inheritance flag, forgets what was cached: the new handle has no cached
    row count and no representative sample, and its frame is the selection
    applied to the frame of the original. *)
Theorem select_without_star_forgets_the_row_count
    self e es kw w h r w' :
  heap w !! self = Some h ->
  plain kw ->
  EStr "*" ∉ e :: es ->
  select self (e :: es) kw w = (Ok r, w') ->
  exists hn,
    heap w' !! r = Some hn
    /\ c_nRows (_cache hn) = None
    /\ c_reprSample (_cache hn) = None
    /\ (if forallb is_EStr (e :: es)
        then df_selectExpr (map expr_text (e :: es)) (_sparkDF h)
        else df_select (e :: es) (_sparkDF h)) = Ok (_sparkDF hn).
Proof.
  intros Hh [Hc Hn] Hstar E. rewrite select_run in E.
  destruct (star_in (e :: es)) as [star|err] eqn:Es; [|done].
  apply star_in_spec in Es. rewrite (bool_decide_eq_false_2 _ Hstar) in Es.
  subst star. unfold select_flags in E. rewrite Hc, Hn in E.
  destruct (inherited_row_count _ _ _ _ _ _ _ _ Hh E)
    as (hn & Hr & _ & Hrows & Hs & Hdf & _).
  exists hn. split; [done|]. cbn in Hrows, Hs.
  cbn [additional apply_all apply_transform] in Hdf.
  split; [done|]. split; [done|].
  destruct (forallb is_EStr (e :: es));
    match type of Hdf with
    | match ?x with _ => _ end = _ =>
        destruct x; [by injection Hdf as <-|done]
    end.
Qed.

(** *** Every operation extends the handle *)

Lemma transform_extends self targ df0 parg kw w h r w' :
  heap w !! self = Some h ->
  transform self targ df0 parg kw w = (Ok r, w') ->
  extends w h (additional targ) df0 r w'.
Proof.
  intros Hh E.
  destruct (transform_result _ _ _ _ _ _ _ _ _ Hh E)
    as (m & src & n & w1 & sparkDF & _ & Hdf & Hr & Hheap & Hd & _ & Hc & _).
  split; [done|]. split; [done|]. split; [done|].
  eexists. split; [exact Hheap|]. cbn.
  repeat split. by destruct df0 as [df|].
Qed.

Lemma extends_same_objects w0 w h ts df0 r w' :
  heap w0 = heap w -> dicts w0 = dicts w -> copies w0 = copies w ->
  extends w0 h ts df0 r w' -> extends w h ts df0 r w'.
Proof. unfold extends. by intros -> -> ->. Qed.

Lemma extends_update w h ts df0 r w1 f :
  extends w h ts df0 r w1 ->
  (forall c, c_pieceADFs (f c) = c_pieceADFs c) ->
  exists w2,
    update r (with_cache f) w1 = (Ok tt, w2)
    /\ extends w h ts df0 r w2.
Proof.
  intros (Hr & Hd & Hc & hn & Hheap & H1 & H2 & H3 & H4) Hf.
  assert (Hrn : heap w1 !! r = Some hn) by (by rewrite Hheap, lookup_insert_eq).
  eexists. split; [by apply (update_heap _ _ _ _ Hrn)|].
  split; [done|]. split; [done|]. split; [done|].
  exists (with_cache f hn). cbn [heap with_heap].
  rewrite Hheap, insert_insert_eq. cbn. by rewrite Hf.
Qed.


Lemma run_op_extends self op kw w h r w' :
  heap w !! self = Some h ->
  plans_from_sample op = false ->
  run_op self op kw w = (Ok r, w') ->
  exists ts ps df0,
    appended h op = Some (ts, ps)
    /\ (replays op = true -> df0 = None)
    /\ extends w h ts df0 r w'.
Proof.
  intros Hh Hplan.
  destruct op as
    [targ df0 parg|exprs|query tempAlias|condition|colName colExpr
    |cols|cols|cols|item]; try discriminate Hplan; cbn [run_op].
  - intros E. exists (additional targ), (additional_local parg), df0.
    split; [by destruct targ|]. split; [by destruct df0|].
    by apply (transform_extends _ _ _ _ _ _ _ _ _ Hh E).
  - rewrite select_run. destruct exprs as [|e es];
      [|destruct (star_in (e :: es)) as [star|err]; [|done]];
      intros E;
      eexists _, _, None; (split; [reflexivity|]); (split; [done|]);
      apply (transform_extends _ _ _ _ _ _ _ _ _ Hh E).
  - unfold sql.
    rewrite (bind_ok _ _ _ _ _ (deref_ok _ _ _ Hh)).
    unfold set_alias at 1.
    rewrite (bind_ok _ _ _ _ _ (update_heap _ _ _ _ Hh)).
    set (wa := with_heap (insert self (with_alias (Some tempAlias) h)) w).
    assert (Hha : heap wa !! self = Some (with_alias (Some tempAlias) h)).
    { unfold wa. cbn. by rewrite lookup_insert_eq. }
    unfold try_except.
    match goal with
    | |- (match ?body wa with _ => _ end = _) -> _ =>
        destruct (body wa) as [[r0|e] wb] eqn:Eb
    end.
    2: { unfold set_alias, bind. by destruct (update _ _ wb) as [[|] ?]. }
    intros [= <- <-]. revert Eb.
    destruct (startswith (lower (strip query)) "select"); [|done].
    cbn [assert]. rewrite (bind_ok _ _ wa tt wa) by done.
    unfold bind at 1, lift at 1.
    destruct (spark_sql query tempAlias (_sparkDF h)) as [df|e]; [|done].
    unfold set_alias at 1.
    rewrite (bind_ok _ _ _ _ _ (update_heap _ _ _ _ Hha)).
    rewrite with_alias_restore.
    set (wb' := with_heap (insert self h) wa).
    assert (Hhb : heap wb' = heap w).
    { unfold wb', wa. cbn. rewrite insert_insert_eq. by apply insert_id. }
    assert (Hhs : heap wb' !! self = Some h) by (by rewrite Hhb).
    intros E. eexists _, _, (Some df). split; [reflexivity|].
    split; [done|].
    apply (extends_same_objects wb' w); [done|done|done|].
    apply (transform_extends _ _ _ _ _ _ _ _ _ Hhs E).
  - unfold filter_rows. destruct (duplicate_keyword kw); [done|].
    intros E. eexists _, _, None.
    split; [reflexivity|]. split; [done|].
    apply (transform_extends _ _ _ _ _ _ _ _ _ Hh E).
  - unfold withColumn. destruct (duplicate_keyword kw); [done|].
    intros E. eexists _, _, None.
    split; [reflexivity|]. split; [done|].
    apply (transform_extends _ _ _ _ _ _ _ _ _ Hh E).
  - unfold drop_cols. destruct (duplicate_keyword kw); [done|].
    intros E. eexists _, _, None.
    split; [reflexivity|]. split; [done|].
    apply (transform_extends _ _ _ _ _ _ _ _ _ Hh E).
  - unfold __getitem__. intros E. eexists _, _, None.
    split; [reflexivity|]. split; [done|].
    apply (transform_extends _ _ _ _ _ _ _ _ _ Hh E).
Qed.


Lemma apply_all_app ts1 : forall ts2 df,
  apply_all (ts1 ++ ts2) df
  = match apply_all ts1 df with
    | Ok df' => apply_all ts2 df'
    | Raise e => Raise e
    end.
Proof.
  induction ts1 as [|t ts1 IH]; intros ts2 df; cbn; [done|].
  destruct (apply_transform t df); [apply IH|done].
Qed.

(** X16.  The frame of a handle is its chain applied to its initial frame,
    and the operations that compute the new frame by calling what they
    append ([transform] without a frame given, [select], [filter],
    [withColumn], [drop], projection) keep it so: on a handle for which
    this holds they return a handle for which it holds. *)
Theorem replaying_operations_keep_the_frame_coherent self op kw w h r w' :
  heap w !! self = Some h ->
  coherent h ->
  replays op = true ->
  run_op self op kw w = (Ok r, w') ->
  exists hn, heap w' !! r = Some hn /\ coherent hn.
Proof.
  intros Hh Hco Hop E.
  assert (Hplan : plans_from_sample op = false) by (by destruct op).
  destruct (run_op_extends _ _ _ _ _ _ _ Hh Hplan E)
    as (ts & ps & df0 & _ & Hnone & Hx).
  rewrite (Hnone Hop) in Hx.
  destruct Hx as (_ & _ & _ & hn & Hheap & _ & Hi & Hts & Hdf).
  exists hn. split; [by rewrite Hheap, lookup_insert_eq|].
  unfold coherent in *. by rewrite Hts, Hi, apply_all_app, Hco.
Qed.

(** X17.  Transforms compose: giving [transform] the list [l1] and giving
    the result the list [l2] builds a handle with the same chains, the
    same initial frame and the same frame as giving it [l1 + l2] at once,
    and when the two steps return so does the single one, provided the
    registry holds the entry of the path of the handle. *)
Theorem transforms_compose self l1 l2 p1 p2 kw1 kw2 kw w h r1 w1 r2 w2 :
  heap w !! self = Some h ->
  registry_ready w h ->
  transform self (TList l1) None (PList p1) kw1 w = (Ok r1, w1) ->
  transform r1 (TList l2) None (PList p2) kw2 w1 = (Ok r2, w2) ->
  exists h2 r w' h',
    heap w2 !! r2 = Some h2
    /\ transform self (TList (l1 ++ l2)) None (PList (p1 ++ p2)) kw w
       = (Ok r, w')
    /\ heap w' !! r = Some h'
    /\ _sparkDFTransforms h' = _sparkDFTransforms h2
    /\ _pandasDFTransforms h' = _pandasDFTransforms h2
    /\ _initSparkDF h' = _initSparkDF h2
    /\ _sparkDF h' = _sparkDF h2
    /\ c_type (_cache h') = c_type (_cache h2).
Proof.
  intros Hh Hreg E1 E2.
  destruct (transform_spec _ _ _ _ _ _ _ _ _ Hh E1)
    as (_ & _ & _ & h1 & df1 & Hr1 & Hd1 & Hdf1 & _).
  destruct (transform_spec _ _ _ _ _ _ _ _ _ Hr1 E2)
    as (_ & _ & _ & h2 & df2 & Hr2 & Hd2 & Hdf2 & _).
  destruct Hd1 as (Hts1 & Hps1 & Hi1 & Hs1 & _).
  destruct Hd2 as (Hts2 & Hps2 & Hi2 & Hs2 & Hty2).
  cbn [additional additional_local] in *.
  rewrite Hs1 in Hdf2.
  assert (Hboth : apply_all (l1 ++ l2) (_sparkDF h) = Ok df2).
  { by rewrite apply_all_app, Hdf1. }
  destruct (transform_defined self (TList (l1 ++ l2)) None (PList (p1 ++ p2))
              kw w h Hh Hreg) as (r & w' & E).
  { cbn. by rewrite Hboth. }
  destruct (transform_spec _ _ _ _ _ _ _ _ _ Hh E)
    as (_ & _ & _ & h' & df' & Hr' & Hd' & Hdf' & _).
  destruct Hd' as (Hts' & Hps' & Hi' & Hs' & Hty').
  cbn [additional additional_local] in *.
  rewrite Hboth in Hdf'. injection Hdf' as <-.
  exists h2, r, w', h'. split; [done|]. split; [done|]. split; [done|].
  rewrite Hts', Hps', Hi', Hs', Hty', Hts2, Hps2, Hi2, Hs2, Hty2.
  rewrite Hts1, Hps1, Hi1, <- !app_assoc. done.
Qed.

End Facts.

Import Reference.

(** A transform that the engine refuses, on the handle of [data]. *)
Lemma a_failing_transform_witness :
  let refused := TOne (Callable (fun _ => Raise (ExternalError "refused"))) in
  exists line,
    transform 0%nat refused None (PList []) no_kw (world_of data_handle)
    = (Raise (ExternalError "refused"),
       with_stdout (fun out => out ++ [line]) (world_of data_handle)).
Proof.
  intros refused.
  apply (@a_failing_transform_builds_nothing Reference.ext
           0%nat refused (PList []) no_kw (world_of data_handle) data_handle
           (ExternalError "refused")); reflexivity.
Defined.

(** A statement that is no query, on the handle of [data]. *)
Lemma sql_that_raises_witness :
  let w := world_of data_handle in
  (forall e w',
      sql 0%nat "DROP TABLE this" "this" no_kw w = (Raise e, w') ->
      heap w' = heap w)
  /\ (startswith (lower (strip "DROP TABLE this")) "select" = false ->
      sql 0%nat "DROP TABLE this" "this" no_kw w = (Raise AssertionError, w)).
Proof.
  intros w.
  apply (@sql_that_raises_changes_no_handle Reference.ext
           0%nat "DROP TABLE this" "this" no_kw w data_handle).
  reflexivity.
Defined.

(** A filter on the handle of [data], whose row count is cached. *)
Lemma cache_keeping_calls_witness :
  let w := world_of data_handle in
  let w' := snd (run_op 0%nat (OpFilter "x > 0") no_kw w) in
  exists hn,
    heap w' !! 1%nat = Some hn
    /\ c_nRows (_cache hn) = c_nRows (_cache data_handle)
    /\ c_reprSample (_cache hn) = c_reprSample (_cache data_handle).
Proof.
  intros w w'.
  apply (@cache_keeping_calls_hand_over_the_cached_row_count Reference.ext
           0%nat (OpFilter "x > 0") no_kw w data_handle 1%nat w').
  - reflexivity.
  - split; reflexivity.
  - reflexivity.
  - by_evaluation.
Defined.

(** The selection of one column of [data]. *)
Lemma select_without_star_witness :
  let w := world_of data_handle in
  let w' := snd (select 0%nat [EStr "id"] no_kw w) in
  exists hn,
    heap w' !! 1%nat = Some hn
    /\ c_nRows (_cache hn) = None
    /\ c_reprSample (_cache hn) = None
    /\ (if forallb is_EStr [EStr "id"]
        then df_selectExpr (map expr_text [EStr "id"]) (_sparkDF data_handle)
        else df_select [EStr "id"] (_sparkDF data_handle)) = Ok (_sparkDF hn).
Proof.
  intros w w'.
  apply (@select_without_star_forgets_the_row_count Reference.ext
           0%nat (EStr "id") [] no_kw w data_handle 1%nat w').
  - reflexivity.
  - split; reflexivity.
  - intros H. apply list_elem_of_singleton in H. discriminate H.
  - by_evaluation.
Defined.


(** A column added to [data]. *)
Lemma replaying_operations_witness :
  let w := world_of data_handle in
  let w' := snd (run_op 0%nat (OpWithColumn "y" "x + 1") no_kw w) in
  exists hn, heap w' !! 1%nat = Some hn /\ coherent hn.
Proof.
  intros w w'.
  apply (@replaying_operations_keep_the_frame_coherent Reference.ext
           0%nat (OpWithColumn "y" "x + 1") no_kw w data_handle 1%nat w').
  - reflexivity.
  - reflexivity.
  - reflexivity.
  - by_evaluation.
Defined.

(** A drop followed by a filter, on [data]. *)
Lemma transforms_compose_witness :
  let w := world_of data_handle in
  let l1 := [Callable (df_drop ["x"])] in
  let l2 := [Callable (df_filter "id > 0")] in
  let w1 := snd (transform 0%nat (TList l1) None (PList []) no_kw w) in
  let w2 := snd (transform 1%nat (TList l2) None (PList []) no_kw w1) in
  exists h2 r w' h',
    heap w2 !! 2%nat = Some h2
    /\ transform 0%nat (TList (l1 ++ l2)) None (PList ([] ++ [])) no_kw w
       = (Ok r, w')
    /\ heap w' !! r = Some h'
    /\ _sparkDFTransforms h' = _sparkDFTransforms h2
    /\ _pandasDFTransforms h' = _pandasDFTransforms h2
    /\ _initSparkDF h' = _initSparkDF h2
    /\ _sparkDF h' = _sparkDF h2
    /\ c_type (_cache h') = c_type (_cache h2).
Proof.
  intros w l1 l2 w1 w2.
  apply (@transforms_compose Reference.ext
           0%nat l1 l2 [] [] no_kw no_kw no_kw w data_handle 1%nat w1 2%nat w2).
  - reflexivity.
  - by exists (meta data_handle), frame0, 100.
  - by_evaluation.
  - by_evaluation.
Defined.

End ChainFacts.

(** ** What [_subset] copies, loads and hands over *)

Module SubsetEffects.

Import SubsetFacts TransformFacts RegistryFacts ChainFacts.

Section Facts.

Context `{Ext : External}.

Lemma with_copies_twice f g w :
  with_copies f (with_copies g w) = with_copies (fun c => f (g c)) w.
Proof. reflexivity. Qed.

Lemma copy_all_spec pairs : forall w,
  copy_all pairs w = (Ok tt, with_copies (fun c => c ++ pairs) w).
Proof.
  induction pairs as [|[a b] rest IH]; intros w; cbn [copy_all].
  - unfold ret. f_equal. unfold with_copies. rewrite app_nil_r.
    symmetry. apply world_eta.
  - unfold bind, copy_file, modify. rewrite IH, with_copies_twice.
    f_equal. unfold with_copies. f_equal. by rewrite <- app_assoc.
Qed.

(** X18.  [_subset] refuses sub-paths that are not among those of the
    handle: when one of the requested sub-paths is unknown it raises an
    assertion error before anything is copied or loaded. *)
Theorem subset_of_an_unknown_piece_is_refused self ps kw w h p :
  heap w !! self = Some h ->
  p ∈ ps ->
  p ∉ pieceSubPaths (meta h) ->
  _subset self ps kw w = (Raise AssertionError, w).
Proof.
  intros Hh Hin Hnot. unfold _subset.
  destruct ps as [|first rest]; [by apply elem_of_nil in Hin|].
  rewrite (bind_ok _ _ _ _ _ (deref_ok _ _ _ Hh)).
  assert (Hsup : issuperset (pieceSubPaths (meta h)) (first :: rest) = false).
  { apply not_true_iff_false. intros H.
    apply Hnot. by apply (proj1 (issuperset_spec _ _) H). }
  by rewrite Hsup.
Qed.

(** The world in which [_subset] constructs the new handle. *)
Lemma _subset_proper_steps self ps kw w h :
  heap w !! self = Some h ->
  ps <> [] ->
  issuperset (pieceSubPaths (meta h)) ps = true ->
  Z.of_nat (length ps) <> nPieces (meta h) ->
  exists w0,
    heap w0 = heap w /\ dicts w0 = dicts w /\ _CACHE w0 = _CACHE w
    /\ stdout w0 = stdout w
    /\ copies w0
       = copies w
         ++ (if 1 <? Z.of_nat (length ps)
             then subset_copies h (uuid4 (n_uuid w)) ps else [])
    /\ n_uuid w0
       = (if 1 <? Z.of_nat (length ps) then S (n_uuid w) else n_uuid w)
    /\ _subset self ps kw w
       = (let* adf :=
            __init__ (subset_path h (uuid4 (n_uuid w)) ps)
              (init_args (_sparkDFTransforms h) (_pandasDFTransforms h)
                 (match kw_verbose kw with Some b => b | None => true end)
                 (stdKwArgs_alias h kw)) in
          colWidth_update adf self;;
          ret adf) w0.
Proof.
  intros Hh Hne Hsup Hlen. unfold _subset.
  destruct ps as [|first rest]; [done|].
  rewrite (bind_ok _ _ _ _ _ (deref_ok _ _ _ Hh)).
  rewrite Hsup. cbn [assert]. rewrite (bind_ok _ _ w tt w) by done.
  rewrite (proj2 (Z.eqb_neq _ _) Hlen).
  destruct (1 <? Z.of_nat (length (first :: rest))) eqn:Esev.
  - assert (Hpath : subset_path h (uuid4 (n_uuid w)) (first :: rest)
                    = subset_dir h (uuid4 (n_uuid w))).
    { unfold subset_path. destruct rest; [|done].
      cbn in Esev. discriminate Esev. }
    rewrite Hpath.
    exists (with_copies
              (fun c => c ++ subset_copies h (uuid4 (n_uuid w)) (first :: rest))
              {| heap := heap w; dicts := dicts w; _CACHE := _CACHE w;
                 copies := copies w; stdout := stdout w;
                 n_uuid := S (n_uuid w); n_random := n_random w |}).
    do 6 (split; [reflexivity|]).
    unfold bind at 1. unfold bind at 1. unfold new_uuid at 1.
    unfold subset_dir, subset_copies.
    destruct (s3Client (meta h)) as [s3|];
      unfold bind at 1; rewrite copy_all_spec; reflexivity.
  - assert (Hrest : rest = []).
    { destruct rest; [done|]. cbn [length] in Esev.
      apply Z.ltb_ge in Esev. lia. }
    subst rest. cbn [subset_path].
    exists w. rewrite app_nil_r. repeat split; try done.
Qed.

(** What [_subset] returns for sub-paths that are not all the pieces. *)
Lemma _subset_proper_result self ps kw w h r w' :
  heap w !! self = Some h ->
  ps <> [] ->
  Z.of_nat (length ps) <> nPieces (meta h) ->
  _subset self ps kw w = (Ok r, w') ->
  exists hn,
    r = fresh (dom (heap w))
    /\ heap w' = <[r := hn]> (heap w)
    /\ dicts w' = <[fresh (dom (dicts w)) := ∅]> (dicts w)
    /\ copies w'
       = copies w
         ++ (if 1 <? Z.of_nat (length ps)
             then subset_copies h (uuid4 (n_uuid w)) ps else [])
    /\ n_uuid w'
       = (if 1 <? Z.of_nat (length ps) then S (n_uuid w) else n_uuid w)
    /\ _CACHE w' !! subset_path h (uuid4 (n_uuid w)) ps
       = Some (NsLoaded (meta hn) (_srcSparkDF hn) (_srcNRows hn))
    /\ path hn = match m_path (meta hn) with
                 | Some p => p
                 | None => subset_path h (uuid4 (n_uuid w)) ps
                 end
    /\ _sparkDFTransforms hn = _sparkDFTransforms h
    /\ _pandasDFTransforms hn = _pandasDFTransforms h
    /\ _initSparkDF hn = _srcSparkDF hn
    /\ apply_all (_sparkDFTransforms h) (_srcSparkDF hn) = Ok (_sparkDF hn)
    /\ c_type (_cache hn) = df_dtypes (_sparkDF hn)
    /\ c_nRows (_cache hn) = Some (_srcNRows hn)
    /\ c_colWidth (_cache hn) = c_colWidth (_cache h)
    /\ c_reprSample (_cache hn) = None
    /\ c_pieceADFs (_cache hn) = fresh (dom (dicts w))
    /\ _alias hn = (if truthy_str (stdKwArgs_alias h kw)
                    then stdKwArgs_alias h kw else None).
Proof.
  intros Hh Hne Hlen E.
  assert (Hsup : issuperset (pieceSubPaths (meta h)) ps = true).
  { destruct (issuperset (pieceSubPaths (meta h)) ps) eqn:Es; [done|].
    exfalso. revert E. unfold _subset. destruct ps as [|first rest]; [done|].
    rewrite (bind_ok _ _ _ _ _ (deref_ok _ _ _ Hh)). by rewrite Es. }
  destruct (_subset_proper_steps self ps kw w h Hh Hne Hsup Hlen)
    as (w0 & Hheap0 & Hd0 & Hc0 & _ & Hcp0 & Hu0 & Hrun).
  rewrite Hrun in E. clear Hrun. revert E.
  unfold bind at 1.
  match goal with
  | |- (match __init__ ?p ?a w0 with _ => _ end = _) -> _ =>
      destruct (__init__ p a w0) as [[adf|e] w2] eqn:E1; [|done]
  end.
  pose proof (__init___inv _ _ _ _ _ E1)
    as (m & src & n & w1 & frame0 & nRows0 & sparkDF
        & Hreg & Hf & Hs & Hadf & Hw2).
  cbn [init_args a_initSparkDF a_sparkDF a_sparkDFTransforms nRows_kw reCache]
    in Hreg, Hf, Hs.
  destruct Hf as (_ & -> & ->).
  pose proof (registry_entry_recorded _ _ _ _ _ _ _ Hreg) as Hrec.
  destruct (registry_entry_only_registry
              (subset_path h (uuid4 (n_uuid w)) ps) false w0) as (c & Hc).
  rewrite Hreg in Hc. cbn [snd] in Hc. subst w1.
  cbn [heap dicts with_CACHE _CACHE] in Hadf, Hw2, Hrec.
  rewrite Hheap0 in Hadf. rewrite ?Hheap0, ?Hd0 in Hw2.
  set (hc := constructed _ _ _ _ _ _ _ _ _) in Hw2.
  assert (Hne' : adf <> self).
  { intros ->. apply (is_fresh (dom (heap w))). rewrite <- Hadf.
    apply elem_of_dom. by exists h. }
  assert (Hself2 : heap w2 !! self = Some h).
  { rewrite Hw2. cbn. by rewrite Hheap0, lookup_insert_ne. }
  assert (Hadf2 : heap w2 !! adf = Some hc).
  { rewrite Hw2. cbn. by rewrite lookup_insert_eq. }
  unfold colWidth_update. unfold bind at 1.
  rewrite (bind_ok _ _ _ _ _ (deref_ok _ _ _ Hself2)).
  rewrite (update_heap _ _ _ _ Hadf2). cbn [ret].
  intros [= <- <-].
  eexists. split; [exact Hadf|].
  cbn [heap dicts copies n_uuid _CACHE with_heap].
  rewrite Hw2. cbn [heap dicts copies n_uuid _CACHE with_heap with_dicts
                    with_CACHE].
  rewrite Hheap0, Hd0, insert_insert_eq, Hcp0, Hu0.
  split; [reflexivity|]. split; [reflexivity|]. split; [reflexivity|].
  split; [reflexivity|].
  unfold hc, constructed. cbn.
  split; [exact Hrec|]. split; [done|]. split; [done|]. split; [done|].
  split; [done|]. split; [exact Hs|].
  split.
  { destruct (_sparkDFTransforms h) as [|t ts]; cbn; [|done].
    cbn in Hs. by injection Hs as <-. }
  split.
  { by destruct (_sparkDFTransforms h). }
  split.
  { destruct (_sparkDFTransforms h); cbn; apply (right_id_L ∅ (∪)). }
  split; [by destruct (_sparkDFTransforms h)|].
  split; [by destruct (_sparkDFTransforms h)|done].
Qed.

(** X19.  A subset of one piece copies nothing: the new handle is loaded
    from the file of the piece where it is.  A subset of several pieces,
    not all, copies each requested piece once, in the order given, into a
    directory named by a new identifier, and the new handle is loaded from
    that directory.  In both cases the registry holds the entry of the
    path that was loaded. *)
Theorem subset_copies_several_pieces_and_no_single_piece
    self ps kw w h r w' :
  heap w !! self = Some h ->
  ps <> [] ->
  Z.of_nat (length ps) <> nPieces (meta h) ->
  _subset self ps kw w = (Ok r, w') ->
  let u := uuid4 (n_uuid w) in
  exists hn,
    heap w' !! r = Some hn
    /\ _CACHE w' !! subset_path h u ps
       = Some (NsLoaded (meta hn) (_srcSparkDF hn) (_srcNRows hn))
    /\ match ps with
       | [p] =>
           copies w' = copies w
           /\ n_uuid w' = n_uuid w
           /\ subset_path h u ps
              = (if 1 <? nPieces (meta h) then path_join (path h) p else path h)
       | _ =>
           copies w' = copies w ++ subset_copies h u ps
           /\ length (subset_copies h u ps) = length ps
           /\ n_uuid w' = S (n_uuid w)
           /\ subset_path h u ps = subset_dir h u
       end.
Proof.
  intros Hh Hne Hlen E u.
  destruct (_subset_proper_result _ _ _ _ _ _ _ Hh Hne Hlen E)
    as (hn & Hr & Hheap & _ & Hcp & Hu & Hreg & _).
  exists hn. split; [by rewrite Hheap, lookup_insert_eq|].
  split; [exact Hreg|].
  destruct ps as [|p [|q rest]]; [done| |].
  - cbn in Hcp, Hu. rewrite app_nil_r in Hcp. done.
  - assert (Hsev : (1 <? Z.of_nat (length (p :: q :: rest))) = true).
    { apply Z.ltb_lt. cbn [length]. lia. }
    rewrite Hsev in Hcp, Hu. split; [done|]. split; [|done].
    unfold subset_copies. destruct (s3Client (meta h)); by rewrite length_map.
Qed.

(** X20.  The handle of a subset carries the chains of the original, not
    its frame: its initial frame is what was loaded for the subset, its
    frame is the chain of the original applied to that, with the types of
    the result and the row count of what was loaded; it takes over the
    column widths cached on the original, has a piece dictionary of its
    own, and the original is as it was. *)
Theorem a_subset_replays_the_chain_on_what_it_loads self ps kw w h r w' :
  heap w !! self = Some h ->
  ps <> [] ->
  Z.of_nat (length ps) <> nPieces (meta h) ->
  _subset self ps kw w = (Ok r, w') ->
  exists hn,
    (r ∉ dom (heap w))
    /\ heap w' !! r = Some hn
    /\ heap w' !! self = Some h
    /\ _sparkDFTransforms hn = _sparkDFTransforms h
    /\ _pandasDFTransforms hn = _pandasDFTransforms h
    /\ _initSparkDF hn = _srcSparkDF hn
    /\ coherent hn
    /\ c_type (_cache hn) = df_dtypes (_sparkDF hn)
    /\ c_nRows (_cache hn) = Some (_srcNRows hn)
    /\ c_colWidth (_cache hn) = c_colWidth (_cache h)
    /\ (c_pieceADFs (_cache hn) ∉ dom (dicts w)).
Proof.
  intros Hh Hne Hlen E.
  destruct (_subset_proper_result _ _ _ _ _ _ _ Hh Hne Hlen E)
    as (hn & Hr & Hheap & _ & _ & _ & _ & _ & Hts & Hps & Hi & Hdf & Hty
        & Hn & Hcw & _ & Hpd & _).
  exists hn. rewrite Hheap, Hr.
  split; [apply is_fresh|]. split; [by rewrite lookup_insert_eq|].
  split.
  { rewrite lookup_insert_ne; [done|].
    intros Heq. apply (is_fresh (dom (heap w))). rewrite Heq.
    apply elem_of_dom. by exists h. }
  repeat split; try done.
  - unfold coherent. by rewrite Hts, Hi.
  - rewrite Hpd. apply is_fresh.
Qed.

End Facts.

Import Reference.

(** A sub-path that [data] does not have. *)
Lemma subset_of_an_unknown_piece_witness :
  let w := world_of data_handle in
  _subset 0%nat ["date=2017/a.parquet"; "date=1999/z.parquet"] no_kw w
  = (Raise AssertionError, w).
Proof.
  intros w.
  apply (@subset_of_an_unknown_piece_is_refused Reference.ext
           0%nat ["date=2017/a.parquet"; "date=1999/z.parquet"] no_kw w
           data_handle "date=1999/z.parquet").
  - reflexivity.
  - apply list_elem_of_further, list_elem_of_here.
  - intros H. cbn in H.
    repeat (apply elem_of_cons in H as [H|H]; [discriminate H|]).
    by apply elem_of_nil in H.
Defined.

(** Two of the four pieces of [data]. *)
Lemma subset_copies_witness :
  let w := world_of data_handle in
  let ps := ["date=2017/a.parquet"; "date=2018/b.parquet"] in
  let w' := snd (_subset 0%nat ps no_kw w) in
  let u := uuid4 (n_uuid w) in
  exists hn,
    heap w' !! 1%nat = Some hn
    /\ _CACHE w' !! subset_path data_handle u ps
       = Some (NsLoaded (meta hn) (_srcSparkDF hn) (_srcNRows hn))
    /\ match ps with
       | [p] =>
           copies w' = copies w
           /\ n_uuid w' = n_uuid w
           /\ subset_path data_handle u ps
              = (if 1 <? nPieces (meta data_handle)
                 then path_join (path data_handle) p else path data_handle)
       | _ =>
           copies w' = copies w ++ subset_copies data_handle u ps
           /\ length (subset_copies data_handle u ps) = length ps
           /\ n_uuid w' = S (n_uuid w)
           /\ subset_path data_handle u ps = subset_dir data_handle u
       end.
Proof.
  intros w ps w'.
  apply (@subset_copies_several_pieces_and_no_single_piece Reference.ext
           0%nat ps no_kw w data_handle 1%nat w').
  - reflexivity.
  - discriminate.
  - discriminate.
  - by_evaluation.
Defined.

(** One of the four pieces of [data]. *)
Lemma a_subset_replays_witness :
  let w := world_of data_handle in
  let w' := snd (_subset 0%nat ["date=2019/c.parquet"] no_kw w) in
  exists hn,
    (1%nat ∉ dom (heap w))
    /\ heap w' !! 1%nat = Some hn
    /\ heap w' !! 0%nat = Some data_handle
    /\ _sparkDFTransforms hn = _sparkDFTransforms data_handle
    /\ _pandasDFTransforms hn = _pandasDFTransforms data_handle
    /\ _initSparkDF hn = _srcSparkDF hn
    /\ coherent hn
    /\ c_type (_cache hn) = df_dtypes (_sparkDF hn)
    /\ c_nRows (_cache hn) = Some (_srcNRows hn)
    /\ c_colWidth (_cache hn) = c_colWidth (_cache data_handle)
    /\ (c_pieceADFs (_cache hn) ∉ dom (dicts w)).
Proof.
  intros w w'.
  apply (@a_subset_replays_the_chain_on_what_it_loads Reference.ext
           0%nat ["date=2019/c.parquet"] no_kw w data_handle 1%nat w').
  - reflexivity.
  - discriminate.
  - discriminate.
  - by_evaluation.
Defined.

End SubsetEffects.

(** ** The dictionary of piece handles *)

Module PieceFacts.

Import SubsetFacts TransformFacts RegistryFacts ChainFacts SubsetEffects.

Section Facts.

Context `{Ext : External}.

Lemma with_piece_twice h df df' p :
  with_piece h df (with_piece h df' p) = with_piece h df p.
Proof. reflexivity. Qed.

Lemma with_heap_twice f g w :
  with_heap f (with_heap g w) = with_heap (fun hp => f (g hp)) w.
Proof. reflexivity. Qed.

Lemma with_heap_ext f g w :
  f (heap w) = g (heap w) -> with_heap f w = with_heap g w.
Proof. intros E. unfold with_heap. by rewrite E. Qed.


(** The replay on a memoised piece stops at a [Transformer]. *)
Lemma replay_piece_stops piece h label pre t post : forall i w p0 df0 df,
  heap w !! piece = Some (with_piece h df0 p0) ->
  Forall (fun t => is_Transformer t = false) pre ->
  apply_all pre df0 = Ok df ->
  replay_piece piece h label (pre ++ Transformer t :: post) i w
  = (Raise TypeError,
     with_stdout (fun out => out ++ [label (i + length pre)%nat])
       (with_heap (insert piece (with_piece h df p0)) w)).
Proof.
  induction pre as [|c pre IH]; intros i w p0 df0 df Hp Hcall Hrun.
  - cbn in Hrun. injection Hrun as <-. cbn [app replay_piece].
    rewrite (bind_ok _ _ _ _ _ (deref_ok _ _ _ Hp)). cbn.
    replace (i + 0)%nat with i by lia. unfold print, bind, modify, raise.
    f_equal. f_equal. symmetry. apply with_heap_same. by apply insert_id.
  - cbn [app replay_piece]. apply Forall_cons in Hcall as [Hc Hpre].
    rewrite (bind_ok _ _ _ _ _ (deref_ok _ _ _ Hp)). rewrite Hc.
    cbn [apply_all] in Hrun. cbn [_sparkDF with_piece].
    destruct (apply_transform c df0) as [df1|e]; [|done].
    rewrite (bind_ok _ _ _ _ _ (update_heap _ _ _ _ Hp)).
    rewrite with_piece_twice.
    erewrite (IH (S i) _ p0 df1 df); [| |done|done].
    + cbn [length]. replace (S i + length pre)%nat with (i + S (length pre))%nat
        by lia.
      f_equal. f_equal. rewrite with_heap_twice. apply with_heap_ext.
      apply insert_insert_eq.
    + cbn. by rewrite lookup_insert_eq.
Qed.


(** X22.  On a piece handle that the dictionary holds the chain is replayed
    by calling every transform as a function, also a [Transformer], which
    is not callable: when the chain of the handle holds one, preceded by
    callables that the frame accepts, [_pieceADF] raises a type error after
    one line on standard output, and the memoised piece is left with the
    chain of the handle and the frame reached before the [Transformer]. *)
Theorem a_memoised_piece_handle_cannot_replay_a_Transformer
    self p w h d piece ph pre t post df :
  heap w !! self = Some h ->
  dicts w !! c_pieceADFs (_cache h) = Some d ->
  d !! p = Some piece ->
  heap w !! piece = Some ph ->
  _sparkDFTransforms h = pre ++ Transformer t :: post ->
  Forall (fun t => is_Transformer t = false) pre ->
  apply_all pre (_initSparkDF ph) = Ok df ->
  exists line,
    _pieceADF self p w
    = (Raise TypeError,
       with_stdout (fun out => out ++ [line])
         (with_heap (insert piece (with_piece h df ph)) w)).
Proof.
  intros Hh Hd Hp Hpiece Hchain Hcall Hrun.
  eexists. unfold _pieceADF.
  rewrite (bind_ok _ _ _ _ _ (deref_ok _ _ _ Hh)).
  unfold bind at 1, gets at 1. rewrite Hd. cbn [mbind option_bind].
  rewrite Hp.
  rewrite (bind_ok _ _ _ _ _ (deref_ok _ _ _ Hpiece)).
  rewrite (bind_ok _ _ _ _ _ (update_heap _ _ _ _ Hpiece)).
  set (w1 := with_heap (insert piece (with_piece h (_initSparkDF ph) ph)) w).
  assert (H1 : heap w1 !! piece = Some (with_piece h (_initSparkDF ph) ph)).
  { unfold w1. cbn. by rewrite lookup_insert_eq. }
  unfold bind at 1. rewrite Hchain.
  rewrite (replay_piece_stops piece h _ pre t post O w1 ph (_initSparkDF ph)
             df H1 Hcall Hrun).
  f_equal. f_equal. unfold w1. rewrite with_heap_twice.
  apply with_heap_ext. by rewrite insert_insert_eq.
Qed.

(** What the construction of a piece handle leaves alone. *)
Lemma new_piece_handle self p w h piece w1 :
  heap w !! self = Some h ->
  1 <= nPieces (meta h) ->
  (if _partitionedByDateOnly (meta h) then
     let* adf :=
       try_except
         (__init__ (path_join (path h) p)
            (init_args (_sparkDFTransforms h) (_pandasDFTransforms h)
                       false None))
         (fun err => print ("*** " +:+ p +:+ " ***");; raise err) in
     colWidth_update adf self;;
     ret adf
   else
     _subset self [p]
       {| kw_alias := None; kw_inheritCache := None;
          kw_inheritNRows := None; kw_verbose := Some false |}) w
  = (Ok piece, w1) ->
  copies w1 = copies w
  /\ (dicts w1 = dicts w \/ dicts w1 = <[fresh (dom (dicts w)) := ∅]> (dicts w))
  /\ ((piece = self /\ w1 = w
       /\ _partitionedByDateOnly (meta h) = false /\ nPieces (meta h) = 1)
      \/ (piece = fresh (dom (heap w))
          /\ exists hn,
               heap w1 = <[piece := hn]> (heap w)
               /\ _CACHE w1 !! path_join (path h) p
                  = Some (NsLoaded (meta hn) (_srcSparkDF hn) (_srcNRows hn))
               /\ _sparkDFTransforms hn = _sparkDFTransforms h
               /\ _pandasDFTransforms hn = _pandasDFTransforms h
               /\ apply_all (_sparkDFTransforms h) (_srcSparkDF hn)
                  = Ok (_sparkDF hn)
               /\ _initSparkDF hn = _srcSparkDF hn)).
Proof.
  intros Hh Hn.
  destruct (_partitionedByDateOnly (meta h)) eqn:Edate.
  - unfold bind at 1, try_except.
    match goal with
    | |- context [__init__ ?pp ?a w] =>
        destruct (__init__ pp a w) as [[adf|e] w2] eqn:E1
    end.
    2: { unfold bind, print, modify, raise. done. }
    pose proof (__init___inv _ _ _ _ _ E1)
      as (m & src & n & w0 & frame0 & nRows0 & sparkDF
          & Hreg & Hf & Hs & Hadf & Hw2).
    cbn [init_args a_initSparkDF a_sparkDF a_sparkDFTransforms nRows_kw reCache]
      in Hreg, Hf, Hs.
    destruct Hf as (_ & -> & ->).
    pose proof (registry_entry_recorded _ _ _ _ _ _ _ Hreg) as Hrec.
    destruct (registry_entry_only_registry (path_join (path h) p) false w)
      as (c & Hc).
    rewrite Hreg in Hc. cbn [snd] in Hc. subst w0.
    cbn [heap dicts with_CACHE _CACHE] in Hadf, Hw2, Hrec.
    set (hc := constructed _ _ _ _ _ _ _ _ _) in Hw2.
    assert (Hne' : adf <> self).
    { intros ->. apply (is_fresh (dom (heap w))). rewrite <- Hadf.
      apply elem_of_dom. by exists h. }
    assert (Hself2 : heap w2 !! self = Some h).
    { rewrite Hw2. cbn. by rewrite lookup_insert_ne. }
    assert (Hadf2 : heap w2 !! adf = Some hc).
    { rewrite Hw2. cbn. by rewrite lookup_insert_eq. }
    unfold colWidth_update. unfold bind at 1.
    rewrite (bind_ok _ _ _ _ _ (deref_ok _ _ _ Hself2)).
    rewrite (update_heap _ _ _ _ Hadf2). cbn [ret].
    intros [= <- <-].
    cbn [copies dicts heap _CACHE with_heap]. rewrite Hw2.
    cbn [copies dicts heap _CACHE with_heap with_dicts with_CACHE].
    split; [done|]. split; [by right|]. right. split; [done|].
    eexists. split; [by rewrite insert_insert_eq|].
    unfold hc, constructed. cbn.
    split; [exact Hrec|]. split; [done|]. split; [done|].
    split; [|done].
    destruct (_sparkDFTransforms h) as [|t ts]; [|done].
    cbn in Hs. by injection Hs as <-.
  - intros E.
    destruct (decide (nPieces (meta h) = 1)) as [H1|H1].
    + assert (Hself : piece = self /\ w1 = w).
      { revert E. unfold _subset.
        rewrite (bind_ok _ _ _ _ _ (deref_ok _ _ _ Hh)).
        destruct (issuperset (pieceSubPaths (meta h)) [p]); [|done].
        cbn [assert]. rewrite (bind_ok _ _ w tt w) by done.
        rewrite H1. cbn. by intros [= <- <-]. }
      destruct Hself as [-> ->].
      split; [done|]. split; [by left|]. by left.
    + assert (Hlen : Z.of_nat (length [p]) <> nPieces (meta h)).
      { cbn. lia. }
      destruct (_subset_proper_result _ _ _ _ _ _ _ Hh
                  (ltac:(discriminate) : [p] <> []) Hlen E)
        as (hn & Hr & Hheap & Hd & Hcp & _ & Hreg & _ & Hts & Hps & Hi & Hdf & _).
      cbn [length] in Hcp. cbn in Hcp. rewrite app_nil_r in Hcp.
      assert (Hpath : subset_path h (uuid4 (n_uuid w)) [p]
                      = path_join (path h) p).
      { cbn [subset_path]. destruct (Z.ltb_spec 1 (nPieces (meta h))); [done|].
        lia. }
      rewrite Hpath in Hreg.
      split; [done|]. split; [by right|]. right. split; [done|].
      exists hn. by repeat split.
Qed.

(** X23.  A piece handle that the dictionary does not hold is built from the
    file of the piece, where it is (nothing is copied), with the chains of
    the handle, and is put into the dictionary under its sub-path before it
    is returned.  The one exception: on a data set of one piece that is not
    partitioned by date only, the handle itself is put into the dictionary
    and returned. *)
Theorem a_new_piece_handle_is_memoised self p w h d piece w' :
  heap w !! self = Some h ->
  1 <= nPieces (meta h) ->
  dicts w !! c_pieceADFs (_cache h) = Some d ->
  d !! p = None ->
  _pieceADF self p w = (Ok piece, w') ->
  dicts w' !! c_pieceADFs (_cache h) = Some (<[p := piece]> d)
  /\ copies w' = copies w
  /\ ((piece = self /\ heap w' = heap w
       /\ _partitionedByDateOnly (meta h) = false /\ nPieces (meta h) = 1)
      \/ ((piece ∉ dom (heap w))
          /\ exists hn,
               heap w' = <[piece := hn]> (heap w)
               /\ _CACHE w' !! path_join (path h) p
                  = Some (NsLoaded (meta hn) (_srcSparkDF hn) (_srcNRows hn))
               /\ _sparkDFTransforms hn = _sparkDFTransforms h
               /\ _pandasDFTransforms hn = _pandasDFTransforms h
               /\ apply_all (_sparkDFTransforms h) (_srcSparkDF hn)
                  = Ok (_sparkDF hn)
               /\ _initSparkDF hn = _srcSparkDF hn)).
Proof.
  intros Hh Hn Hd Hp. unfold _pieceADF.
  rewrite (bind_ok _ _ _ _ _ (deref_ok _ _ _ Hh)).
  unfold bind at 1, gets at 1. rewrite Hd. cbn [mbind option_bind].
  rewrite Hp. unfold bind at 1.
  match goal with
  | |- (match ?m w with _ => _ end = _) -> _ =>
      destruct (m w) as [[piece0|e] w1] eqn:E1; [|done]
  end.
  destruct (new_piece_handle _ _ _ _ _ _ Hh Hn E1) as (Hcp & Hdicts & Hnew).
  unfold bind, modify, ret. intros [= <- <-].
  cbn [dicts copies heap _CACHE with_dicts].
  assert (Hd1 : dicts w1 !! c_pieceADFs (_cache h) = Some d).
  { destruct Hdicts as [->| ->]; [done|].
    rewrite lookup_insert_ne; [done|].
    intros Heq. apply (is_fresh (dom (dicts w))). rewrite Heq.
    apply elem_of_dom. by exists d. }
  rewrite Hd1, lookup_insert_eq.
  split; [done|]. split; [done|].
  destruct Hnew as [(-> & -> & Hdate & H1)|(-> & hn & Hhn)].
  - by left.
  - right. split; [apply is_fresh|]. by exists hn.
Qed.

End Facts.

Import Reference.


Lemma a_memoised_piece_Transformer_witness :
  let p := "date=2017/a.parquet" in
  let w1 := snd (_pieceADF 0%nat p (world_of data_handle)) in
  let w := snd (sql 0%nat "SELECT * FROM this" "this" no_kw w1) in
  let h := default data_handle (heap w !! 2%nat) in
  let ph := default data_handle (heap w !! 1%nat) in
  exists line,
    _pieceADF 2%nat p w
    = (Raise TypeError,
       with_stdout (fun out => out ++ [line])
         (with_heap (insert 1%nat (with_piece h (_initSparkDF ph) ph)) w)).
Proof.
  intros p w1 w h ph.
  apply (@a_memoised_piece_handle_cannot_replay_a_Transformer Reference.ext
           2%nat p w h (default ∅ (dicts w !! 0%nat)) 1%nat ph
           [] (SQLTransformer "SELECT * FROM __THIS__") []
           (_initSparkDF ph)).
  - by_evaluation.
  - by_evaluation.
  - by_evaluation.
  - by_evaluation.
  - by_evaluation.
  - apply Forall_nil_2.
  - reflexivity.
Defined.

(** The first piece of [data], asked for the first time. *)
Lemma a_new_piece_handle_witness :
  let p := "date=2017/a.parquet" in
  let w := world_of data_handle in
  let w' := snd (_pieceADF 0%nat p w) in
  dicts w' !! c_pieceADFs (_cache data_handle) = Some (<[p := 1%nat]> ∅)
  /\ copies w' = copies w
  /\ ((1%nat = 0%nat /\ heap w' = heap w
       /\ _partitionedByDateOnly (meta data_handle) = false
       /\ nPieces (meta data_handle) = 1)
      \/ ((1%nat ∉ dom (heap w))
          /\ exists hn,
               heap w' = <[1%nat := hn]> (heap w)
               /\ _CACHE w' !! path_join (path data_handle) p
                  = Some (NsLoaded (meta hn) (_srcSparkDF hn) (_srcNRows hn))
               /\ _sparkDFTransforms hn = _sparkDFTransforms data_handle
               /\ _pandasDFTransforms hn = _pandasDFTransforms data_handle
               /\ apply_all (_sparkDFTransforms data_handle) (_srcSparkDF hn)
                  = Ok (_sparkDF hn)
               /\ _initSparkDF hn = _srcSparkDF hn)).
Proof.
  intros p w w'.
  apply (@a_new_piece_handle_is_memoised Reference.ext
           0%nat p w data_handle ∅ 1%nat w').
  - reflexivity.
  - cbn. lia.
  - reflexivity.
  - reflexivity.
  - by_evaluation.
Defined.

End PieceFacts.

(** ** The pieces that a filter keeps, and the criteria it refuses *)

Module FilterFacts.

Import SubsetFacts.

Section Facts.

Context `{Ext : External}.





Lemma build_filterCriteria_refuses sample cs c : forall acc,
  c ∈ cs ->
  applies sample c = true ->
  entry_of c = None ->
  build_filterCriteria sample cs acc = Raise ValueError.
Proof.
  induction cs as [|c0 cs IH]; intros acc Hin Happ Hent.
  { by apply elem_of_nil in Hin. }
  cbn [build_filterCriteria].
  apply elem_of_cons in Hin as [->|Hin].
  - rewrite Happ. by destruct c0.
  - destruct (applies sample c0); [|by apply IH].
    destruct c0; [by apply IH|by apply IH|done].
Qed.

(** X25.  A criterion that is neither a pair nor a triple and names a
    partition key makes [filterByPartitionKeys] raise a value error,
    whatever the other criteria are, before any sub-path is looked at. *)
Theorem a_criterion_of_another_length_is_refused
    w self h sample others criteria kw c :
  heap w !! self = Some h ->
  pieceSubPaths (meta h) = sample :: others ->
  c ∈ criteria ->
  applies sample c = true ->
  entry_of c = None ->
  filterByPartitionKeys self criteria kw w = (Raise ValueError, w).
Proof.
  intros Hh Hp Hin Happ Hent. unfold filterByPartitionKeys.
  rewrite (bind_ok _ _ _ _ _ (deref_ok _ _ _ Hh)). rewrite Hp.
  by rewrite (build_filterCriteria_refuses sample criteria c [] Hin Happ Hent).
Qed.




End Facts.

Import Reference.


(** A criterion of four components on the partition key of [data]. *)
Lemma a_criterion_of_another_length_witness :
  let w := world_of data_handle in
  filterByPartitionKeys 0%nat
    [InSet "date" ["2018"]; OtherLength "date"] no_kw w
  = (Raise ValueError, w).
Proof.
  intros w.
  apply (@a_criterion_of_another_length_is_refused Reference.ext
           w 0%nat data_handle "date=2017/a.parquet"
           ["date=2018/b.parquet"; "date=2019/c.parquet"; "date=2020/d.parquet"]
           [InSet "date" ["2018"]; OtherLength "date"] no_kw
           (OtherLength "date")).
  - reflexivity.
  - reflexivity.
  - apply list_elem_of_further, list_elem_of_here.
  - reflexivity.
  - reflexivity.
Defined.


End FilterFacts.

(** ** The edges of [sample] and the parts of [split] *)

Module SplitFacts.

Import SubsetFacts TransformFacts RegistryFacts.

Section Facts.

Context `{Ext : External}.

(** The row count of a handle, and what asking for it leaves alone. *)
Lemma get_nRows_spec self w h :
  heap w !! self = Some h ->
  exists w0,
    get_nRows self w = (Ok (nRows_of h), w0)
    /\ dicts w0 = dicts w /\ _CACHE w0 = _CACHE w /\ copies w0 = copies w
    /\ stdout w0 = stdout w /\ n_random w0 = n_random w
    /\ n_uuid w0 = n_uuid w
    /\ dom (heap w0) = dom (heap w).
Proof.
  intros Hh. unfold get_nRows, nRows_of.
  rewrite (bind_ok _ _ _ _ _ (deref_ok _ _ _ Hh)).
  destruct (c_nRows (_cache h)) as [n|].
  - exists w. by repeat split.
  - rewrite (bind_ok _ _ _ _ _ (update_heap _ _ _ _ Hh)).
    eexists. split; [reflexivity|]. cbn.
    repeat split. apply set_eq. intros x.
    rewrite dom_insert, elem_of_union, elem_of_singleton.
    split; [|tauto]. intros [->|H]; [|done].
    apply elem_of_dom. by exists h.
Qed.

(** X27.  [sample] on a handle without rows raises a division error, and
    [sample] of a negative number of rows raises a type error; in both
    cases before a piece is chosen or read: no file, no registry entry, no
    dictionary and no object is made, and nothing is printed. *)
Theorem sample_of_no_rows_or_of_a_negative_size_raises
    self n minNPieces maxNPieces kw w h :
  heap w !! self = Some h ->
  let size := match n with Some n => n | None => _DEFAULT_REPR_SAMPLE_SIZE end in
  (nRows_of h = 0 \/ size < 0) ->
  exists w',
    sample self n minNPieces maxNPieces kw w
    = (Raise (if nRows_of h =? 0 then ZeroDivisionError else TypeError), w')
    /\ dicts w' = dicts w /\ _CACHE w' = _CACHE w /\ copies w' = copies w
    /\ stdout w' = stdout w /\ n_random w' = n_random w
    /\ dom (heap w') = dom (heap w).
Proof.
  intros Hh size Hbad.
  destruct (get_nRows_spec self w h Hh)
    as (w0 & Hrows & Hd & Hc & Hcp & Hs & Hr & _ & Hdom).
  exists w0. split; [|done].
  unfold sample, sample_plan.
  unfold bind at 1. unfold bind at 1.
  rewrite (deref_ok _ _ _ Hh).
  unfold bind at 1. rewrite Hrows.
  unfold bind at 1, lift at 1, sampleNPieces. fold size.
  destruct (Z.eqb_spec (nRows_of h) 0) as [H0|H0]; [done|].
  destruct Hbad as [Hbad|Hbad]; [done|].
  rewrite (proj2 (Z.ltb_lt (Z.min size (nRows_of h)) 0)) by lia.
  done.
Qed.

(** X28.  A sample of at least as many rows as the handle has, without a
    cap on the number of pieces, goes through every piece, in the order of
    the set and without drawing at random, whatever the minimum number of
    pieces is.  Of the floating-point expression only its value at the
    arguments of the call, [nRows], [nRows] and [nPieces], is used: there
    it is [nPieces]. *)
Theorem a_sample_of_all_the_rows_reads_every_piece
    w self h n minNPieces :
  float_ceil_sqrt_scaled (nRows_of h) (nRows_of h) (nPieces (meta h))
  = nPieces (meta h) ->
  heap w !! self = Some h ->
  0 < nRows_of h ->
  nRows_of h <= n ->
  0 <= nPieces (meta h) ->
  exists k w',
    sample_plan self (Some n) minNPieces None w
    = (Ok (n, k, pieceSubPaths (meta h)), w')
    /\ nPieces (meta h) <= k
    /\ n_random w' = n_random w
    /\ copies w' = copies w.
Proof.
  intros F1 Hh HR Hn HP.
  destruct (get_nRows_spec self w h Hh)
    as (w0 & Hrows & _ & _ & Hcp & _ & Hr & _).
  unfold sample_plan.
  rewrite (bind_ok _ _ _ _ _ (deref_ok _ _ _ Hh)).
  rewrite (bind_ok _ _ _ _ _ Hrows).
  unfold sampleNPieces.
  rewrite (proj2 (Z.eqb_neq (nRows_of h) 0)) by lia.
  rewrite (proj2 (Z.ltb_ge (Z.min n (nRows_of h)) 0)) by lia.
  rewrite Z.min_r by lia. rewrite F1.
  unfold bind at 1, lift at 1. unfold samplePieceSubPaths.
  set (k := Z.max (nPieces (meta h)) _).
  rewrite (proj2 (Z.ltb_ge k (nPieces (meta h)))) by lia.
  exists k, w0. repeat split; try done. lia.
Qed.

(** *** Slices *)

Lemma slice_nat {A} (a b : nat) (l : list A) :
  (a <= b <= length l)%nat ->
  slice (Z.of_nat a) (Z.of_nat b) l = take (b - a) (drop a l).
Proof.
  intros H. unfold slice, slice_index.
  rewrite !(proj2 (Z.ltb_ge _ 0)) by lia.
  rewrite !Z.min_l by lia. by rewrite !Nat2Z.id.
Qed.

Lemma slice_Z {A} (a b : Z) (l : list A) :
  0 <= a <= b -> b <= Z.of_nat (length l) ->
  slice a b l = take (Z.to_nat b - Z.to_nat a) (drop (Z.to_nat a) l).
Proof.
  intros H1 H2.
  rewrite <- (Z2Nat.id a) at 1 by lia. rewrite <- (Z2Nat.id b) at 1 by lia.
  apply slice_nat. lia.
Qed.

Lemma slice_app {A} (a b c : Z) (l : list A) :
  0 <= a <= b -> b <= c -> c <= Z.of_nat (length l) ->
  slice a b l ++ slice b c l = slice a c l.
Proof.
  intros H1 H2 H3.
  rewrite !slice_Z by lia.
  set (x := Z.to_nat a). set (y := Z.to_nat b). set (z := Z.to_nat c).
  assert (Hxy : (x <= y)%nat) by lia. assert (Hyz : (y <= z)%nat) by lia.
  replace (drop y l) with (drop (y - x) (drop x l))
    by (rewrite drop_drop; f_equal; lia).
  rewrite take_take_drop. f_equal. lia.
Qed.

Lemma slice_all {A} (l : list A) : slice 0 (Z.of_nat (length l)) l = l.
Proof.
  rewrite slice_Z by lia. rewrite Nat2Z.id. cbn. rewrite Nat.sub_0_r.
  apply firstn_all.
Qed.

(** Consecutive slices along non-decreasing indices make up the slice from
    the first index to the last. *)
Lemma split_slices_concat idx (l : list string) : forall n,
  (forall i, (i < n)%nat -> 0 <= nth i idx 0 <= nth (S i) idx 0) ->
  (0 < n)%nat ->
  nth n idx 0 <= Z.of_nat (length l) ->
  concat (split_slices idx l n) = slice (nth 0 idx 0) (nth n idx 0) l.
Proof.
  unfold split_slices.
  induction n as [|n IH]; intros Hmono Hpos Hlast; [lia|].
  rewrite seq_S, map_app, concat_app. cbn [map concat Nat.add].
  rewrite app_nil_r.
  destruct n as [|n'].
  - cbn. done.
  - rewrite IH.
    + apply slice_app.
      * split; [apply (Hmono O); lia|].
        clear -Hmono. induction n' as [|m IHm].
        -- apply (Hmono O). lia.
        -- etrans; [apply IHm|].
           ++ intros i Hi. apply Hmono. lia.
           ++ apply (Hmono (S m)). lia.
      * apply (Hmono (S n')). lia.
      * done.
    + intros i Hi. apply Hmono. lia.
    + lia.
    + etrans; [|exact Hlast]. apply (Hmono (S n')). lia.
Qed.

Lemma map_M_map {A B C} (f : B -> M C) (g : A -> B) (l : list A) :
  map_M f (map g l) = map_M (fun x => f (g x)) l.
Proof.
  induction l as [|x l IH]; cbn; [done|]. by rewrite IH.
Qed.

(** X29.  [split] shuffles the sub-paths once and hands consecutive slices
    of them to [_subset].  When the cumulative indices do not decrease and
    end at the number of sub-paths, the slices, one after the other, are the
    shuffled sub-paths: every sub-path is handed to exactly one part. *)
Theorem split_hands_every_piece_to_one_part self weights w h :
  random_laws ->
  heap w !! self = Some h ->
  weights <> [] ->
  is_one weights = false ->
  let idx := cumuIndices weights (nPieces (meta h)) in
  let shuffled := random_shuffle (n_random w) (pieceSubPaths (meta h)) in
  let slices := split_slices idx shuffled (length weights) in
  (forall i, (i < length weights)%nat -> nth i idx 0 <= nth (S i) idx 0) ->
  nth (length weights) idx 0 = Z.of_nat (length (pieceSubPaths (meta h))) ->
  concat slices ≡ₚ pieceSubPaths (meta h)
  /\ length slices = length weights
  /\ split self weights w
     = (let* adfs := map_M (fun s => _subset self s no_kw) slices in
        ret (Parts adfs)) (snd (shuffle (pieceSubPaths (meta h)) w)).
Proof.
  intros Hr Hh Hne Hone idx shuffled slices Hmono Hlast.
  assert (Hlen : length shuffled = length (pieceSubPaths (meta h))).
  { unfold shuffled. by rewrite (Permutation_length (Hr _ _)). }
  split; [|split].
  - unfold slices. rewrite split_slices_concat.
    + change (nth 0 idx 0) with 0. rewrite Hlast, <- Hlen, slice_all.
      apply Hr.
    + intros i Hi. split; [|by apply Hmono].
      clear Hi. induction i as [|i IHi]; [done|].
      destruct (decide (i < length weights)%nat) as [Hi|Hi].
      * etrans; [exact IHi|]. by apply Hmono.
      * rewrite nth_overflow; [done|].
        unfold idx, cumuIndices. cbn [length].
        rewrite length_map, length_seq. lia.
    + destruct weights; [done|]. cbn. lia.
    + rewrite Hlast, Hlen. lia.
  - unfold slices, split_slices. by rewrite length_map, length_seq.
  - unfold split. destruct weights as [|q qs]; [done|].
    rewrite Hone.
    rewrite (bind_ok _ _ _ _ _ (deref_ok _ _ _ Hh)).
    unfold bind at 1, shuffle at 1. cbn [snd].
    unfold slices, split_slices. rewrite map_M_map. reflexivity.
Qed.

(** X30.  [split] with a single weight other than 1 returns a list of one
    element, and the element is the handle itself: the one slice holds every
    sub-path, which [_subset] answers with [self].  Of the floating-point
    expression only [w / w * nPieces = nPieces] is used. *)
Theorem split_by_one_weight_returns_the_handle_in_a_list self q w h :
  random_laws ->
  heap w !! self = Some h ->
  counted h ->
  Qeq_bool q 1 = false ->
  float_cumu_index [q] 0 (nPieces (meta h)) = nPieces (meta h) ->
  split self [q] w
  = (Ok (Parts [self]), snd (shuffle (pieceSubPaths (meta h)) w)).
Proof.
  intros Hr Hh Hc Hq Hidx. unfold split, is_one. rewrite Hq.
  rewrite (bind_ok _ _ _ _ _ (deref_ok _ _ _ Hh)).
  unfold bind at 1, shuffle at 1. cbn [snd].
  cbn [length seq map_M cumuIndices map nth].
  rewrite Hidx.
  set (shuffled := random_shuffle (n_random w) (pieceSubPaths (meta h))).
  assert (Hall : slice 0 (nPieces (meta h)) shuffled = shuffled).
  { red in Hc. rewrite Hc.
    rewrite <- (Permutation_length (Hr (n_random w) (pieceSubPaths (meta h)))).
    apply slice_all. }
  rewrite Hall.
  set (w1 := {| heap := heap w; dicts := dicts w; _CACHE := _CACHE w;
                copies := copies w; stdout := stdout w; n_uuid := n_uuid w;
                n_random := S (n_random w) |}).
  assert (Hh1 : heap w1 !! self = Some h) by exact Hh.
  unfold bind at 1. unfold bind at 1.
  rewrite (_subset_everything w1 self h shuffled no_kw Hh1 Hc (Hr _ _)).
  reflexivity.
Qed.

End Facts.

Import Reference SamplingFacts.

(** A negative sample size on [data]. *)
Lemma sample_of_a_negative_size_witness :
  let w := world_of data_handle in
  exists w',
    sample 0%nat (Some (-5)) None None no_kw w
    = (Raise (if nRows_of data_handle =? 0
              then ZeroDivisionError else TypeError), w')
    /\ dicts w' = dicts w /\ _CACHE w' = _CACHE w /\ copies w' = copies w
    /\ stdout w' = stdout w /\ n_random w' = n_random w
    /\ dom (heap w') = dom (heap w).
Proof.
  intros w.
  apply (@sample_of_no_rows_or_of_a_negative_size_raises Reference.ext
           0%nat (Some (-5)) None None no_kw w data_handle).
  - reflexivity.
  - right. cbn. lia.
Defined.

(** A sample of 1000 rows of [data], which has 100. *)
Lemma a_sample_of_all_the_rows_witness :
  let w := world_of data_handle in
  exists k w',
    sample_plan 0%nat (Some 1000) None None w
    = (Ok (1000, k, pieceSubPaths (meta data_handle)), w')
    /\ nPieces (meta data_handle) <= k
    /\ n_random w' = n_random w
    /\ copies w' = copies w.
Proof.
  intros w.
  apply (@a_sample_of_all_the_rows_reads_every_piece Reference.ext
           w 0%nat data_handle 1000 None);
    try reflexivity; cbn; lia.
Defined.

(** [data] split in two halves. *)
Lemma split_hands_every_piece_witness :
  let w := world_of data_handle in
  let weights := [1%Q; 1%Q] in
  let idx := cumuIndices weights (nPieces (meta data_handle)) in
  let shuffled := random_shuffle (n_random w) (pieceSubPaths (meta data_handle)) in
  let slices := split_slices idx shuffled (length weights) in
  concat slices ≡ₚ pieceSubPaths (meta data_handle)
  /\ length slices = length weights
  /\ split 0%nat weights w
     = (let* adfs := map_M (fun s => _subset 0%nat s no_kw) slices in
        ret (Parts adfs)) (snd (shuffle (pieceSubPaths (meta data_handle)) w)).
Proof.
  intros w weights.
  apply (@split_hands_every_piece_to_one_part Reference.ext
           0%nat weights w data_handle reference_random_laws).
  - reflexivity.
  - discriminate.
  - reflexivity.
  - intros i Hi. cbn in Hi.
    destruct i as [|[|i]]; [by vm_compute|by vm_compute|lia].
  - by vm_compute.
Defined.

(** [data] split by the single weight one half. *)
Lemma split_by_one_weight_witness :
  let w := world_of data_handle in
  split 0%nat [(1 # 2)%Q] w
  = (Ok (Parts [0%nat]), snd (shuffle (pieceSubPaths (meta data_handle)) w)).
Proof.
  intros w.
  apply (@split_by_one_weight_returns_the_handle_in_a_list Reference.ext
           0%nat (1 # 2)%Q w data_handle reference_random_laws).
  - reflexivity.
  - reflexivity.
  - reflexivity.
  - by vm_compute.
Defined.

End SplitFacts.
